(** * Attribute negotiation and name translation of the utility provider

    A shallow embedding of [prov/util/src/util_attr.c]: the address-format
    check, the name codec built on [strtok_r], the attribute checkers, the
    alteration of receive and transmit attributes and the layered
    [utilx_getinfo], with the properties of the specification stated
    against them. *)

From Stdlib Require Import ZArith Ascii String List Bool Lia.
From stdpp Require Import base option list gmap fin_maps.
Import ListNotations.

Set Default Proof Using "Type".

(** ** C strings and the libc routines the codec uses *)

Module CStr.

(** The terminator and the delimiter ([char *delim = "_"]). *)
Definition NUL : ascii := Ascii.zero.
Definition delim : ascii := "_"%char.

(** The bytes at a [char *] up to, and without, the first terminator.  A
    list standing for a C string is read through [c_str], so a list that
    holds a terminator denotes the string before it. *)
Fixpoint c_str (p : list ascii) : list ascii :=
  match p with
  | [] => []
  | c :: p' => if Ascii.eqb c NUL then [] else c :: c_str p'
  end.

Definition strlen (p : list ascii) : nat := length (c_str p).

(** [strspn(p, "_")]: the length of the leading run of delimiters. *)
Fixpoint strspn (p : list ascii) : nat :=
  match p with
  | c :: p' => if Ascii.eqb c delim then S (strspn p') else 0
  | [] => 0
  end.

(** [strcspn(p, "_")]: the length of the leading run free of delimiters; the
    scan stops at the terminator. *)
Fixpoint strcspn (p : list ascii) : nat :=
  match p with
  | c :: p' =>
      if Ascii.eqb c NUL then 0
      else if Ascii.eqb c delim then 0 else S (strcspn p')
  | [] => 0
  end.

(** [buf[i]]; the buffers of this file end in a terminator and no routine
    reads past it. *)
Definition peek (buf : list ascii) (i : nat) : ascii := nth i buf NUL.

(** [strtok_r(str, "_", &save_ptr)] on the buffer [buf], entered at offset
    [s] ([str] on the first call, [*save_ptr] afterwards).  The result is
    the offset of the token, if any, the buffer after the call and the new
    [*save_ptr]. *)
Definition strtok_r (buf : list ascii) (s : nat)
  : option nat * (list ascii * nat) :=
  if Ascii.eqb (peek buf s) NUL then (None, (buf, s))
  else
    let s := s + strspn (drop s buf) in
    if Ascii.eqb (peek buf s) NUL then (None, (buf, s))
    else
      let e := s + strcspn (drop s buf) in
      if Ascii.eqb (peek buf e) NUL then (Some s, (buf, e))
      else (Some s, (<[e := NUL]> buf, S e)).

Definition tolower (c : ascii) : ascii :=
  let n := nat_of_ascii c in
  if (65 <=? n)%nat && (n <=? 90)%nat then ascii_of_nat (n + 32) else c.

(** [strcasecmp(a, b)]: the difference of the first pair of bytes that
    differ once lowered, 0 when the strings agree. *)
Fixpoint strcasecmp (a b : list ascii) : Z :=
  let ca := match a with [] => NUL | c :: _ => tolower c end in
  let cb := match b with [] => NUL | c :: _ => tolower c end in
  if Ascii.eqb ca cb then
    match a, b with
    | _ :: a', _ :: b' => if Ascii.eqb ca NUL then 0%Z else strcasecmp a' b'
    | _, _ => 0%Z
    end
  else (Z.of_nat (nat_of_ascii ca) - Z.of_nat (nat_of_ascii cb))%Z.

(** A string literal as the bytes of a C string. *)
Definition bytes (s : string) : list ascii := list_ascii_of_string s.

End CStr.
Import CStr.


(** ** Constants of the headers *)

Module Errno.

(** Modelled from the spec: the error numbers of [rdma/fi_errno.h], which is
    not among the sources.  Section 7 of the specification has three error
    kinds, out of memory, mismatch and malformed name; the header gives the
    first two the values of the C library's [ENOMEM] and [ENODATA] and
    places [FI_EOTHER] above the C library's range. *)
Definition FI_ENOMEM : Z := 12.
Definition FI_ENODATA : Z := 61.
Definition FI_EOTHER : Z := 257.

End Errno.
Import Errno.

(** ** Memory, diagnostics and the monad of the embedding *)

Record ptr := Ptr { blk : nat; off : nat }.

Inductive fi_tostr_type :=
  FI_TYPE_CAPS | FI_TYPE_MODE | FI_TYPE_OP_FLAGS | FI_TYPE_MSG_ORDER.

(** One [FI_INFO] line: the format string, without its line feed, and the
    value handed to [fi_tostr] when the format has a [%s]. *)
Record diag := Diag { fmt : string; arg : option (fi_tostr_type * Z) }.

(** What C leaves undefined and the code can reach: the embedding records
    it and goes on. *)
Inductive fault :=
| InvalidFree (p : ptr)
| NullString
| ReadPastEnd (p : ptr).

(** ** The attribute records *)

(** The three ranked enumerations.  A C [enum] holds any [int]: the last
    constructor of each type stands for a value that is none of the
    enumerators, the [default] case of the rank functions. *)
Inductive fi_threading :=
| FI_THREAD_UNSPEC | FI_THREAD_SAFE | FI_THREAD_FID | FI_THREAD_DOMAIN
| FI_THREAD_COMPLETION | FI_THREAD_ENDPOINT
| FI_THREAD_invalid.

Inductive fi_progress :=
| FI_PROGRESS_UNSPEC | FI_PROGRESS_AUTO | FI_PROGRESS_MANUAL
| FI_PROGRESS_invalid.

Inductive fi_resource_mgmt :=
| FI_RM_UNSPEC | FI_RM_DISABLED | FI_RM_ENABLED
| FI_RM_invalid.

Inductive fi_check_type := FI_CHECK_DEFAULT | FI_CHECK_LAYERED.

(** [struct fi_fabric_attr]; a [char *] field is [None] when it is [NULL]. *)
Record fi_fabric_attr := {
  fab_name : option (list ascii);
  fab_prov_name : option (list ascii);
  fab_prov_version : Z
}.

Record fi_domain_attr := {
  dom_name : option (list ascii);
  dom_threading : fi_threading;
  dom_control_progress : fi_progress;
  dom_data_progress : fi_progress;
  dom_resource_mgmt : fi_resource_mgmt;
  dom_av_type : Z;
  dom_mr_mode : Z;
  dom_cq_data_size : Z
}.

Record fi_ep_attr := {
  ep_type : Z;
  ep_protocol : Z;
  ep_protocol_version : Z;
  ep_max_msg_size : Z;
  ep_tx_ctx_cnt : Z;
  ep_rx_ctx_cnt : Z
}.

Record fi_rx_attr := {
  rx_caps : Z;
  rx_mode : Z;
  rx_op_flags : Z;
  rx_msg_order : Z;
  rx_comp_order : Z;
  rx_total_buffered_recv : Z;
  rx_size : Z;
  rx_iov_limit : Z
}.

Record fi_tx_attr := {
  tx_caps : Z;
  tx_mode : Z;
  tx_op_flags : Z;
  tx_msg_order : Z;
  tx_comp_order : Z;
  tx_inject_size : Z;
  tx_size : Z;
  tx_iov_limit : Z;
  tx_rma_iov_limit : Z
}.

(** [struct fi_info] as a requester hands it in: a group is [None] when its
    pointer is [NULL]. *)
Record fi_info := {
  info_caps : Z;
  info_mode : Z;
  info_addr_format : Z;
  info_fabric_attr : option fi_fabric_attr;
  info_domain_attr : option fi_domain_attr;
  info_ep_attr : option fi_ep_attr;
  info_rx_attr : option fi_rx_attr;
  info_tx_attr : option fi_tx_attr
}.

(** [struct fi_info] as a provider declares it.  The checker reads the
    provider's group whenever the requester's is present, without a test,
    so the provider's record has every group. *)
Record fi_info_prov := {
  prov_caps : Z;
  prov_mode : Z;
  prov_addr_format : Z;
  prov_fabric_attr : fi_fabric_attr;
  prov_domain_attr : fi_domain_attr;
  prov_ep_attr : fi_ep_attr;
  prov_rx_attr : fi_rx_attr;
  prov_tx_attr : fi_tx_attr
}.

(** What a heap block holds: the bytes of a string buffer, or an info record
    with all that hangs off it ([fi_freeinfo] releases it whole). *)
Inductive obj :=
| Bytes (b : list ascii)
| Info (i : fi_info).

(** The state a call runs in: the live heap blocks, the outcomes of the
    coming allocations (an empty list: all succeed), the diagnostics
    emitted and the faults met. *)
Record mem := Mem {
  heap : gmap nat obj;
  oracle : list bool;
  log : list diag;
  faults : list fault
}.

Definition M (A : Type) : Type := mem -> A * mem.

Definition ret {A} (a : A) : M A := fun m => (a, m).
Definition bind {A B} (c : M A) (k : A -> M B) : M B :=
  fun m => let '(a, m') := c m in k a m'.

Notation "x <- c ;; k" := (bind c (fun x => k))
  (at level 100, c at next level, right associativity).
Notation "c ;;; k" := (bind c (fun _ => k))
  (at level 100, right associativity).

Definition set_heap (h : gmap nat obj) (m : mem) : mem :=
  Mem h (oracle m) (log m) (faults m).

(** A fault: the call did what C leaves undefined.  The model records it
    and lets the run go on, so that the fault can be stated; what a run
    computes behind its first fault says nothing about the program, and
    the properties below speak of runs without a fault or of the run up to
    its first fault. *)
Definition raise (f : fault) : M unit :=
  fun m => (tt, Mem (heap m) (oracle m) (log m) (faults m ++ [f])).

(** [FI_INFO(prov, FI_LOG_CORE, ...)]. *)
Definition FI_INFO (d : diag) : M unit :=
  fun m => (tt, Mem (heap m) (oracle m) (log m ++ [d]) (faults m)).

Definition msg (s : string) : diag := Diag s None.

(** [malloc] and its kin: the next outcome of the oracle decides; a block
    that is granted is fresh. *)
Definition alloc (o : obj) : M (option nat) :=
  fun m =>
    match oracle m with
    | false :: rest => (None, Mem (heap m) rest (log m) (faults m))
    | _ =>
        let b := fresh (dom (heap m)) in
        (Some b, Mem (<[b := o]> (heap m)) (tail (oracle m)) (log m) (faults m))
    end.

(** [strdup(s)]. *)
Definition strdup (s : list ascii) : M (option ptr) :=
  b <- alloc (Bytes (c_str s ++ [NUL])) ;;
  ret (option_map (fun b => Ptr b 0) b).

(** [free(p)]: [p] must be what the allocation returned and still be
    live; a pointer into the middle of a block, or to no live block, is a
    fault, behind which the C run is undefined. *)
Definition free (p : ptr) : M unit :=
  fun m =>
    match heap m !! blk p, off p with
    | Some _, O => (tt, set_heap (delete (blk p) (heap m)) m)
    | _, _ => raise (InvalidFree p) m
    end.

(** The bytes of the buffer a pointer points into. *)
Definition buffer (b : nat) (m : mem) : list ascii :=
  match heap m !! b with
  | Some (Bytes bs) => bs
  | _ => []
  end.

Definition store_buffer (b : nat) (bs : list ascii) : M unit :=
  fun m => (tt, set_heap (<[b := Bytes bs]> (heap m)) m).

(** The C string at [p], when a terminator ends it inside its block. *)
Definition terminated (bs : list ascii) : bool :=
  existsb (Ascii.eqb NUL) bs.

Definition c_string_at (p : ptr) (m : mem) : option (list ascii) :=
  let bs := drop (off p) (buffer (blk p) m) in
  if terminated bs then Some (c_str bs) else None.

Definition load_c_string (p : ptr) : M (list ascii) :=
  fun m =>
    match c_string_at p m with
    | Some s => (s, m)
    | None => (drop (off p) (buffer (blk p) m), snd (raise (ReadPastEnd p) m))
    end.

(** A [char *] that the code reads without a test: reading [NULL] is a
    fault, behind which the C run is undefined (the empty string stands
    for what is read). *)
Definition deref_string (s : option (list ascii)) : M (list ascii) :=
  match s with
  | Some s => ret s
  | None => raise NullString ;;; ret []
  end.

(** ** The name codec *)

(** C's [int] and [size_t] conversions, for [parsed_len]. *)
Definition to_int (z : Z) : Z := ((z + 2 ^ 31) mod 2 ^ 32 - 2 ^ 31)%Z.
Definition to_size_t (z : Z) : Z := (z mod 2 ^ 64)%Z.

(** The loop of [utilx_parse_name]: up to [n] calls of [strtok_r], entered
    at [s], until one finds no token.  The offsets of the tokens found, in
    order, and the buffer the calls leave. *)
Fixpoint tokenize (n : nat) (buf : list ascii) (s : nat)
  : list nat * list ascii :=
  match n with
  | O => ([], buf)
  | S n' =>
      match strtok_r buf s with
      | (None, (buf', _)) => ([], buf')
      | (Some t, (buf', s')) =>
          let '(ts, buf'') := tokenize n' buf' s' in (t :: ts, buf'')
      end
  end.

(** [strlen(tok[i])] in the buffer. *)
Definition strlen_at (buf : list ascii) (t : nat) : nat := strlen (drop t buf).

(** [for (i = 0; i < max_tok; i++) parsed_len += strlen(tok[i]) + 1;
    parsed_len--;] *)
Definition parsed_len (buf : list ascii) (toks : list nat) : Z :=
  to_int
    (fold_left (fun acc t => to_int (acc + Z.of_nat (strlen_at buf t) + 1))
       toks 0 - 1)%Z.

(** [utilx_parse_name(name, max_tok, tok, get_prefix)]: the value returned
    and the entries of [tok] that were assigned.  [max_tok], an [int] that
    the callers give as 1, 2 or 3, is a natural number here. *)
Definition utilx_parse_name (name : list ascii) (max_tok : nat)
    (get_prefix : bool) : M (Z * list ptr) :=
  name_dup <- strdup name ;;
  match name_dup with
  | None => ret ((- FI_ENOMEM)%Z, [])
  | Some p =>
      buf <- (fun m => (buffer (blk p) m, m)) ;;
      let '(toks, buf) := tokenize max_tok buf 0 in
      let tok := map (Ptr (blk p)) toks in
      store_buffer (blk p) buf ;;;
      if (length toks <? max_tok)%nat then
        free p ;;; ret ((- FI_EOTHER)%Z, tok)
      else if get_prefix then ret (0%Z, tok)
      else
        if (Z.of_nat (strlen name) >? to_size_t (parsed_len buf toks))%Z then
          let last := nth (max_tok - 1) toks 0%nat in
          store_buffer (blk p) (<[(last + strlen_at buf last)%nat := delim]> buf) ;;;
          ret (0%Z, tok)
        else ret (0%Z, tok)
  end.

(** [utilx_tr_layer_domain_attr(layer_attr, base_attr)]: the value returned
    and [base_attr->name], the new block and the string in it. *)
Definition utilx_tr_layer_domain_attr (layer_attr : fi_domain_attr)
  : M (Z * option (ptr * list ascii)) :=
  name <- deref_string (dom_name layer_attr) ;;
  r <- utilx_parse_name name 2 false ;;
  let '(ret_, tok) := r in
  if negb (ret_ =? 0)%Z then ret (ret_, None)
  else
    tok1 <- load_c_string (nth 1 tok (Ptr 0 0)) ;;
    base_name <- strdup tok1 ;;
    free (nth 0 tok (Ptr 0 0)) ;;;
    match base_name with
    | None => ret ((- FI_ENOMEM)%Z, None)
    | Some p => ret (0%Z, Some (p, c_str tok1))
    end.

(** [utilx_tr_layer_fabric_attr(layer_attr, base_attr)]: the value returned,
    [base_attr->name] and [base_attr->prov_name]. *)
Definition utilx_tr_layer_fabric_attr (layer_attr : fi_fabric_attr)
  : M (Z * option (ptr * list ascii) * option (ptr * list ascii)) :=
  name <- deref_string (fab_name layer_attr) ;;
  r <- utilx_parse_name name 3 false ;;
  let '(ret_, tok) := r in
  if negb (ret_ =? 0)%Z then ret (ret_, None, None)
  else
    tok2 <- load_c_string (nth 2 tok (Ptr 0 0)) ;;
    base_name <- strdup tok2 ;;
    match base_name with
    | None =>
        free (nth 0 tok (Ptr 0 0)) ;;; ret ((- FI_ENOMEM)%Z, None, None)
    | Some p =>
        tok1 <- load_c_string (nth 1 tok (Ptr 0 0)) ;;
        prov_name <- strdup tok1 ;;
        free (nth 0 tok (Ptr 0 0)) ;;;
        match prov_name with
        | None => ret ((- FI_ENOMEM)%Z, Some (p, c_str tok2), None)
        | Some q => ret (0%Z, Some (p, c_str tok2), Some (q, c_str tok1))
        end
    end.

(** [snprintf(dst, len, ...)] of the formatted bytes [s]: at most [len - 1]
    of them and a terminator. *)
Definition snprintf (len : nat) (s : list ascii) : list ascii :=
  take (len - 1) s ++ [NUL].

(** The bytes of a block that [malloc] has just returned are indeterminate;
    the model marks each of them with this byte. *)
Definition uninit : ascii := "255"%char.

(** [malloc(len)]: a block of [len] bytes, none of them written. *)
Definition malloc (len : nat) : M (option nat) :=
  alloc (Bytes (replicate len uninit)).

(** The bytes [dst] of a block after [snprintf(dst, len, ...)]: what is
    written replaces the first bytes of the block and the bytes behind stay
    as they were; with [len] 0 nothing is written. *)
Definition snprintf_at (dst : list ascii) (len : nat) (s : list ascii)
  : list ascii :=
  match len with
  | O => dst
  | S _ => snprintf len s ++ drop (length (snprintf len s)) dst
  end.

(** [utilx_tr_base_domain_attr(base_attr, prefix, layer_attr)]: the value
    returned and [layer_attr->name], the new block and the string in it. *)
Definition utilx_tr_base_domain_attr (base_attr : fi_domain_attr)
    (prefix : list ascii) : M (Z * option (ptr * list ascii)) :=
  base_name <- deref_string (dom_name base_attr) ;;
  let len := (strlen prefix + strlen base_name + 2)%nat in
  b <- malloc len ;;
  match b with
  | None => ret ((- FI_ENOMEM)%Z, None)
  | Some b =>
      dst <- (fun m => (buffer b m, m)) ;;
      let name :=
        snprintf_at dst len (c_str prefix ++ [delim] ++ c_str base_name) in
      store_buffer b name ;;;
      ret (0%Z, Some (Ptr b 0, c_str name))
  end.

(** [utilx_tr_base_fabric_attr(base_attr, prefix, layer_attr)]. *)
Definition utilx_tr_base_fabric_attr (base_attr : fi_fabric_attr)
    (prefix : list ascii) : M (Z * option (ptr * list ascii)) :=
  base_name <- deref_string (fab_name base_attr) ;;
  base_prov <- deref_string (fab_prov_name base_attr) ;;
  let len := (strlen prefix + strlen base_name + strlen base_prov + 3)%nat in
  b <- malloc len ;;
  match b with
  | None => ret ((- FI_ENOMEM)%Z, None)
  | Some b =>
      dst <- (fun m => (buffer b m, m)) ;;
      let name :=
        snprintf_at dst len
          (c_str prefix ++ [delim] ++ c_str base_prov ++ [delim]
             ++ c_str base_name) in
      store_buffer b name ;;;
      ret (0%Z, Some (Ptr b 0, c_str name))
  end.

(** [fi_check_name(user_name, prov_name, type)]. *)
Definition fi_check_name (user_name : list ascii)
    (prov_name : option (list ascii)) (type : fi_check_type) : M Z :=
  match type with
  | FI_CHECK_LAYERED =>
      r <- utilx_parse_name user_name 1 true ;;
      let '(ret_, tok) := r in
      if (ret_ =? 0)%Z then
        let tok0 := nth 0 tok (Ptr 0 0) in
        prov_name <- deref_string prov_name ;;
        tok0_s <- load_c_string tok0 ;;
        let ret_ := strcasecmp prov_name tok0_s in
        free tok0 ;;;
        ret ret_
      else ret ret_
  | FI_CHECK_DEFAULT =>
      prov_name <- deref_string prov_name ;;
      ret (strcasecmp prov_name user_name)
  end.

Definition empty_mem : mem := Mem ∅ [] [] [].
Definition run {A} (c : M A) (m : mem) : A * mem := c m.

(** ** The address-format check *)

(** The enumerators of the address formats that [fi_valid_addr_format]
    names, as the header numbers them. *)
Class addr_formats := {
  FI_FORMAT_UNSPEC : Z;
  FI_SOCKADDR : Z;
  FI_SOCKADDR_IN : Z;
  FI_SOCKADDR_IN6 : Z;
  FI_SOCKADDR_IB : Z
}.

(** [fi_valid_addr_format(prov_format, user_format)]; the [switch] tries its
    labels in the order they are written. *)
Definition fi_valid_addr_format `{addr_formats}
    (prov_format user_format : Z) : bool :=
  if (user_format =? FI_FORMAT_UNSPEC)%Z then true
  else if (prov_format =? FI_SOCKADDR)%Z then
    (user_format <=? FI_SOCKADDR_IN6)%Z
  else if (prov_format =? FI_SOCKADDR_IN)%Z then
    (user_format <=? FI_SOCKADDR_IN)%Z
  else if (prov_format =? FI_SOCKADDR_IN6)%Z then
    (user_format <=? FI_SOCKADDR_IN6)%Z
  else if (prov_format =? FI_SOCKADDR_IB)%Z then
    (user_format <=? FI_SOCKADDR_IB)%Z
  else (prov_format =? user_format)%Z.

Module FabricH.

(** Modelled from the spec: the address-format enumeration of
    [rdma/fabric.h], which is not among the sources.  Section 4.3 of the
    specification names its families (unspecified, generic socket address,
    IPv4, IPv6, InfiniBand socket address) and notes that the check relies
    on their ordinal values; the enumerators are numbered in the order the
    header declares them, the unspecified format first. *)
#[export] Instance formats : addr_formats := {|
  FI_FORMAT_UNSPEC := 0;
  FI_SOCKADDR := 1;
  FI_SOCKADDR_IN := 2;
  FI_SOCKADDR_IN6 := 3;
  FI_SOCKADDR_IB := 4
|}.

(** Modelled from the spec: [FI_AV_UNSPEC] of [rdma/fi_domain.h], which is
    not among the sources; the unspecified address-vector type, the first
    enumerator of its type. *)
Definition FI_AV_UNSPEC : Z := 0.

End FabricH.
Import FabricH.

(** ** The attribute checkers *)

(** [~x] on a [uint64_t]. *)
Definition not64 (x : Z) : Z := Z.ldiff (Z.ones 64) x.

Definition nonzero (z : Z) : bool := negb (z =? 0)%Z.

Definition info_flags (s : string) (t : fi_tostr_type) (v : Z) : M unit :=
  FI_INFO (Diag s (Some (t, v))).

(** [user_attr->name && fi_check_name(user_attr->name, prov_name, type)] *)
Definition name_mismatch (user_name prov_name : option (list ascii))
    (type : fi_check_type) : M bool :=
  match user_name with
  | None => ret false
  | Some n => r <- fi_check_name n prov_name type ;; ret (nonzero r)
  end.

Definition fi_check_fabric_attr (prov_attr user_attr : fi_fabric_attr)
    (type : fi_check_type) : M Z :=
  bad <- name_mismatch (fab_name user_attr) (fab_name prov_attr) type ;;
  if bad then
    FI_INFO (msg "Unknown fabric name") ;;; ret (- FI_ENODATA)%Z
  else if (fab_prov_version user_attr >? fab_prov_version prov_attr)%Z then
    FI_INFO (msg "Unsupported provider version") ;;; ret (- FI_ENODATA)%Z
  else ret 0%Z.

(** Threading models ranked by order of parallelism. *)
Definition fi_thread_level (thread_model : fi_threading) : Z :=
  match thread_model with
  | FI_THREAD_SAFE => 1
  | FI_THREAD_FID => 2
  | FI_THREAD_ENDPOINT => 3
  | FI_THREAD_COMPLETION => 4
  | FI_THREAD_DOMAIN => 5
  | FI_THREAD_UNSPEC => 6
  | FI_THREAD_invalid => -1
  end.

(** Progress models ranked by order of automation. *)
Definition fi_progress_level (progress_model : fi_progress) : Z :=
  match progress_model with
  | FI_PROGRESS_AUTO => 1
  | FI_PROGRESS_MANUAL => 2
  | FI_PROGRESS_UNSPEC => 3
  | FI_PROGRESS_invalid => -1
  end.

(** Resource management models ranked by order of enablement. *)
Definition fi_resource_mgmt_level (rm_model : fi_resource_mgmt) : Z :=
  match rm_model with
  | FI_RM_ENABLED => 1
  | FI_RM_DISABLED => 2
  | FI_RM_UNSPEC => 3
  | FI_RM_invalid => -1
  end.

Definition fi_check_domain_attr (prov_attr user_attr : fi_domain_attr)
    (type : fi_check_type) : M Z :=
  bad <- name_mismatch (dom_name user_attr) (dom_name prov_attr) type ;;
  if bad then
    FI_INFO (msg "Unknown domain name") ;;; ret (- FI_ENODATA)%Z
  else if (fi_thread_level (dom_threading user_attr) <?
           fi_thread_level (dom_threading prov_attr))%Z then
    FI_INFO (msg "Invalid threading model") ;;; ret (- FI_ENODATA)%Z
  else if (fi_progress_level (dom_control_progress user_attr) <?
           fi_progress_level (dom_control_progress prov_attr))%Z then
    FI_INFO (msg "Invalid control progress model") ;;; ret (- FI_ENODATA)%Z
  else if (fi_progress_level (dom_data_progress user_attr) <?
           fi_progress_level (dom_data_progress prov_attr))%Z then
    FI_INFO (msg "Invalid data progress model") ;;; ret (- FI_ENODATA)%Z
  else if (fi_resource_mgmt_level (dom_resource_mgmt user_attr) <?
           fi_resource_mgmt_level (dom_resource_mgmt prov_attr))%Z then
    FI_INFO (msg "Invalid resource mgmt model") ;;; ret (- FI_ENODATA)%Z
  else if negb (dom_av_type prov_attr =? FI_AV_UNSPEC)%Z &&
          negb (dom_av_type user_attr =? FI_AV_UNSPEC)%Z &&
          negb (dom_av_type prov_attr =? dom_av_type user_attr)%Z then
    FI_INFO (msg "Invalid AV type") ;;; ret (- FI_ENODATA)%Z
  else if nonzero (dom_mr_mode user_attr) &&
          negb (dom_mr_mode user_attr =? dom_mr_mode prov_attr)%Z then
    FI_INFO (msg "Invalid memory registration mode") ;;; ret (- FI_ENODATA)%Z
  else if (dom_cq_data_size user_attr >? dom_cq_data_size prov_attr)%Z then
    FI_INFO (msg "CQ data size too large") ;;; ret (- FI_ENODATA)%Z
  else ret 0%Z.

Definition fi_check_ep_attr (prov_attr user_attr : fi_ep_attr) : M Z :=
  if nonzero (ep_type user_attr) &&
     negb (ep_type user_attr =? ep_type prov_attr)%Z then
    FI_INFO (msg "Unsupported endpoint type") ;;; ret (- FI_ENODATA)%Z
  else if nonzero (ep_protocol user_attr) &&
          negb (ep_protocol user_attr =? ep_protocol prov_attr)%Z then
    FI_INFO (msg "Unsupported protocol") ;;; ret (- FI_ENODATA)%Z
  else if nonzero (ep_protocol_version user_attr) &&
          (ep_protocol_version user_attr >? ep_protocol_version prov_attr)%Z then
    FI_INFO (msg "Unsupported protocol version") ;;; ret (- FI_ENODATA)%Z
  else if (ep_max_msg_size user_attr >? ep_max_msg_size prov_attr)%Z then
    FI_INFO (msg "Max message size too large") ;;; ret (- FI_ENODATA)%Z
  else ret 0%Z.

Definition fi_check_rx_attr (prov_attr user_attr : fi_rx_attr) : M Z :=
  if nonzero (Z.land (rx_caps user_attr) (not64 (rx_caps prov_attr))) then
    FI_INFO (msg "caps not supported") ;;;
    info_flags "Supported: %s" FI_TYPE_CAPS (rx_caps prov_attr) ;;;
    info_flags "Requested: %s" FI_TYPE_CAPS (rx_caps user_attr) ;;;
    ret (- FI_ENODATA)%Z
  else if negb (Z.land (rx_mode user_attr) (rx_mode prov_attr) =?
                rx_mode prov_attr)%Z then
    FI_INFO (msg "needed mode not set") ;;;
    info_flags "Expected: %s" FI_TYPE_MODE (rx_mode prov_attr) ;;;
    info_flags "Given: %s" FI_TYPE_MODE (rx_mode user_attr) ;;;
    ret (- FI_ENODATA)%Z
  else if nonzero (Z.land (rx_op_flags prov_attr)
                     (not64 (rx_op_flags prov_attr))) then
    FI_INFO (msg "op_flags not supported") ;;;
    info_flags "Supported: %s" FI_TYPE_OP_FLAGS (rx_op_flags prov_attr) ;;;
    info_flags "Requested: %s" FI_TYPE_OP_FLAGS (rx_op_flags user_attr) ;;;
    ret (- FI_ENODATA)%Z
  else if nonzero (Z.land (rx_msg_order user_attr)
                     (not64 (rx_msg_order prov_attr))) then
    FI_INFO (msg "msg_order not supported") ;;;
    info_flags "Supported: %s" FI_TYPE_MSG_ORDER (rx_msg_order prov_attr) ;;;
    info_flags "Requested: %s" FI_TYPE_MSG_ORDER (rx_msg_order user_attr) ;;;
    ret (- FI_ENODATA)%Z
  else if nonzero (Z.land (rx_comp_order user_attr)
                     (not64 (rx_comp_order prov_attr))) then
    FI_INFO (msg "comp_order not supported") ;;;
    info_flags "Supported: %s" FI_TYPE_MSG_ORDER (rx_comp_order prov_attr) ;;;
    info_flags "Requested: %s" FI_TYPE_MSG_ORDER (rx_comp_order user_attr) ;;;
    ret (- FI_ENODATA)%Z
  else if (rx_total_buffered_recv user_attr >?
           rx_total_buffered_recv prov_attr)%Z then
    FI_INFO (msg "total_buffered_recv too large") ;;; ret (- FI_ENODATA)%Z
  else if (rx_size user_attr >? rx_size prov_attr)%Z then
    FI_INFO (msg "size is greater than supported") ;;; ret (- FI_ENODATA)%Z
  else if (rx_iov_limit user_attr >? rx_iov_limit prov_attr)%Z then
    FI_INFO (msg "iov_limit too large") ;;; ret (- FI_ENODATA)%Z
  else ret 0%Z.

Definition fi_check_tx_attr (prov_attr user_attr : fi_tx_attr) : M Z :=
  if nonzero (Z.land (tx_caps user_attr) (not64 (tx_caps prov_attr))) then
    FI_INFO (msg "caps not supported") ;;;
    info_flags "Supported: %s" FI_TYPE_CAPS (tx_caps prov_attr) ;;;
    info_flags "Requested: %s" FI_TYPE_CAPS (tx_caps user_attr) ;;;
    ret (- FI_ENODATA)%Z
  else if negb (Z.land (tx_mode user_attr) (tx_mode prov_attr) =?
                tx_mode prov_attr)%Z then
    FI_INFO (msg "needed mode not set") ;;;
    info_flags "Expected: %s" FI_TYPE_MODE (tx_mode prov_attr) ;;;
    info_flags "Given: %s" FI_TYPE_MODE (tx_mode user_attr) ;;;
    ret (- FI_ENODATA)%Z
  else if nonzero (Z.land (tx_op_flags prov_attr)
                     (not64 (tx_op_flags prov_attr))) then
    FI_INFO (msg "op_flags not supported") ;;;
    info_flags "Supported: %s" FI_TYPE_OP_FLAGS (tx_op_flags prov_attr) ;;;
    info_flags "Requested: %s" FI_TYPE_OP_FLAGS (tx_op_flags user_attr) ;;;
    ret (- FI_ENODATA)%Z
  else if nonzero (Z.land (tx_msg_order user_attr)
                     (not64 (tx_msg_order prov_attr))) then
    FI_INFO (msg "msg_order not supported") ;;;
    info_flags "Supported: %s" FI_TYPE_MSG_ORDER (tx_msg_order prov_attr) ;;;
    info_flags "Requested: %s" FI_TYPE_MSG_ORDER (tx_msg_order user_attr) ;;;
    ret (- FI_ENODATA)%Z
  else if nonzero (Z.land (tx_comp_order user_attr)
                     (not64 (tx_comp_order prov_attr))) then
    FI_INFO (msg "comp_order not supported") ;;;
    info_flags "Supported: %s" FI_TYPE_MSG_ORDER (tx_comp_order prov_attr) ;;;
    info_flags "Requested: %s" FI_TYPE_MSG_ORDER (tx_comp_order user_attr) ;;;
    ret (- FI_ENODATA)%Z
  else if (tx_inject_size user_attr >? tx_inject_size prov_attr)%Z then
    FI_INFO (msg "inject_size too large") ;;; ret (- FI_ENODATA)%Z
  else if (tx_size user_attr >? tx_size prov_attr)%Z then
    FI_INFO (msg "size is greater than supported") ;;; ret (- FI_ENODATA)%Z
  else if (tx_iov_limit user_attr >? tx_iov_limit prov_attr)%Z then
    FI_INFO (msg "iov_limit too large") ;;; ret (- FI_ENODATA)%Z
  else if (tx_rma_iov_limit user_attr >? tx_rma_iov_limit prov_attr)%Z then
    FI_INFO (msg "rma_iov_limit too large") ;;; ret (- FI_ENODATA)%Z
  else ret 0%Z.

(** A group of the requester's record is checked when it is present. *)
Definition when_present {A} (group : option A) (check : A -> M Z) : M Z :=
  match group with
  | Some user_attr => check user_attr
  | None => ret 0%Z
  end.

Definition fi_check_info (prov_info : fi_info_prov)
    (user_info : option fi_info) (type : fi_check_type) : M Z :=
  match user_info with
  | None => ret 0%Z
  | Some user_info =>
      if nonzero (Z.land (info_caps user_info) (not64 (prov_caps prov_info)))
      then
        FI_INFO (msg "Unsupported capabilities") ;;;
        info_flags "Supported: %s" FI_TYPE_CAPS (prov_caps prov_info) ;;;
        info_flags "Requested: %s" FI_TYPE_CAPS (info_caps user_info) ;;;
        ret (- FI_ENODATA)%Z
      else if negb (Z.land (info_mode user_info) (prov_mode prov_info) =?
                    prov_mode prov_info)%Z then
        FI_INFO (msg "needed mode not set") ;;;
        info_flags "Expected: %s" FI_TYPE_MODE (prov_mode prov_info) ;;;
        info_flags "Given: %s" FI_TYPE_MODE (info_mode user_info) ;;;
        ret (- FI_ENODATA)%Z
      else if negb (fi_valid_addr_format (prov_addr_format prov_info)
                      (info_addr_format user_info)) then
        FI_INFO (msg "address format not supported") ;;; ret (- FI_ENODATA)%Z
      else
        r <- when_present (info_fabric_attr user_info)
               (fun user_attr =>
                  fi_check_fabric_attr (prov_fabric_attr prov_info)
                    user_attr type) ;;
        if nonzero r then ret r else
        r <- when_present (info_domain_attr user_info)
               (fun user_attr =>
                  fi_check_domain_attr (prov_domain_attr prov_info)
                    user_attr type) ;;
        if nonzero r then ret r else
        r <- when_present (info_ep_attr user_info)
               (fi_check_ep_attr (prov_ep_attr prov_info)) ;;
        if nonzero r then ret r else
        r <- when_present (info_rx_attr user_info)
               (fi_check_rx_attr (prov_rx_attr prov_info)) ;;
        if nonzero r then ret r else
        r <- when_present (info_tx_attr user_info)
               (fi_check_tx_attr (prov_tx_attr prov_info)) ;;
        if nonzero r then ret r else
        ret 0%Z
  end.

(** ** The alteration of an accepted record *)

Section Alter.

(** The masks [FI_PRIMARY_CAPS] and [FI_SECONDARY_CAPS] of [fi_util.h], which
    is not among the sources: whatever the header makes them. *)
Variables FI_PRIMARY_CAPS FI_SECONDARY_CAPS : Z.

Definition fi_alter_ep_attr (attr : fi_ep_attr) (hints : option fi_ep_attr)
  : fi_ep_attr :=
  match hints with
  | None => attr
  | Some hints =>
      {| ep_type := ep_type attr;
         ep_protocol := ep_protocol attr;
         ep_protocol_version := ep_protocol_version attr;
         ep_max_msg_size := ep_max_msg_size attr;
         ep_tx_ctx_cnt :=
           if nonzero (ep_tx_ctx_cnt hints) then ep_tx_ctx_cnt hints
           else ep_tx_ctx_cnt attr;
         ep_rx_ctx_cnt :=
           if nonzero (ep_rx_ctx_cnt hints) then ep_rx_ctx_cnt hints
           else ep_rx_ctx_cnt attr |}
  end.

Definition fi_alter_rx_attr (attr : fi_rx_attr) (hints : option fi_rx_attr)
    (info_caps : Z) : fi_rx_attr :=
  match hints with
  | None =>
      {| rx_caps :=
           Z.lor (Z.land (Z.land info_caps (rx_caps attr)) FI_PRIMARY_CAPS)
             (Z.land (rx_caps attr) FI_SECONDARY_CAPS);
         rx_mode := rx_mode attr;
         rx_op_flags := rx_op_flags attr;
         rx_msg_order := rx_msg_order attr;
         rx_comp_order := rx_comp_order attr;
         rx_total_buffered_recv := rx_total_buffered_recv attr;
         rx_size := rx_size attr;
         rx_iov_limit := rx_iov_limit attr |}
  | Some hints =>
      {| rx_caps :=
           Z.lor (Z.land (rx_caps hints) FI_PRIMARY_CAPS)
             (Z.land (rx_caps attr) FI_SECONDARY_CAPS);
         rx_mode := rx_mode attr;
         rx_op_flags := rx_op_flags hints;
         rx_msg_order := rx_msg_order attr;
         rx_comp_order := rx_comp_order attr;
         rx_total_buffered_recv := rx_total_buffered_recv hints;
         rx_size :=
           if nonzero (rx_size hints) then rx_size hints else rx_size attr;
         rx_iov_limit :=
           if nonzero (rx_iov_limit hints) then rx_iov_limit hints
           else rx_iov_limit attr |}
  end.

Definition fi_alter_tx_attr (attr : fi_tx_attr) (hints : option fi_tx_attr)
    (info_caps : Z) : fi_tx_attr :=
  match hints with
  | None =>
      {| tx_caps :=
           Z.lor (Z.land (Z.land info_caps (tx_caps attr)) FI_PRIMARY_CAPS)
             (Z.land (tx_caps attr) FI_SECONDARY_CAPS);
         tx_mode := tx_mode attr;
         tx_op_flags := tx_op_flags attr;
         tx_msg_order := tx_msg_order attr;
         tx_comp_order := tx_comp_order attr;
         tx_inject_size := tx_inject_size attr;
         tx_size := tx_size attr;
         tx_iov_limit := tx_iov_limit attr;
         tx_rma_iov_limit := tx_rma_iov_limit attr |}
  | Some hints =>
      {| tx_caps :=
           Z.lor (Z.land (tx_caps hints) FI_PRIMARY_CAPS)
             (Z.land (tx_caps attr) FI_SECONDARY_CAPS);
         tx_mode := tx_mode attr;
         tx_op_flags := tx_op_flags hints;
         tx_msg_order := tx_msg_order attr;
         tx_comp_order := tx_comp_order attr;
         tx_inject_size :=
           if nonzero (tx_inject_size hints) then tx_inject_size hints
           else tx_inject_size attr;
         tx_size :=
           if nonzero (tx_size hints) then tx_size hints else tx_size attr;
         tx_iov_limit :=
           if nonzero (tx_iov_limit hints) then tx_iov_limit hints
           else tx_iov_limit attr;
         tx_rma_iov_limit :=
           if nonzero (tx_rma_iov_limit hints) then tx_rma_iov_limit hints
           else tx_rma_iov_limit attr |}
  end.

(** [fi_alter_info(info, hints)]: [info] is the provider's record, with
    every group. *)
Definition fi_alter_info (info : fi_info_prov) (hints : option fi_info)
  : fi_info_prov :=
  match hints with
  | None => info
  | Some hints =>
      let caps :=
        Z.lor (Z.land (info_caps hints) FI_PRIMARY_CAPS)
          (Z.land (prov_caps info) FI_SECONDARY_CAPS) in
      {| prov_caps := caps;
         prov_mode := prov_mode info;
         prov_addr_format := prov_addr_format info;
         prov_fabric_attr := prov_fabric_attr info;
         prov_domain_attr := prov_domain_attr info;
         prov_ep_attr := fi_alter_ep_attr (prov_ep_attr info) (info_ep_attr hints);
         prov_rx_attr :=
           fi_alter_rx_attr (prov_rx_attr info) (info_rx_attr hints) caps;
         prov_tx_attr :=
           fi_alter_tx_attr (prov_tx_attr info) (info_tx_attr hints) caps |}
  end.

End Alter.

(** ** The layered negotiation *)

(** An info record that a collaborator builds: a fresh block holding it. *)
Definition new_info (i : fi_info) : M nat :=
  fun m =>
    let b := fresh (dom (heap m)) in
    (b, set_heap (<[b := Info i]> (heap m)) m).

(** [fi_freeinfo(info)]. *)
Definition fi_freeinfo (info : nat) : M unit := free (Ptr info 0).

Section Getinfo.

(** [fi_getinfo], the entry point of the base provider: the value it
    returns and, when that is 0, the record it stores through its last
    argument. *)
Variable fi_getinfo :
  Z -> option (list ascii) -> option (list ascii) -> Z -> nat -> M (Z * nat).

(** [utilx_getinfo(version, node, service, flags, prov, prov_info, hints,
    tr_layer_info, tr_base_info, get_base_info, info)]: the value returned
    and the record stored in [*info], if one is. *)
Definition utilx_getinfo (version : Z) (node service : option (list ascii))
    (flags : Z) (prov_info : fi_info_prov) (hints : option fi_info)
    (tr_layer_info : option fi_info -> M (option nat))
    (tr_base_info : nat -> M (option nat))
    (get_base_info : bool) : M (Z * option nat) :=
  r <- fi_check_info prov_info hints FI_CHECK_LAYERED ;;
  if nonzero r then ret (r, None) else
  base_hints <- tr_layer_info hints ;;
  match base_hints with
  | None => ret ((- FI_ENOMEM)%Z, None)
  | Some base_hints =>
      r <- fi_getinfo version node service flags base_hints ;;
      let '(r, base_info) := r in
      if nonzero r then
        fi_freeinfo base_hints ;;; ret (r, None)
      else if get_base_info then
        fi_freeinfo base_hints ;;; ret (r, Some base_info)
      else
        info <- tr_base_info base_info ;;
        match info with
        | None =>
            fi_freeinfo base_hints ;;; ret ((- FI_ENOMEM)%Z, None)
        | Some info =>
            fi_freeinfo base_info ;;;
            fi_freeinfo base_hints ;;; ret (r, Some info)
        end
  end.

End Getinfo.

(** A collaborator that hands out a new record, or fails with [NULL]. *)
Definition produces (i : option fi_info) : M (option nat) :=
  match i with
  | None => ret None
  | Some i => b <- new_info i ;; ret (Some b)
  end.

(** The blocks that are live in a state. *)
Definition live (m : mem) : gset nat := dom (heap m).

(** * Notions of the specification and sample records *)

(** ** Flag sets *)

(** [a] is a subset of [b], as the checkers test it: [a & ~b] is 0. *)
Definition flags_subset (a b : Z) : bool := (Z.land a (not64 b) =? 0)%Z.

Definition set_rx_op_flags (f : Z) (a : fi_rx_attr) : fi_rx_attr :=
  {| rx_caps := rx_caps a; rx_mode := rx_mode a; rx_op_flags := f;
     rx_msg_order := rx_msg_order a; rx_comp_order := rx_comp_order a;
     rx_total_buffered_recv := rx_total_buffered_recv a;
     rx_size := rx_size a; rx_iov_limit := rx_iov_limit a |}.

Definition set_tx_op_flags (f : Z) (a : fi_tx_attr) : fi_tx_attr :=
  {| tx_caps := tx_caps a; tx_mode := tx_mode a; tx_op_flags := f;
     tx_msg_order := tx_msg_order a; tx_comp_order := tx_comp_order a;
     tx_inject_size := tx_inject_size a; tx_size := tx_size a;
     tx_iov_limit := tx_iov_limit a;
     tx_rma_iov_limit := tx_rma_iov_limit a |}.

Definition rx_none : fi_rx_attr :=
  {| rx_caps := 0; rx_mode := 0; rx_op_flags := 0; rx_msg_order := 0;
     rx_comp_order := 0; rx_total_buffered_recv := 0; rx_size := 0;
     rx_iov_limit := 0 |}.

Definition tx_none : fi_tx_attr :=
  {| tx_caps := 0; tx_mode := 0; tx_op_flags := 0; tx_msg_order := 0;
     tx_comp_order := 0; tx_inject_size := 0; tx_size := 0;
     tx_iov_limit := 0; tx_rma_iov_limit := 0 |}.


(** ** The address-format table *)

(** The table of section 4.3 as the specification words it: the generic
    socket-address family takes its two sub-formats (and itself), the IPv4,
    IPv6 and InfiniBand families take their own format only, any other
    family takes an exact match. *)
Definition family_table `{addr_formats} (prov_format user_format : Z) : bool :=
  if (prov_format =? FI_SOCKADDR)%Z then
    (user_format =? FI_SOCKADDR)%Z || (user_format =? FI_SOCKADDR_IN)%Z
    || (user_format =? FI_SOCKADDR_IN6)%Z
  else if (prov_format =? FI_SOCKADDR_IN)%Z then
    (user_format =? FI_SOCKADDR_IN)%Z
  else if (prov_format =? FI_SOCKADDR_IN6)%Z then
    (user_format =? FI_SOCKADDR_IN6)%Z
  else if (prov_format =? FI_SOCKADDR_IB)%Z then
    (user_format =? FI_SOCKADDR_IB)%Z
  else (prov_format =? user_format)%Z.

(** The enumerators of a numbering, for the statement that they differ. *)
Definition enumerators `{addr_formats} : list Z :=
  [FI_FORMAT_UNSPEC; FI_SOCKADDR; FI_SOCKADDR_IN; FI_SOCKADDR_IN6;
   FI_SOCKADDR_IB].

(** ** Ranked enumerations *)

Definition dom_none : fi_domain_attr :=
  {| dom_name := None; dom_threading := FI_THREAD_UNSPEC;
     dom_control_progress := FI_PROGRESS_UNSPEC;
     dom_data_progress := FI_PROGRESS_UNSPEC;
     dom_resource_mgmt := FI_RM_UNSPEC;
     dom_av_type := 0; dom_mr_mode := 0; dom_cq_data_size := 0 |}.

Definition set_dom_threading (t : fi_threading) (a : fi_domain_attr)
  : fi_domain_attr :=
  {| dom_name := dom_name a; dom_threading := t;
     dom_control_progress := dom_control_progress a;
     dom_data_progress := dom_data_progress a;
     dom_resource_mgmt := dom_resource_mgmt a;
     dom_av_type := dom_av_type a; dom_mr_mode := dom_mr_mode a;
     dom_cq_data_size := dom_cq_data_size a |}.

Definition set_dom_name (n : option (list ascii)) (a : fi_domain_attr)
  : fi_domain_attr :=
  {| dom_name := n; dom_threading := dom_threading a;
     dom_control_progress := dom_control_progress a;
     dom_data_progress := dom_data_progress a;
     dom_resource_mgmt := dom_resource_mgmt a;
     dom_av_type := dom_av_type a; dom_mr_mode := dom_mr_mode a;
     dom_cq_data_size := dom_cq_data_size a |}.

(** In one of the four ranked fields the requester holds a value that is no
    enumerator while the provider holds an enumerator. *)
Definition requester_unknown (prov_attr user_attr : fi_domain_attr) : Prop :=
  (dom_threading user_attr = FI_THREAD_invalid /\
   dom_threading prov_attr <> FI_THREAD_invalid) \/
  (dom_control_progress user_attr = FI_PROGRESS_invalid /\
   dom_control_progress prov_attr <> FI_PROGRESS_invalid) \/
  (dom_data_progress user_attr = FI_PROGRESS_invalid /\
   dom_data_progress prov_attr <> FI_PROGRESS_invalid) \/
  (dom_resource_mgmt user_attr = FI_RM_invalid /\
   dom_resource_mgmt prov_attr <> FI_RM_invalid).

(** ** The order of the checks *)

Definition caps_stage (prov_info : fi_info_prov) (user_info : fi_info) : M Z :=
  if nonzero (Z.land (info_caps user_info) (not64 (prov_caps prov_info))) then
    FI_INFO (msg "Unsupported capabilities") ;;;
    info_flags "Supported: %s" FI_TYPE_CAPS (prov_caps prov_info) ;;;
    info_flags "Requested: %s" FI_TYPE_CAPS (info_caps user_info) ;;;
    ret (- FI_ENODATA)%Z
  else ret 0%Z.

Definition mode_stage (prov_info : fi_info_prov) (user_info : fi_info) : M Z :=
  if negb (Z.land (info_mode user_info) (prov_mode prov_info) =?
           prov_mode prov_info)%Z then
    FI_INFO (msg "needed mode not set") ;;;
    info_flags "Expected: %s" FI_TYPE_MODE (prov_mode prov_info) ;;;
    info_flags "Given: %s" FI_TYPE_MODE (info_mode user_info) ;;;
    ret (- FI_ENODATA)%Z
  else ret 0%Z.

Definition addr_format_stage (prov_info : fi_info_prov) (user_info : fi_info)
  : M Z :=
  if negb (fi_valid_addr_format (prov_addr_format prov_info)
             (info_addr_format user_info)) then
    FI_INFO (msg "address format not supported") ;;; ret (- FI_ENODATA)%Z
  else ret 0%Z.

(** The checks of a group of the request: its check when the request holds
    the group, no check when it does not. *)
Definition group_checks {A} (group : option A) (check : A -> M Z)
  : list (M Z) :=
  match group with
  | Some attr => [check attr]
  | None => []
  end.

(** The checks in the order the specification lists them: capabilities,
    mode, address format, and then the check of each group that the
    request holds. *)
Definition check_order (prov_info : fi_info_prov) (user_info : fi_info)
    (type : fi_check_type) : list (M Z) :=
  [ caps_stage prov_info user_info;
    mode_stage prov_info user_info;
    addr_format_stage prov_info user_info ]
  ++ group_checks (info_fabric_attr user_info)
       (fun a => fi_check_fabric_attr (prov_fabric_attr prov_info) a type)
  ++ group_checks (info_domain_attr user_info)
       (fun a => fi_check_domain_attr (prov_domain_attr prov_info) a type)
  ++ group_checks (info_ep_attr user_info)
       (fi_check_ep_attr (prov_ep_attr prov_info))
  ++ group_checks (info_rx_attr user_info)
       (fi_check_rx_attr (prov_rx_attr prov_info))
  ++ group_checks (info_tx_attr user_info)
       (fi_check_tx_attr (prov_tx_attr prov_info)).

(** Run the checks in order and return at the first that fails. *)
Fixpoint first_failure (checks : list (M Z)) : M Z :=
  match checks with
  | [] => ret 0%Z
  | c :: rest => r <- c ;; if nonzero r then ret r else first_failure rest
  end.

(** ** Sample records of the negotiation *)

Definition fab_none : fi_fabric_attr :=
  {| fab_name := None; fab_prov_name := None; fab_prov_version := 0 |}.

Definition ep_none : fi_ep_attr :=
  {| ep_type := 0; ep_protocol := 0; ep_protocol_version := 0;
     ep_max_msg_size := 0; ep_tx_ctx_cnt := 0; ep_rx_ctx_cnt := 0 |}.

Definition info_none : fi_info :=
  {| info_caps := 0; info_mode := 0; info_addr_format := 0;
     info_fabric_attr := None; info_domain_attr := None;
     info_ep_attr := None; info_rx_attr := None; info_tx_attr := None |}.


Definition prov_none : fi_info_prov :=
  {| prov_caps := 0; prov_mode := 0; prov_addr_format := 0;
     prov_fabric_attr := fab_none; prov_domain_attr := dom_none;
     prov_ep_attr := ep_none; prov_rx_attr := rx_none;
     prov_tx_attr := tx_none |}.

Definition set_fab_name (n : option (list ascii)) (a : fi_fabric_attr)
  : fi_fabric_attr :=
  {| fab_name := n; fab_prov_name := fab_prov_name a;
     fab_prov_version := fab_prov_version a |}.

(** A base provider whose [fi_getinfo] succeeds with the record [base]. *)
Definition base_getinfo (base : fi_info) (_ : Z) (_ _ : option (list ascii))
    (_ : Z) (_ : nat) : M (Z * nat) :=
  b <- new_info base ;; ret (0%Z, b).

(** ** Diagnostics *)

(** A computation that emits no diagnostic. *)
Definition keeps_log {A} (c : M A) : Prop :=
  forall m, log (snd (c m)) = log m.

(** ** The segments of a name *)

Definition nul_free (s : list ascii) : Prop := Forall (fun c => c <> NUL) s.
Definition delim_free (s : list ascii) : Prop := Forall (fun c => c <> delim) s.

(** The pieces of a string between its delimiters, empty pieces included. *)
Fixpoint split_delim (s : list ascii) : list (list ascii) :=
  match s with
  | [] => [[]]
  | c :: s' =>
      if Ascii.eqb c delim then [] :: split_delim s'
      else
        match split_delim s' with
        | seg :: segs => (c :: seg) :: segs
        | [] => [[c]]
        end
  end.

Definition nonempty (seg : list ascii) : bool :=
  match seg with [] => false | _ :: _ => true end.

(** The delimiter-separated segments of a string: its pieces that are not
    empty, in order. *)
Definition segments (s : list ascii) : list (list ascii) :=
  List.filter nonempty (split_delim s).

(** The bytes the segments take when one delimiter joins each to the next. *)
Definition joined_length (segs : list (list ascii)) : nat :=
  list_sum (map length segs) + (length segs - 1).

(** ** The tokenizer seen on the unread bytes *)

(** One call of [strtok_r] on the unread bytes [rest] of a buffer, the
    terminator left out: the number of delimiters skipped, the token, and
    what follows the delimiter that ends the token, [None] when the token
    runs to the terminator. *)
Definition next_token (rest : list ascii)
  : option (nat * list ascii * option (list ascii)) :=
  let skipped := strspn rest in
  let r1 := drop skipped rest in
  match take (strcspn r1) r1 with
  | [] => None
  | tk =>
      Some (skipped, tk,
            match drop (strcspn r1) r1 with
            | [] => None
            | _ :: r3 => Some r3
            end)
  end.

(** [n] calls on the unread bytes [rest] that start at offset [base]: the
    tokens with their offsets, and the bytes that [rest] and the terminator
    have become. *)
Fixpoint tokens_of (n : nat) (base : nat) (rest : list ascii)
  : list (nat * list ascii) * list ascii :=
  match n with
  | O => ([], rest ++ [NUL])
  | S n' =>
      match next_token rest with
      | None => ([], rest ++ [NUL])
      | Some (skipped, tk, None) => ([(base + skipped, tk)], rest ++ [NUL])
      | Some (skipped, tk, Some r3) =>
          let '(ts, region) :=
            tokens_of n' (base + skipped + length tk + 1) r3 in
          ((base + skipped, tk) :: ts,
           take (skipped + length tk) rest ++ [NUL] ++ region)
      end
  end.

(** The next allocation is granted. *)
Definition grants (m : mem) : Prop := head (oracle m) <> Some false.

(** The state once the allocation that was granted has been released. *)
Definition after_grant (m : mem) : mem :=
  Mem (heap m) (tail (oracle m)) (log m) (faults m).

(** The block that the copy of the name gets, and the state in which it
    holds the bytes [bs]. *)
Definition parse_block (m : mem) : nat := fresh (dom (heap m)).

Definition with_buffer (bs : list ascii) (m : mem) : mem :=
  Mem (<[parse_block m := Bytes bs]> (heap m)) (tail (oracle m)) (log m)
    (faults m).

(** The sum over the tokens of their length plus one. *)
Definition tok_sum (ts : list (nat * list ascii)) : nat :=
  list_sum (map (fun t => S (length (snd t))) ts).

(** ** Composing a layered domain name and parsing it back *)

(** [utilx_tr_base_domain_attr(base_attr, prefix, ...)] followed, when it
    succeeds, by [utilx_parse_name(layer_attr->name, 2, tok, 0)]: the two
    values returned and the string read at each entry of [tok], [None]
    where no terminator ends it inside its block. *)
Definition layered_round_trip (base_attr : fi_domain_attr)
    (prefix : list ascii) (m : mem) : Z * Z * list (option (list ascii)) :=
  let '((r1, name), m1) := run (utilx_tr_base_domain_attr base_attr prefix) m in
  match name with
  | None => (r1, 0%Z, [])
  | Some (_, name) =>
      let '((r2, tok), m2) := run (utilx_parse_name name 2 false) m1 in
      (r1, r2, map (fun t => c_string_at t m2) tok)
  end.

(** [utilx_tr_base_fabric_attr(base_attr, prefix, ...)] followed, when it
    succeeds, by [utilx_parse_name(layer_attr->name, 3, tok, 0)]. *)
Definition layered_fabric_round_trip (base_attr : fi_fabric_attr)
    (prefix : list ascii) (m : mem) : Z * Z * list (option (list ascii)) :=
  let '((r1, name), m1) := run (utilx_tr_base_fabric_attr base_attr prefix) m in
  match name with
  | None => (r1, 0%Z, [])
  | Some (_, name) =>
      let '((r2, tok), m2) := run (utilx_parse_name name 3 false) m1 in
      (r1, r2, map (fun t => c_string_at t m2) tok)
  end.

(** ** Further notions: records, states and collaborators *)

(** A provider's record handed back as a request: every group present. *)
Definition as_request (prov_info : fi_info_prov) : fi_info :=
  {| info_caps := prov_caps prov_info;
     info_mode := prov_mode prov_info;
     info_addr_format := prov_addr_format prov_info;
     info_fabric_attr := Some (prov_fabric_attr prov_info);
     info_domain_attr := Some (prov_domain_attr prov_info);
     info_ep_attr := Some (prov_ep_attr prov_info);
     info_rx_attr := Some (prov_rx_attr prov_info);
     info_tx_attr := Some (prov_tx_attr prov_info) |}.

(** A computation that neither allocates nor releases. *)
Definition keeps_heap {A} (c : M A) : Prop :=
  forall m, heap (snd (c m)) = heap m /\ oracle (snd (c m)) = oracle m.

(** A [uint64_t]. *)
Definition uint64 (z : Z) : Prop := (0 <= z < 2 ^ 64)%Z.


(** A check that either passes in silence or fails with the mismatch
    error and at least one diagnostic, what was logged before being kept. *)
Definition verdict (c : M Z) : Prop :=
  forall m, exists l,
    log (snd (c m)) = log m ++ l /\
    ((fst (c m) = 0%Z /\ l = []) \/
     (fst (c m) = (- FI_ENODATA)%Z /\ l <> [])).

(** A receive request that asks for no more than another: fewer or the
    same capabilities and orderings, at least its mode bits, and no larger
    sizes. *)
Definition rx_asks_less (less user : fi_rx_attr) : Prop :=
  flags_subset (rx_caps less) (rx_caps user) = true /\
  Z.land (rx_mode less) (rx_mode user) = rx_mode user /\
  flags_subset (rx_msg_order less) (rx_msg_order user) = true /\
  flags_subset (rx_comp_order less) (rx_comp_order user) = true /\
  (rx_total_buffered_recv less <= rx_total_buffered_recv user)%Z /\
  (rx_size less <= rx_size user)%Z /\
  (rx_iov_limit less <= rx_iov_limit user)%Z.

(** The same for a transmit request. *)
Definition tx_asks_less (less user : fi_tx_attr) : Prop :=
  flags_subset (tx_caps less) (tx_caps user) = true /\
  Z.land (tx_mode less) (tx_mode user) = tx_mode user /\
  flags_subset (tx_msg_order less) (tx_msg_order user) = true /\
  flags_subset (tx_comp_order less) (tx_comp_order user) = true /\
  (tx_inject_size less <= tx_inject_size user)%Z /\
  (tx_size less <= tx_size user)%Z /\
  (tx_iov_limit less <= tx_iov_limit user)%Z /\
  (tx_rma_iov_limit less <= tx_rma_iov_limit user)%Z.

(** ** Sample attributes of a provider and of a request within them *)

Definition rx_sample_prov : fi_rx_attr :=
  {| rx_caps := 15; rx_mode := 1; rx_op_flags := 0; rx_msg_order := 3;
     rx_comp_order := 1; rx_total_buffered_recv := 64; rx_size := 16;
     rx_iov_limit := 4 |}.

Definition rx_sample_user : fi_rx_attr :=
  {| rx_caps := 5; rx_mode := 1; rx_op_flags := 2; rx_msg_order := 1;
     rx_comp_order := 1; rx_total_buffered_recv := 32; rx_size := 0;
     rx_iov_limit := 2 |}.

Definition tx_sample_prov : fi_tx_attr :=
  {| tx_caps := 14; tx_mode := 1; tx_op_flags := 0; tx_msg_order := 3;
     tx_comp_order := 1; tx_inject_size := 64; tx_size := 16;
     tx_iov_limit := 4; tx_rma_iov_limit := 2 |}.

Definition tx_sample_user : fi_tx_attr :=
  {| tx_caps := 6; tx_mode := 3; tx_op_flags := 1; tx_msg_order := 2;
     tx_comp_order := 0; tx_inject_size := 48; tx_size := 16;
     tx_iov_limit := 0; tx_rma_iov_limit := 1 |}.

(** * Properties *)

(** ** Flag sets *)

Lemma land_not64_self (x : Z) : Z.land x (not64 x) = 0%Z.
Proof.
  unfold not64. apply Z.bits_inj'. intros n Hn.
  rewrite Z.land_spec, Z.ldiff_spec, Z.bits_0.
  destruct (Z.testbit x n); simpl; [apply andb_false_r | reflexivity].
Qed.

Lemma op_flags_test_never_fires (x : Z) : nonzero (Z.land x (not64 x)) = false.
Proof. now rewrite land_not64_self. Qed.

(** The requester's op-flags decide nothing in either checker: the test
    reads the provider's field on both sides. *)
Lemma fi_check_rx_attr_ignores_op_flags prov_attr user_attr f m :
  run (fi_check_rx_attr prov_attr (set_rx_op_flags f user_attr)) m =
  run (fi_check_rx_attr prov_attr user_attr) m.
Proof.
  unfold run, fi_check_rx_attr. rewrite op_flags_test_never_fires. reflexivity.
Qed.

Lemma fi_check_tx_attr_ignores_op_flags prov_attr user_attr f m :
  run (fi_check_tx_attr prov_attr (set_tx_op_flags f user_attr)) m =
  run (fi_check_tx_attr prov_attr user_attr) m.
Proof.
  unfold run, fi_check_tx_attr. rewrite op_flags_test_never_fires. reflexivity.
Qed.

(** C1: the op-flags check of [fi_check_rx_attr] and [fi_check_tx_attr]
    should fail when the requester's op_flags are not a subset of the
    provider's.  Here the provider declares no op-flag and the requester
    asks for bit 0, every other field being equal: the request is not a
    subset, and both checkers return 0 without a diagnostic. *)
Theorem C1_op_flags_not_compared :
  flags_subset (rx_op_flags (set_rx_op_flags 1 rx_none)) (rx_op_flags rx_none)
    = false /\
  run (fi_check_rx_attr rx_none (set_rx_op_flags 1 rx_none)) empty_mem
    = (0%Z, empty_mem) /\
  flags_subset (tx_op_flags (set_tx_op_flags 1 tx_none)) (tx_op_flags tx_none)
    = false /\
  run (fi_check_tx_attr tx_none (set_tx_op_flags 1 tx_none)) empty_mem
    = (0%Z, empty_mem).
Proof. repeat split; reflexivity. Qed.

(** ** The address-format check *)

Ltac fmt_cases :=
  repeat match goal with
    | |- context [Z.eqb ?a ?b] => destruct (Z.eqb_spec a b)
    | |- context [Z.leb ?a ?b] => destruct (Z.leb_spec a b)
    end.

(** No numbering of the enumerators makes the ordinal comparisons of
    [fi_valid_addr_format] agree with the family table: whichever of the
    IPv4 and IPv6 enumerators is the larger, its family accepts the other. *)
Lemma family_table_unrealisable (F : addr_formats) :
  NoDup enumerators ->
  exists prov_format user_format,
    user_format <> FI_FORMAT_UNSPEC /\
    fi_valid_addr_format prov_format user_format
      <> family_table prov_format user_format.
Proof.
  unfold enumerators. intros Hnd.
  rewrite !NoDup_cons, !not_elem_of_cons in Hnd.
  destruct (Z.le_gt_cases FI_SOCKADDR_IN FI_SOCKADDR_IN6).
  - exists FI_SOCKADDR_IN6, FI_SOCKADDR_IN. split; [intuition congruence |].
    unfold fi_valid_addr_format, family_table.
    fmt_cases; simpl; try discriminate; try lia; intuition congruence.
  - exists FI_SOCKADDR_IN, FI_SOCKADDR_IN6. split; [intuition congruence |].
    unfold fi_valid_addr_format, family_table.
    fmt_cases; simpl; try discriminate; try lia; intuition congruence.
Qed.

(** C3, as stated, fails: a provider that declares the InfiniBand
    socket-address family accepts a request for the IPv4 format, which the
    family table refuses. *)
Lemma C3_ib_family_accepts_ipv4 :
  FI_SOCKADDR_IN <> FI_FORMAT_UNSPEC /\
  fi_valid_addr_format FI_SOCKADDR_IB FI_SOCKADDR_IN = true /\
  family_table FI_SOCKADDR_IB FI_SOCKADDR_IN = false.
Proof. split; [discriminate | split; reflexivity]. Qed.

(** C3, amended: with the requested format specified, the check compares
    ordinals.  The generic socket-address family accepts the generic, IPv4
    and IPv6 formats, and no other; the IPv4 family the generic and IPv4
    formats, and no other; the IPv6 family accepts the generic format and
    its own and refuses every format above its own; the InfiniBand family
    accepts the generic, IPv4, IPv6 and its own format, and no other; any
    other family accepts an exact match only. *)
Theorem C3_addr_format_by_ordinal (prov_format user_format : Z) :
  user_format <> FI_FORMAT_UNSPEC ->
  (0 <= user_format)%Z ->
  (prov_format = FI_SOCKADDR ->
   (fi_valid_addr_format prov_format user_format = true <->
    user_format = FI_SOCKADDR \/ user_format = FI_SOCKADDR_IN \/
    user_format = FI_SOCKADDR_IN6)) /\
  (prov_format = FI_SOCKADDR_IN ->
   (fi_valid_addr_format prov_format user_format = true <->
    user_format = FI_SOCKADDR \/ user_format = FI_SOCKADDR_IN)) /\
  (prov_format = FI_SOCKADDR_IN6 ->
   (user_format = FI_SOCKADDR \/ user_format = FI_SOCKADDR_IN6 ->
    fi_valid_addr_format prov_format user_format = true) /\
   ((FI_SOCKADDR_IN6 < user_format)%Z ->
    fi_valid_addr_format prov_format user_format = false)) /\
  (prov_format = FI_SOCKADDR_IB ->
   (fi_valid_addr_format prov_format user_format = true <->
    user_format = FI_SOCKADDR \/ user_format = FI_SOCKADDR_IN \/
    user_format = FI_SOCKADDR_IN6 \/ user_format = FI_SOCKADDR_IB)) /\
  (prov_format <> FI_SOCKADDR -> prov_format <> FI_SOCKADDR_IN ->
   prov_format <> FI_SOCKADDR_IN6 -> prov_format <> FI_SOCKADDR_IB ->
   (fi_valid_addr_format prov_format user_format = true <->
    prov_format = user_format)).
Proof.
  unfold fi_valid_addr_format. intros Hu Hpos.
  pose proof Hu as Hu'. apply Z.eqb_neq in Hu'. rewrite Hu'. cbn.
  repeat split; intros; subst; cbn in *;
    repeat match goal with
      | H : context [Z.eqb ?a ?b] |- _ => destruct (Z.eqb_spec a b)
      | H : context [Z.leb ?a ?b] |- _ => destruct (Z.leb_spec a b)
      end;
    fmt_cases; try lia; try discriminate; try reflexivity;
    try (intuition lia).
Qed.

Lemma C3_addr_format_by_ordinal_witness :
  FI_SOCKADDR_IN <> FI_FORMAT_UNSPEC /\ (0 <= FI_SOCKADDR_IN)%Z /\
  (fi_valid_addr_format FI_SOCKADDR_IB FI_SOCKADDR_IN = true <->
   FI_SOCKADDR_IN = FI_SOCKADDR \/ FI_SOCKADDR_IN = FI_SOCKADDR_IN \/
   FI_SOCKADDR_IN = FI_SOCKADDR_IN6 \/ FI_SOCKADDR_IN = FI_SOCKADDR_IB).
Proof.
  assert (Hu : FI_SOCKADDR_IN <> FI_FORMAT_UNSPEC) by discriminate.
  assert (Hpos : (0 <= FI_SOCKADDR_IN)%Z) by (cbn; lia).
  split; [exact Hu | split; [exact Hpos |]].
  exact (proj1 (proj2 (proj2 (proj2
    (C3_addr_format_by_ordinal FI_SOCKADDR_IB FI_SOCKADDR_IN Hu Hpos))))
    eq_refl).
Defined.

(** ** Ranked enumerations *)

Lemma known_ranks_positive :
  (forall t, t <> FI_THREAD_invalid -> (1 <= fi_thread_level t)%Z) /\
  (forall p, p <> FI_PROGRESS_invalid -> (1 <= fi_progress_level p)%Z) /\
  (forall r, r <> FI_RM_invalid -> (1 <= fi_resource_mgmt_level r)%Z).
Proof.
  repeat split; intros [] H; simpl; try lia; now destruct H.
Qed.

(** C4, as stated, fails: when it is the provider that holds a threading
    value outside the enumeration, a requester with a known value passes
    the whole domain check. *)
Lemma C4_unknown_provider_value_passes :
  fi_thread_level (dom_threading (set_dom_threading FI_THREAD_invalid dom_none))
    = (-1)%Z /\
  run (fi_check_domain_attr (set_dom_threading FI_THREAD_invalid dom_none)
         (set_dom_threading FI_THREAD_SAFE dom_none) FI_CHECK_DEFAULT)
    empty_mem = (0%Z, empty_mem).
Proof. split; reflexivity. Qed.

(** C4, amended: a value outside the enumeration has rank -1, below the
    rank of every enumerator, in each of the three rank functions; and the
    domain check fails with the mismatch error whenever, in one of the four
    ranked fields, the requester holds such a value and the provider an
    enumerator. *)
Theorem C4_unknown_requester_value_fails
    (prov_attr user_attr : fi_domain_attr) (type : fi_check_type) (m : mem) :
  requester_unknown prov_attr user_attr ->
  (fi_thread_level FI_THREAD_invalid = (-1)%Z /\
   fi_progress_level FI_PROGRESS_invalid = (-1)%Z /\
   fi_resource_mgmt_level FI_RM_invalid = (-1)%Z) /\
  ((forall t, t <> FI_THREAD_invalid -> (-1 < fi_thread_level t)%Z) /\
   (forall p, p <> FI_PROGRESS_invalid -> (-1 < fi_progress_level p)%Z) /\
   (forall r, r <> FI_RM_invalid -> (-1 < fi_resource_mgmt_level r)%Z)) /\
  fst (run (fi_check_domain_attr prov_attr user_attr type) m)
    = (- FI_ENODATA)%Z.
Proof.
  intros Hreq. destruct known_ranks_positive as (Ht & Hp & Hr).
  split; [repeat split |].
  split.
  { repeat split; intros x Hx;
      [specialize (Ht x Hx) | specialize (Hp x Hx) | specialize (Hr x Hx)];
      lia. }
  unfold run, fi_check_domain_attr, bind.
  destruct (name_mismatch _ _ _ m) as [bad m']. destruct bad; [reflexivity |].
  pose proof (Ht (dom_threading prov_attr)) as Ht'.
  pose proof (Hp (dom_control_progress prov_attr)) as Hc'.
  pose proof (Hp (dom_data_progress prov_attr)) as Hd'.
  pose proof (Hr (dom_resource_mgmt prov_attr)) as Hr'.
  repeat match goal with
    | |- context [Z.ltb ?a ?b] =>
        destruct (Z.ltb_spec a b); [reflexivity |]
    end.
  exfalso.
  destruct Hreq as [[Hu Hk] | [[Hu Hk] | [[Hu Hk] | [Hu Hk]]]];
    rewrite Hu in *; simpl in *; intuition lia.
Qed.

Lemma C4_unknown_requester_value_fails_witness :
  requester_unknown dom_none (set_dom_threading FI_THREAD_invalid dom_none) /\
  fst (run (fi_check_domain_attr dom_none
              (set_dom_threading FI_THREAD_invalid dom_none)
              FI_CHECK_LAYERED) empty_mem) = (- FI_ENODATA)%Z.
Proof.
  assert (H : requester_unknown dom_none
                (set_dom_threading FI_THREAD_invalid dom_none)).
  { left. split; [reflexivity | discriminate]. }
  split; [exact H |].
  exact (proj2 (proj2
    (C4_unknown_requester_value_fails dom_none
       (set_dom_threading FI_THREAD_invalid dom_none)
       FI_CHECK_LAYERED empty_mem H))).
Defined.

(** ** The alteration of receive and transmit attributes *)

(** C6: with a hint record, [fi_alter_rx_attr] and [fi_alter_tx_attr] copy
    the hint's op_flags and make the capabilities (hinted AND primary) OR
    (existing AND secondary); without one, the capabilities become (accepted
    top-level AND existing AND primary) OR (existing AND secondary); the
    size, iov-limit, inject-size and RMA-iov-limit fields take the hint's
    value when it is not 0 and keep the provider's value otherwise. *)
Theorem C6_alter_rx_tx_attr (PRIMARY SECONDARY : Z)
    (rx rx_hints : fi_rx_attr) (tx tx_hints : fi_tx_attr) (info_caps : Z) :
  (rx_op_flags (fi_alter_rx_attr PRIMARY SECONDARY rx (Some rx_hints) info_caps)
     = rx_op_flags rx_hints /\
   rx_caps (fi_alter_rx_attr PRIMARY SECONDARY rx (Some rx_hints) info_caps)
     = Z.lor (Z.land (rx_caps rx_hints) PRIMARY)
         (Z.land (rx_caps rx) SECONDARY) /\
   rx_caps (fi_alter_rx_attr PRIMARY SECONDARY rx None info_caps)
     = Z.lor (Z.land (Z.land info_caps (rx_caps rx)) PRIMARY)
         (Z.land (rx_caps rx) SECONDARY) /\
   rx_size (fi_alter_rx_attr PRIMARY SECONDARY rx (Some rx_hints) info_caps)
     = (if (rx_size rx_hints =? 0)%Z then rx_size rx else rx_size rx_hints) /\
   rx_iov_limit (fi_alter_rx_attr PRIMARY SECONDARY rx (Some rx_hints) info_caps)
     = (if (rx_iov_limit rx_hints =? 0)%Z then rx_iov_limit rx
        else rx_iov_limit rx_hints)) /\
  (tx_op_flags (fi_alter_tx_attr PRIMARY SECONDARY tx (Some tx_hints) info_caps)
     = tx_op_flags tx_hints /\
   tx_caps (fi_alter_tx_attr PRIMARY SECONDARY tx (Some tx_hints) info_caps)
     = Z.lor (Z.land (tx_caps tx_hints) PRIMARY)
         (Z.land (tx_caps tx) SECONDARY) /\
   tx_caps (fi_alter_tx_attr PRIMARY SECONDARY tx None info_caps)
     = Z.lor (Z.land (Z.land info_caps (tx_caps tx)) PRIMARY)
         (Z.land (tx_caps tx) SECONDARY) /\
   tx_inject_size
     (fi_alter_tx_attr PRIMARY SECONDARY tx (Some tx_hints) info_caps)
     = (if (tx_inject_size tx_hints =? 0)%Z then tx_inject_size tx
        else tx_inject_size tx_hints) /\
   tx_size (fi_alter_tx_attr PRIMARY SECONDARY tx (Some tx_hints) info_caps)
     = (if (tx_size tx_hints =? 0)%Z then tx_size tx else tx_size tx_hints) /\
   tx_iov_limit (fi_alter_tx_attr PRIMARY SECONDARY tx (Some tx_hints) info_caps)
     = (if (tx_iov_limit tx_hints =? 0)%Z then tx_iov_limit tx
        else tx_iov_limit tx_hints) /\
   tx_rma_iov_limit
     (fi_alter_tx_attr PRIMARY SECONDARY tx (Some tx_hints) info_caps)
     = (if (tx_rma_iov_limit tx_hints =? 0)%Z then tx_rma_iov_limit tx
        else tx_rma_iov_limit tx_hints)) /\
  (rx_size (fi_alter_rx_attr PRIMARY SECONDARY rx None info_caps) = rx_size rx /\
   rx_iov_limit (fi_alter_rx_attr PRIMARY SECONDARY rx None info_caps)
     = rx_iov_limit rx /\
   tx_inject_size (fi_alter_tx_attr PRIMARY SECONDARY tx None info_caps)
     = tx_inject_size tx /\
   tx_size (fi_alter_tx_attr PRIMARY SECONDARY tx None info_caps) = tx_size tx /\
   tx_iov_limit (fi_alter_tx_attr PRIMARY SECONDARY tx None info_caps)
     = tx_iov_limit tx /\
   tx_rma_iov_limit (fi_alter_tx_attr PRIMARY SECONDARY tx None info_caps)
     = tx_rma_iov_limit tx).
Proof.
  unfold nonzero; simpl.
  repeat split; try reflexivity; unfold nonzero;
    match goal with |- context [Z.eqb ?a 0] => destruct (Z.eqb a 0) end;
    reflexivity.
Qed.

(** ** The order of the checks of [fi_check_info] *)

(** A run of checks that returns 0 ran them all, each returning 0. *)
Lemma first_failure_zero_app (passed later : list (M Z)) (m m1 : mem) :
  run (first_failure passed) m = (0%Z, m1) ->
  run (first_failure (passed ++ later)) m = run (first_failure later) m1.
Proof.
  revert m. induction passed as [| p passed IH]; intros m Hp.
  - cbn in Hp. inversion Hp; subst. reflexivity.
  - cbn in *. unfold run, bind in *. destruct (p m) as [r0 m0].
    unfold nonzero in *. destruct (Z.eqb_spec r0 0); cbn in *.
    + apply IH. assumption.
    + inversion Hp; subst. contradiction.
Qed.

(** Once a check of the list fails, the checks after it are not run: the
    value and the state are those the failing check leaves, whatever
    follows it. *)
Lemma first_failure_stops (passed : list (M Z)) (c : M Z) (later : list (M Z))
    (m m1 m2 : mem) (r : Z) :
  run (first_failure passed) m = (0%Z, m1) ->
  run c m1 = (r, m2) ->
  r <> 0%Z ->
  run (first_failure (passed ++ c :: later)) m = (r, m2).
Proof.
  intros Hp Hc Hr. rewrite (first_failure_zero_app _ _ _ _ Hp).
  cbn. unfold run, bind in *. rewrite Hc. unfold nonzero.
  destruct (Z.eqb_spec r 0); [contradiction | reflexivity].
Qed.

(** ** The name check and its diagnostics *)

Lemma keeps_log_ret {A} (a : A) : keeps_log (ret a).
Proof. intros m. reflexivity. Qed.

Lemma keeps_log_bind {A B} (c : M A) (k : A -> M B) :
  keeps_log c -> (forall a, keeps_log (k a)) -> keeps_log (bind c k).
Proof.
  intros Hc Hk m. unfold bind. specialize (Hc m).
  destruct (c m) as [a m']. cbn in *. rewrite Hk. assumption.
Qed.

Lemma keeps_log_alloc o : keeps_log (alloc o).
Proof. intros m. unfold alloc. destruct (oracle m) as [| [] ?]; reflexivity. Qed.

Lemma keeps_log_raise f : keeps_log (raise f).
Proof. intros m. reflexivity. Qed.

Lemma keeps_log_free p : keeps_log (free p).
Proof.
  intros m. unfold free. destruct (heap m !! blk p), (off p); reflexivity.
Qed.

Lemma keeps_log_store b bs : keeps_log (store_buffer b bs).
Proof. intros m. reflexivity. Qed.

Lemma keeps_log_load p : keeps_log (load_c_string p).
Proof. intros m. unfold load_c_string. destruct (c_string_at p m); reflexivity. Qed.

Lemma keeps_log_deref s : keeps_log (deref_string s).
Proof. destruct s; intros m; reflexivity. Qed.

Lemma keeps_log_strdup s : keeps_log (strdup s).
Proof.
  apply keeps_log_bind; [apply keeps_log_alloc | intros; apply keeps_log_ret].
Qed.

Create HintDb keeps.

#[local] Hint Resolve keeps_log_ret keeps_log_alloc keeps_log_raise
  keeps_log_free keeps_log_store keeps_log_load keeps_log_deref
  keeps_log_strdup : keeps.

Ltac keeps :=
  repeat first
    [ apply keeps_log_bind; [| intros ?]
    | solve [auto with keeps]
    | match goal with
      | |- keeps_log (match ?x with _ => _ end) => destruct x
      | |- keeps_log (if ?x then _ else _) => destruct x
      | |- keeps_log (let '(_, _) := ?x in _) => destruct x
      | |- keeps_log (fun m => (_, m)) => intros ?; reflexivity
      end ].

Lemma keeps_log_parse name max_tok get_prefix :
  keeps_log (utilx_parse_name name max_tok get_prefix).
Proof. unfold utilx_parse_name. keeps. Qed.

Lemma keeps_log_check_name user_name prov_name type :
  keeps_log (fi_check_name user_name prov_name type).
Proof.
  pose proof keeps_log_parse. unfold fi_check_name. destruct type; keeps.
Qed.

(** A check that passes emits no diagnostic. *)
Lemma keeps_log_name_mismatch user_name prov_name type :
  keeps_log (name_mismatch user_name prov_name type).
Proof.
  pose proof keeps_log_check_name. unfold name_mismatch. keeps.
Qed.

Ltac silent_pass :=
  repeat match goal with
    | |- context [if ?c then _ else _] => destruct c
    end;
  cbn; intros; first [discriminate | congruence | reflexivity].

Lemma fi_check_fabric_attr_silent prov_attr user_attr type m :
  fst (run (fi_check_fabric_attr prov_attr user_attr type) m) = 0%Z ->
  log (snd (run (fi_check_fabric_attr prov_attr user_attr type) m)) = log m.
Proof.
  pose proof (keeps_log_name_mismatch (fab_name user_attr)
                (fab_name prov_attr) type m) as Hk.
  unfold run, fi_check_fabric_attr, bind.
  destruct (name_mismatch _ _ _ m) as [bad m']. cbn in Hk. rewrite <- Hk.
  destruct bad; silent_pass.
Qed.

Lemma fi_check_domain_attr_silent prov_attr user_attr type m :
  fst (run (fi_check_domain_attr prov_attr user_attr type) m) = 0%Z ->
  log (snd (run (fi_check_domain_attr prov_attr user_attr type) m)) = log m.
Proof.
  pose proof (keeps_log_name_mismatch (dom_name user_attr)
                (dom_name prov_attr) type m) as Hk.
  unfold run, fi_check_domain_attr, bind.
  destruct (name_mismatch _ _ _ m) as [bad m']. cbn in Hk. rewrite <- Hk.
  destruct bad; silent_pass.
Qed.

Lemma fi_check_ep_attr_silent prov_attr user_attr m :
  fst (run (fi_check_ep_attr prov_attr user_attr) m) = 0%Z ->
  log (snd (run (fi_check_ep_attr prov_attr user_attr) m)) = log m.
Proof. unfold run, fi_check_ep_attr, bind. silent_pass. Qed.

Lemma fi_check_rx_attr_silent prov_attr user_attr m :
  fst (run (fi_check_rx_attr prov_attr user_attr) m) = 0%Z ->
  log (snd (run (fi_check_rx_attr prov_attr user_attr) m)) = log m.
Proof. unfold run, fi_check_rx_attr, bind. silent_pass. Qed.

Lemma fi_check_tx_attr_silent prov_attr user_attr m :
  fst (run (fi_check_tx_attr prov_attr user_attr) m) = 0%Z ->
  log (snd (run (fi_check_tx_attr prov_attr user_attr) m)) = log m.
Proof. unfold run, fi_check_tx_attr, bind. silent_pass. Qed.

Lemma group_checks_silent {A} (group : option A) (check : A -> M Z) :
  (forall a m, fst (run (check a) m) = 0%Z ->
               log (snd (run (check a) m)) = log m) ->
  Forall (fun c => forall m, fst (run c m) = 0%Z ->
                             log (snd (run c m)) = log m)
    (group_checks group check).
Proof.
  intros H. destruct group as [a |]; constructor; [apply H | constructor].
Qed.

Lemma check_order_silent prov_info user_info type :
  Forall (fun c => forall m, fst (run c m) = 0%Z ->
                             log (snd (run c m)) = log m)
    (check_order prov_info user_info type).
Proof.
  unfold check_order. repeat apply Forall_app_2.
  - repeat constructor; intros m.
    + unfold run, caps_stage, bind. silent_pass.
    + unfold run, mode_stage, bind. silent_pass.
    + unfold run, addr_format_stage, bind. silent_pass.
  - apply group_checks_silent. intros; now apply fi_check_fabric_attr_silent.
  - apply group_checks_silent. intros; now apply fi_check_domain_attr_silent.
  - apply group_checks_silent. intros; now apply fi_check_ep_attr_silent.
  - apply group_checks_silent. intros; now apply fi_check_rx_attr_silent.
  - apply group_checks_silent. intros; now apply fi_check_tx_attr_silent.
Qed.

(** A run of checks that fails splits at the check that failed: those
    before it returned 0, and it is run in the state they leave. *)
Lemma first_failure_split (checks : list (M Z)) (m m' : mem) (r : Z) :
  run (first_failure checks) m = (r, m') -> r <> 0%Z ->
  exists passed c later m1,
    checks = passed ++ c :: later /\
    run (first_failure passed) m = (0%Z, m1) /\
    run c m1 = (r, m').
Proof.
  revert m. induction checks as [| c checks IH]; intros m Hrun Hr.
  - cbn in Hrun. inversion Hrun. congruence.
  - cbn in Hrun. unfold run, bind in Hrun.
    destruct (c m) as [r0 m0] eqn:Hc. unfold nonzero in Hrun.
    destruct (Z.eqb_spec r0 0) as [-> | Hr0]; cbn in Hrun.
    + destruct (IH m0 Hrun Hr) as (passed & c' & later & m1 & -> & Hp & Hc').
      exists (c :: passed), c', later, m1. repeat split; [| assumption].
      cbn. unfold run, bind. rewrite Hc. exact Hp.
    + inversion Hrun; subst. exists [], c, checks, m.
      repeat split. exact Hc.
Qed.

Lemma first_failure_silent (passed : list (M Z)) (m m1 : mem) :
  Forall (fun c => forall m, fst (run c m) = 0%Z ->
                             log (snd (run c m)) = log m) passed ->
  run (first_failure passed) m = (0%Z, m1) -> log m1 = log m.
Proof.
  intros Hall. revert m. induction Hall as [| c passed Hc Hall IH];
    intros m Hrun.
  - cbn in Hrun. now inversion Hrun.
  - cbn in Hrun. unfold run, bind in Hrun. specialize (Hc m).
    unfold run in Hc. destruct (c m) as [r0 m0]. cbn in Hc.
    unfold nonzero in Hrun. destruct (Z.eqb_spec r0 0) as [-> | Hr0];
      cbn in Hrun.
    + rewrite (IH m0 Hrun). now apply Hc.
    + inversion Hrun; subst. contradiction.
Qed.

(** A run of checks that returns 0 has run every one of them, and each
    has returned 0 in the state it was run in. *)
Lemma first_failure_all_pass (checks : list (M Z)) (m : mem) :
  fst (run (first_failure checks) m) = 0%Z ->
  Forall (fun c => exists m1, fst (run c m1) = 0%Z) checks.
Proof.
  revert m. induction checks as [| c checks IH]; intros m Hrun;
    [constructor |].
  cbn in Hrun. unfold run, bind in Hrun.
  destruct (c m) as [r0 m0] eqn:Hc. unfold nonzero in Hrun.
  destruct (Z.eqb_spec r0 0) as [-> | Hr0]; cbn in Hrun.
  - constructor; [| now apply (IH m0)].
    exists m. unfold run. now rewrite Hc.
  - contradiction.
Qed.

(** The values of the endpoint, receive and transmit checks do not depend
    on the state they are run in. *)
Lemma fi_check_ep_attr_value prov_attr user_attr m m' :
  fst (run (fi_check_ep_attr prov_attr user_attr) m)
  = fst (run (fi_check_ep_attr prov_attr user_attr) m').
Proof.
  unfold run, fi_check_ep_attr, bind.
  repeat match goal with
    | |- context [if ?c then _ else _] => destruct c
    end; reflexivity.
Qed.

Lemma fi_check_rx_attr_value prov_attr user_attr m m' :
  fst (run (fi_check_rx_attr prov_attr user_attr) m)
  = fst (run (fi_check_rx_attr prov_attr user_attr) m').
Proof.
  unfold run, fi_check_rx_attr, bind.
  repeat match goal with
    | |- context [if ?c then _ else _] => destruct c
    end; reflexivity.
Qed.

Lemma fi_check_tx_attr_value prov_attr user_attr m m' :
  fst (run (fi_check_tx_attr prov_attr user_attr) m)
  = fst (run (fi_check_tx_attr prov_attr user_attr) m').
Proof.
  unfold run, fi_check_tx_attr, bind.
  repeat match goal with
    | |- context [if ?c then _ else _] => destruct c
    end; reflexivity.
Qed.

(** The code runs the checks of the specification's order. *)
Lemma fi_check_info_in_order prov_info user_info type m :
  run (fi_check_info prov_info (Some user_info) type) m =
  run (first_failure (check_order prov_info user_info type)) m.
Proof.
  unfold run, fi_check_info, check_order, caps_stage, mode_stage,
    addr_format_stage.
  destruct (info_fabric_attr user_info), (info_domain_attr user_info),
    (info_ep_attr user_info), (info_rx_attr user_info),
    (info_tx_attr user_info);
    cbn [group_checks app first_failure when_present]; unfold bind;
    repeat match goal with
      | |- context [if ?c then _ else _] =>
          lazymatch c with
          | nonzero (Z.land _ _) => destruct c
          | negb _ => destruct c
          end; cbn; try reflexivity
      end.
Qed.

(** C8: with no record from the requester [fi_check_info] returns 0 and
    touches nothing; with one, it is the run of the checks in the order
    capabilities, mode, address format and then fabric, domain, endpoint,
    receive, transmit attributes, the check of a group being in the list
    exactly when the request holds the group, that returns at the first
    check that fails; when it fails, the checks before the failing one
    have emitted nothing, the value and the state are those of the failing
    check, and the checks after it are not run; and when it returns 0,
    every check of the list has been run and has returned 0, so that the
    request holds no endpoint, receive or transmit group that its checker
    refuses. *)
Theorem C8_fi_check_info_first_failure (prov_info : fi_info_prov)
    (type : fi_check_type) (m : mem) :
  run (fi_check_info prov_info None type) m = (0%Z, m) /\
  (forall user_info : fi_info,
     run (fi_check_info prov_info (Some user_info) type) m =
     run (first_failure (check_order prov_info user_info type)) m) /\
  (forall (user_info : fi_info) (r : Z) (m' : mem),
     run (fi_check_info prov_info (Some user_info) type) m = (r, m') ->
     r <> 0%Z ->
     exists passed c later m1,
       check_order prov_info user_info type = passed ++ c :: later /\
       run (first_failure passed) m = (0%Z, m1) /\
       log m1 = log m /\
       run c m1 = (r, m')) /\
  (forall user_info : fi_info,
     fst (run (fi_check_info prov_info (Some user_info) type) m) = 0%Z ->
     Forall (fun c => exists m1, fst (run c m1) = 0%Z)
       (check_order prov_info user_info type) /\
     (forall a m1, info_ep_attr user_info = Some a ->
        fst (run (fi_check_ep_attr (prov_ep_attr prov_info) a) m1) = 0%Z) /\
     (forall a m1, info_rx_attr user_info = Some a ->
        fst (run (fi_check_rx_attr (prov_rx_attr prov_info) a) m1) = 0%Z) /\
     (forall a m1, info_tx_attr user_info = Some a ->
        fst (run (fi_check_tx_attr (prov_tx_attr prov_info) a) m1) = 0%Z)).
Proof.
  pose proof (fun user_info =>
                fi_check_info_in_order prov_info user_info type m) as Href.
  split; [reflexivity |]. split; [exact Href |]. split.
  - intros user_info r m' Hrun Hr. rewrite Href in Hrun.
    destruct (first_failure_split _ _ _ _ Hrun Hr)
      as (passed & c & later & m1 & Hsplit & Hp & Hc).
    exists passed, c, later, m1. repeat split; try assumption.
    apply (first_failure_silent passed m m1); [| assumption].
    pose proof (check_order_silent prov_info user_info type) as Hall.
    rewrite Hsplit in Hall. now apply Forall_app in Hall as [Hall _].
  - intros user_info Hpass. rewrite Href in Hpass.
    apply first_failure_all_pass in Hpass.
    split; [exact Hpass |].
    unfold check_order in Hpass.
    apply Forall_app in Hpass as [_ Hpass].
    apply Forall_app in Hpass as [_ Hpass].
    apply Forall_app in Hpass as [_ Hpass].
    apply Forall_app in Hpass as [Hep Hpass].
    apply Forall_app in Hpass as [Hrx Htx].
    split; [| split]; intros a m1 Ha.
    + rewrite Ha in Hep. apply Forall_inv in Hep. destruct Hep as [m0 Hep].
      now rewrite (fi_check_ep_attr_value _ _ m1 m0).
    + rewrite Ha in Hrx. apply Forall_inv in Hrx. destruct Hrx as [m0 Hrx].
      now rewrite (fi_check_rx_attr_value _ _ m1 m0).
    + rewrite Ha in Htx. apply Forall_inv in Htx. destruct Htx as [m0 Htx].
      now rewrite (fi_check_tx_attr_value _ _ m1 m0).
Qed.

(** The sample of the witness: the provider's record with no name and an
    endpoint of type 1, and a request that holds a fabric, a domain and an
    endpoint group, the endpoint of type 2. *)
Lemma C8_fi_check_info_first_failure_witness :
  exists passed c later m1,
    check_order
      {| prov_caps := 0; prov_mode := 0; prov_addr_format := 0;
         prov_fabric_attr := fab_none; prov_domain_attr := dom_none;
         prov_ep_attr :=
           {| ep_type := 1; ep_protocol := 0; ep_protocol_version := 0;
              ep_max_msg_size := 0; ep_tx_ctx_cnt := 0; ep_rx_ctx_cnt := 0 |};
         prov_rx_attr := rx_none; prov_tx_attr := tx_none |}
      {| info_caps := 0; info_mode := 0; info_addr_format := 0;
         info_fabric_attr := Some fab_none;
         info_domain_attr := Some dom_none;
         info_ep_attr :=
           Some {| ep_type := 2; ep_protocol := 0; ep_protocol_version := 0;
                   ep_max_msg_size := 0; ep_tx_ctx_cnt := 0;
                   ep_rx_ctx_cnt := 0 |};
         info_rx_attr := Some rx_none; info_tx_attr := None |}
      FI_CHECK_DEFAULT
      = passed ++ c :: later /\
    run (first_failure passed) empty_mem = (0%Z, m1) /\
    log m1 = log empty_mem /\
    run c m1
      = ((- FI_ENODATA)%Z,
         Mem ∅ [] [msg "Unsupported endpoint type"] []).
Proof.
  destruct (C8_fi_check_info_first_failure
              {| prov_caps := 0; prov_mode := 0; prov_addr_format := 0;
                 prov_fabric_attr := fab_none; prov_domain_attr := dom_none;
                 prov_ep_attr :=
                   {| ep_type := 1; ep_protocol := 0;
                      ep_protocol_version := 0; ep_max_msg_size := 0;
                      ep_tx_ctx_cnt := 0; ep_rx_ctx_cnt := 0 |};
                 prov_rx_attr := rx_none; prov_tx_attr := tx_none |}
              FI_CHECK_DEFAULT empty_mem) as (_ & _ & H & _).
  apply (H {| info_caps := 0; info_mode := 0; info_addr_format := 0;
              info_fabric_attr := Some fab_none;
              info_domain_attr := Some dom_none;
              info_ep_attr :=
                Some {| ep_type := 2; ep_protocol := 0;
                        ep_protocol_version := 0; ep_max_msg_size := 0;
                        ep_tx_ctx_cnt := 0; ep_rx_ctx_cnt := 0 |};
              info_rx_attr := Some rx_none; info_tx_attr := None |}
           (- FI_ENODATA)%Z (Mem ∅ [] [msg "Unsupported endpoint type"] [])).
  - reflexivity.
  - discriminate.
Defined.

Lemma nonzero_true (r : Z) : r <> 0%Z -> nonzero r = true.
Proof. unfold nonzero. now destruct (Z.eqb_spec r 0). Qed.

(** A failure of the prefix parse is the value of [fi_check_name]. *)
Lemma fi_check_name_parse_failure user_name prov_name m :
  fst (fst (run (utilx_parse_name user_name 1 true) m)) <> 0%Z ->
  fst (run (fi_check_name user_name prov_name FI_CHECK_LAYERED) m)
    = fst (fst (run (utilx_parse_name user_name 1 true) m)).
Proof.
  unfold run, fi_check_name, bind.
  destruct (utilx_parse_name user_name 1 true m) as [[r tok] m']. cbn.
  intros Hr. destruct (Z.eqb_spec r 0); [contradiction | reflexivity].
Qed.

(** When the allocation of the copy is refused the parse reports
    [-FI_ENOMEM]. *)
Lemma utilx_parse_name_enomem name max_tok get_prefix m o :
  oracle m = false :: o ->
  run (utilx_parse_name name max_tok get_prefix) m
    = (((- FI_ENOMEM)%Z, []), Mem (heap m) o (log m) (faults m)).
Proof.
  intros Ho. unfold run, utilx_parse_name, strdup, bind, alloc.
  rewrite Ho. reflexivity.
Qed.

(** C10: in layered mode a failure of the prefix parse, the refused
    allocation that the codec reports as [-FI_ENOMEM] included, reaches the
    caller of [fi_check_fabric_attr] and [fi_check_domain_attr] as
    [-FI_ENODATA] with the one line [Unknown fabric name] or [Unknown
    domain name]: the value and the line of any other failure of the name
    check, a name that does not match among them. *)
Theorem C10_name_check_failures_alike
    (prov_fab user_fab : fi_fabric_attr) (prov_dom user_dom : fi_domain_attr)
    (n : list ascii) (m : mem) :
  fab_name user_fab = Some n ->
  dom_name user_dom = Some n ->
  (fst (run (fi_check_name n (fab_name prov_fab) FI_CHECK_LAYERED) m) <> 0%Z ->
   fst (run (fi_check_fabric_attr prov_fab user_fab FI_CHECK_LAYERED) m)
     = (- FI_ENODATA)%Z /\
   log (snd (run (fi_check_fabric_attr prov_fab user_fab FI_CHECK_LAYERED) m))
     = log m ++ [msg "Unknown fabric name"]) /\
  (fst (run (fi_check_name n (dom_name prov_dom) FI_CHECK_LAYERED) m) <> 0%Z ->
   fst (run (fi_check_domain_attr prov_dom user_dom FI_CHECK_LAYERED) m)
     = (- FI_ENODATA)%Z /\
   log (snd (run (fi_check_domain_attr prov_dom user_dom FI_CHECK_LAYERED) m))
     = log m ++ [msg "Unknown domain name"]) /\
  (forall prov_name,
     fst (fst (run (utilx_parse_name n 1 true) m)) <> 0%Z ->
     fst (run (fi_check_name n prov_name FI_CHECK_LAYERED) m) <> 0%Z) /\
  (forall o, oracle m = false :: o ->
     fst (fst (run (utilx_parse_name n 1 true) m)) = (- FI_ENOMEM)%Z /\
     (- FI_ENOMEM)%Z <> 0%Z).
Proof.
  intros Hfab Hdom. repeat apply conj.
  - intros Hr. pose proof (keeps_log_check_name n (fab_name prov_fab)
                             FI_CHECK_LAYERED m) as Hlog.
    unfold run, fi_check_fabric_attr, name_mismatch, bind in *.
    rewrite Hfab.
    destruct (fi_check_name n (fab_name prov_fab) FI_CHECK_LAYERED m)
      as [r m']. cbn in *. rewrite (nonzero_true r Hr). cbn.
    rewrite Hlog. split; reflexivity.
  - intros Hr. pose proof (keeps_log_check_name n (dom_name prov_dom)
                             FI_CHECK_LAYERED m) as Hlog.
    unfold run, fi_check_domain_attr, name_mismatch, bind in *.
    rewrite Hdom.
    destruct (fi_check_name n (dom_name prov_dom) FI_CHECK_LAYERED m)
      as [r m']. cbn in *. rewrite (nonzero_true r Hr). cbn.
    rewrite Hlog. split; reflexivity.
  - intros prov_name Hr. rewrite fi_check_name_parse_failure; assumption.
  - intros o Ho. rewrite (utilx_parse_name_enomem _ _ _ _ _ Ho).
    split; [reflexivity | discriminate].
Qed.

Lemma C10_name_check_failures_alike_witness :
  fst (run (fi_check_fabric_attr fab_none
              (set_fab_name (Some (bytes "rxm_verbs_IB-1234")) fab_none)
              FI_CHECK_LAYERED) (Mem ∅ [false] [] []))
    = (- FI_ENODATA)%Z /\
  log (snd (run (fi_check_fabric_attr fab_none
                   (set_fab_name (Some (bytes "rxm_verbs_IB-1234")) fab_none)
                   FI_CHECK_LAYERED) (Mem ∅ [false] [] [])))
    = [msg "Unknown fabric name"].
Proof.
  refine (proj1 (C10_name_check_failures_alike fab_none
    (set_fab_name (Some (bytes "rxm_verbs_IB-1234")) fab_none)
    dom_none (set_dom_name (Some (bytes "rxm_verbs_IB-1234")) dom_none)
    (bytes "rxm_verbs_IB-1234") (Mem ∅ [false] [] []) eq_refl eq_refl) _).
  vm_compute. discriminate.
Defined.

(** A refused allocation and a name that does not match, seen from the
    caller: the same value and the same line. *)
Example enomem_and_mismatch_alike :
  fst (run (fi_check_name (bytes "rxm_verbs_IB-1234") (Some (bytes "rxm"))
              FI_CHECK_LAYERED) (Mem ∅ [false] [] []))
    = (- FI_ENOMEM)%Z /\
  nonzero (fst (run (fi_check_name (bytes "sockets_IB-1234")
                       (Some (bytes "rxm")) FI_CHECK_LAYERED) empty_mem))
    = true /\
  (let refused :=
     run (fi_check_fabric_attr (set_fab_name (Some (bytes "rxm")) fab_none)
            (set_fab_name (Some (bytes "rxm_verbs_IB-1234")) fab_none)
            FI_CHECK_LAYERED) (Mem ∅ [false] [] []) in
   let mismatch :=
     run (fi_check_fabric_attr (set_fab_name (Some (bytes "rxm")) fab_none)
            (set_fab_name (Some (bytes "sockets_IB-1234")) fab_none)
            FI_CHECK_LAYERED) empty_mem in
   fst refused = fst mismatch /\ log (snd refused) = log (snd mismatch) /\
   fst refused = (- FI_ENODATA)%Z).
Proof. repeat split; reflexivity. Qed.

(** ** The layered negotiation *)

Lemma fresh_not_live (h : gmap nat obj) : h !! fresh (dom h) = None.
Proof. apply not_elem_of_dom. apply is_fresh. Qed.

(** When the layer's check accepts the hints, the hints are translated, the
    base provider answers and the translation back fails, [utilx_getinfo]
    returns [-FI_ENOMEM] having released the translated hints and not the
    base provider's record. *)
Lemma utilx_getinfo_tr_base_info_fails
    (version : Z) (node service : option (list ascii)) (flags : Z)
    (prov_info : fi_info_prov) (hints : option fi_info)
    (base_hints base : fi_info) (m : mem) :
  fst (run (fi_check_info prov_info hints FI_CHECK_LAYERED) m) = 0%Z ->
  exists (hints_blk info_blk : nat) (m' : mem),
    run (utilx_getinfo (base_getinfo base) version node service flags
           prov_info hints (fun _ => produces (Some base_hints))
           (fun _ => produces None) false) m
      = (((- FI_ENOMEM)%Z, None), m') /\
    heap m' !! hints_blk = None /\
    heap m' !! info_blk = Some (Info base) /\
    heap m' =
      <[info_blk := Info base]>
        (heap (snd (run (fi_check_info prov_info hints FI_CHECK_LAYERED) m))).
Proof.
  unfold run, utilx_getinfo, bind. intros Hcheck.
  destruct (fi_check_info prov_info hints FI_CHECK_LAYERED m) as [r m0].
  cbn in Hcheck. subst r. cbn.
  set (bh := fresh (dom (heap m0))).
  set (bi := fresh (dom (<[bh := Info base_hints]> (heap m0)))).
  assert (Hbh : heap m0 !! bh = None) by apply fresh_not_live.
  assert (Hbi : <[bh := Info base_hints]> (heap m0) !! bi = None)
    by apply fresh_not_live.
  assert (Hne : bh <> bi).
  { intros Heq. rewrite <- Heq in Hbi. rewrite lookup_insert_eq in Hbi.
    discriminate. }
  exists bh, bi.
  unfold fi_freeinfo, free. cbn.
  rewrite lookup_insert_ne by congruence. rewrite lookup_insert_eq.
  eexists. split; [reflexivity |]. cbn.
  rewrite lookup_delete_eq. rewrite lookup_delete_ne by congruence.
  rewrite lookup_insert_eq. repeat split.
  rewrite delete_insert_ne by congruence.
  rewrite delete_insert_eq. f_equal. apply delete_id. assumption.
Qed.

(** C2: [utilx_getinfo] should release the base provider's record on every
    exit but the one that hands it to the caller.  Here the hints pass the
    check, their translation is block 0, the base provider's record is
    block 1, the caller did not ask for the base record and the translation
    back fails: the call returns [-FI_ENOMEM] with block 0 released and
    block 1 still live. *)
Theorem C2_base_info_not_released :
  fst (run (produces (Some info_none)) empty_mem) = Some 0%nat /\
  fst (run (base_getinfo info_none 0 None None 0 0%nat)
         (snd (run (produces (Some info_none)) empty_mem))) = (0%Z, 1%nat) /\
  fst (run (utilx_getinfo (base_getinfo info_none) 0 None None 0 prov_none
              (Some info_none) (fun _ => produces (Some info_none))
              (fun _ => produces None) false) empty_mem)
    = ((- FI_ENOMEM)%Z, None) /\
  heap (snd (run (utilx_getinfo (base_getinfo info_none) 0 None None 0
                    prov_none (Some info_none)
                    (fun _ => produces (Some info_none))
                    (fun _ => produces None) false) empty_mem)) !! 0%nat
    = None /\
  heap (snd (run (utilx_getinfo (base_getinfo info_none) 0 None None 0
                    prov_none (Some info_none)
                    (fun _ => produces (Some info_none))
                    (fun _ => produces None) false) empty_mem)) !! 1%nat
    = Some (Info info_none).
Proof. repeat apply conj; vm_compute; reflexivity. Qed.

(** On the exit that succeeds without handing over the base record, both
    the translated hints and the base record are released. *)
Lemma utilx_getinfo_success_releases_both :
  fst (run (utilx_getinfo (base_getinfo info_none) 0 None None 0 prov_none
              (Some info_none) (fun _ => produces (Some info_none))
              (fun _ => produces (Some info_none)) false) empty_mem)
    = (0%Z, Some 2%nat) /\
  live (snd (run (utilx_getinfo (base_getinfo info_none) 0 None None 0
                    prov_none (Some info_none)
                    (fun _ => produces (Some info_none))
                    (fun _ => produces (Some info_none)) false) empty_mem))
    = {[ 2%nat ]}.
Proof. split; vm_compute; reflexivity. Qed.

(** ** C strings *)

#[local] Arguments Ascii.eqb : simpl never.

Lemma NUL_not_delim : NUL <> delim.
Proof. discriminate. Qed.

Lemma eqb_NUL_false c : c <> NUL -> Ascii.eqb c NUL = false.
Proof. intros H. now destruct (Ascii.eqb_spec c NUL). Qed.

Lemma eqb_delim_false c : c <> delim -> Ascii.eqb c delim = false.
Proof. intros H. now destruct (Ascii.eqb_spec c delim). Qed.

Lemma c_str_nul_free (p : list ascii) : nul_free (c_str p).
Proof.
  induction p as [| c p IH]; simpl; [constructor |].
  destruct (Ascii.eqb_spec c NUL); constructor; assumption.
Qed.

Lemma c_str_app_nul (s t : list ascii) :
  nul_free s -> c_str (s ++ NUL :: t) = s.
Proof.
  induction 1 as [| c s Hc Hs IH]; simpl; [reflexivity |].
  rewrite (eqb_NUL_false c Hc). now rewrite IH.
Qed.

Lemma c_str_id (s : list ascii) : nul_free s -> c_str s = s.
Proof.
  induction 1 as [| c s Hc Hs IH]; simpl; [reflexivity |].
  rewrite (eqb_NUL_false c Hc). now rewrite IH.
Qed.

Lemma terminated_app_nul (s t : list ascii) : terminated (s ++ NUL :: t) = true.
Proof. unfold terminated. rewrite existsb_app. simpl. apply orb_true_r. Qed.

Lemma not_terminated (s : list ascii) : nul_free s -> terminated s = false.
Proof.
  unfold terminated. induction 1 as [| c s Hc Hs IH]; simpl; [reflexivity |].
  rewrite IH, orb_false_r.
  destruct (Ascii.eqb_spec NUL c) as [E | E]; [now destruct Hc | reflexivity].
Qed.

Lemma strspn_replicate (k : nat) (s : list ascii) :
  head s <> Some delim -> strspn (replicate k delim ++ s) = k.
Proof.
  intros Hs. induction k as [| k IH]; simpl.
  - destruct s as [| c s]; [reflexivity |]. simpl.
    destruct (Ascii.eqb_spec c delim); [| reflexivity].
    subst. now destruct Hs.
  - now rewrite IH.
Qed.

Lemma strcspn_token (tk : list ascii) (c : ascii) (t : list ascii) :
  delim_free tk -> nul_free tk -> c = NUL \/ c = delim ->
  strcspn (tk ++ c :: t) = length tk.
Proof.
  intros Hd Hn Hc. induction tk as [| a tk IH]; simpl.
  - destruct Hc as [-> | ->]; reflexivity.
  - inversion Hd; inversion Hn; subst.
    rewrite eqb_NUL_false, eqb_delim_false by assumption.
    now rewrite IH.
Qed.

(** What [strspn] and [strcspn] cut off a string. *)
Lemma strspn_split (s : list ascii) :
  s = replicate (strspn s) delim ++ drop (strspn s) s /\
  head (drop (strspn s) s) <> Some delim.
Proof.
  induction s as [| c s [IH1 IH2]]; simpl; [split; [reflexivity | discriminate] |].
  destruct (Ascii.eqb_spec c delim) as [-> | Hc]; simpl.
  - split; [now rewrite <- IH1 | assumption].
  - split; [reflexivity | intros [= ?]; contradiction].
Qed.

Lemma strcspn_split (s : list ascii) :
  nul_free s ->
  s = take (strcspn s) s ++ drop (strcspn s) s /\
  delim_free (take (strcspn s) s) /\
  (drop (strcspn s) s = [] \/ head (drop (strcspn s) s) = Some delim).
Proof.
  induction 1 as [| c s Hc Hs (IH1 & IH2 & IH3)]; simpl.
  - repeat split; [constructor | now left].
  - rewrite (eqb_NUL_false c Hc).
    destruct (Ascii.eqb_spec c delim) as [-> | Hd]; simpl.
    + repeat split; [constructor | now right].
    + repeat split; [now rewrite <- IH1 | now constructor | assumption].
Qed.

Lemma nul_free_app (s t : list ascii) :
  nul_free (s ++ t) <-> nul_free s /\ nul_free t.
Proof. apply Forall_app. Qed.

(** ** One call of [strtok_r] *)

Lemma peek_app_r (front l : list ascii) (i : nat) :
  peek (front ++ l) (length front + i) = peek l i.
Proof. unfold peek. apply app_nth2_plus. Qed.

Lemma peek_app_r0 (front l : list ascii) :
  peek (front ++ l) (length front) = peek l 0.
Proof. rewrite <- (Nat.add_0_r (length front)) at 1. apply peek_app_r. Qed.

Lemma drop_app_r0 (front l : list ascii) :
  drop (length front) (front ++ l) = l.
Proof. apply drop_app_length. Qed.

(** Only delimiters are left: no token. *)
Lemma strtok_r_none (pre : list ascii) (sk : nat) :
  strtok_r (pre ++ replicate sk delim ++ [NUL]) (length pre)
    = (None, (pre ++ replicate sk delim ++ [NUL], length pre + sk)).
Proof.
  unfold strtok_r. rewrite peek_app_r0, drop_app_r0.
  destruct sk as [| sk].
  - simpl. now rewrite Nat.add_0_r.
  - replace (peek (replicate (S sk) delim ++ [NUL]) 0) with delim
      by reflexivity.
    rewrite (eqb_NUL_false delim) by (apply not_eq_sym, NUL_not_delim).
    rewrite strspn_replicate by discriminate.
    rewrite peek_app_r.
    rewrite <- (length_replicate (S sk) delim) at 2.
    rewrite peek_app_r0. reflexivity.
Qed.

(** A token is left, [tk], after [sk] delimiters; [c] is the byte after
    it. *)
Lemma strtok_r_token (pre : list ascii) (sk : nat) (tk : list ascii)
    (c : ascii) (t : list ascii) :
  tk <> [] -> delim_free tk -> nul_free tk -> c = NUL \/ c = delim ->
  strtok_r (pre ++ replicate sk delim ++ tk ++ c :: t) (length pre)
    = (Some (length pre + sk),
       if Ascii.eqb c NUL
       then (pre ++ replicate sk delim ++ tk ++ c :: t,
             length pre + sk + length tk)
       else (pre ++ replicate sk delim ++ tk ++ NUL :: t,
             S (length pre + sk + length tk))).
Proof.
  intros Hne Hd Hn Hc. unfold strtok_r.
  destruct tk as [| a tk]; [contradiction |].
  inversion Hd as [| ? ? Had Hd']; inversion Hn as [| ? ? Han Hn']; subst.
  assert (Hfirst : peek (replicate sk delim ++ (a :: tk) ++ c :: t) 0 <> NUL).
  { destruct sk; simpl; [assumption | apply not_eq_sym, NUL_not_delim]. }
  rewrite peek_app_r0, drop_app_r0.
  rewrite (eqb_NUL_false _ Hfirst).
  rewrite strspn_replicate by (simpl; congruence).
  assert (E : length pre + sk = length (pre ++ replicate sk delim))
    by (now rewrite length_app, length_replicate).
  rewrite !(app_assoc pre (replicate sk delim)), !E.
  generalize (pre ++ replicate sk delim). intros front.
  rewrite peek_app_r0, drop_app_r0.
  replace (peek ((a :: tk) ++ c :: t) 0) with a by reflexivity.
  rewrite (eqb_NUL_false a Han).
  rewrite strcspn_token by assumption.
  rewrite !(app_assoc front (a :: tk)), <- length_app, peek_app_r0.
  replace (peek (c :: t) 0) with c by reflexivity.
  destruct (Ascii.eqb_spec c NUL) as [-> | Hc']; [reflexivity |].
  rewrite insert_app_r_alt by reflexivity.
  rewrite Nat.sub_diag. reflexivity.
Qed.

(** ** Segments *)

Lemma split_delim_token (tk s : list ascii) :
  delim_free tk -> split_delim (tk ++ delim :: s) = tk :: split_delim s.
Proof.
  induction 1 as [| c tk Hc Htk IH]; simpl; [reflexivity |].
  rewrite (eqb_delim_false c Hc), IH. reflexivity.
Qed.

Lemma split_delim_whole (tk : list ascii) :
  delim_free tk -> split_delim tk = [tk].
Proof.
  induction 1 as [| c tk Hc Htk IH]; simpl; [reflexivity |].
  rewrite (eqb_delim_false c Hc), IH. reflexivity.
Qed.

Lemma segments_delims (k : nat) (s : list ascii) :
  segments (replicate k delim ++ s) = segments s.
Proof. induction k as [| k IH]; simpl; [reflexivity | exact IH]. Qed.

Lemma segments_token (tk s : list ascii) :
  delim_free tk -> tk <> [] -> segments (tk ++ delim :: s) = tk :: segments s.
Proof.
  intros Hd Hne. unfold segments. rewrite split_delim_token by assumption.
  simpl. destruct tk; [contradiction | reflexivity].
Qed.

Lemma segments_whole (tk : list ascii) :
  delim_free tk -> tk <> [] -> segments tk = [tk].
Proof.
  intros Hd Hne. unfold segments. rewrite split_delim_whole by assumption.
  simpl. destruct tk; [contradiction | reflexivity].
Qed.

Lemma segments_only_delims (k : nat) : segments (replicate k delim) = [].
Proof.
  rewrite <- (app_nil_r (replicate k delim)), segments_delims. reflexivity.
Qed.

(** The segments are among the pieces: a name with fewer than [k] pieces
    has fewer than [k] segments. *)
Lemma segments_le_pieces (s : list ascii) :
  length (segments s) <= length (split_delim s).
Proof. unfold segments. apply List.filter_length_le. Qed.

(** ** The tokenizer on the unread bytes *)

(** What [next_token] finds is how the unread bytes are made up. *)
Lemma next_token_spec (rest : list ascii) :
  nul_free rest ->
  match next_token rest with
  | None => rest = replicate (length rest) delim
  | Some (sk, tk, rem) =>
      tk <> [] /\ delim_free tk /\ nul_free tk /\
      rest = replicate sk delim ++ tk ++
               match rem with None => [] | Some r3 => delim :: r3 end /\
      match rem with None => True | Some r3 => nul_free r3 end
  end.
Proof.
  intros Hn. unfold next_token.
  destruct (strspn_split rest) as [Hrest Hhead].
  set (sk := strspn rest) in *. set (r1 := drop sk rest) in *.
  assert (Hn1 : nul_free r1).
  { rewrite Hrest in Hn. apply nul_free_app in Hn. apply Hn. }
  destruct (strcspn_split r1 Hn1) as (Hr1 & Hd & Hend).
  set (n := strcspn r1) in *.
  assert (Hnt : nul_free (take n r1)).
  { rewrite Hr1 in Hn1. apply nul_free_app in Hn1. apply Hn1. }
  assert (Hnd : nul_free (drop n r1)).
  { rewrite Hr1 in Hn1. apply nul_free_app in Hn1. apply Hn1. }
  destruct (take n r1) as [| a tk] eqn:Htake.
  - assert (Hr1nil : r1 = []).
    { simpl in Hr1. destruct Hend as [Hend | Hend].
      - now rewrite Hend in Hr1.
      - rewrite <- Hr1 in Hend. contradiction. }
    rewrite Hr1nil, app_nil_r in Hrest.
    rewrite Hrest at 2. rewrite length_replicate. exact Hrest.
  - repeat split; try assumption; [discriminate | |].
    + rewrite Hrest at 1. f_equal. rewrite Hr1 at 1. f_equal.
      destruct Hend as [-> | Hend]; [reflexivity |].
      destruct (drop n r1) as [| c r3]; [discriminate |].
      simpl in Hend. now inversion Hend.
    + destruct (drop n r1) as [| c r3]; [exact I |].
      now inversion Hnd.
Qed.

Lemma tokens_of_segments (n base : nat) (rest : list ascii) :
  nul_free rest ->
  map snd (fst (tokens_of n base rest)) = take n (segments rest).
Proof.
  revert base rest. induction n as [| n IH]; intros base rest Hn;
    [reflexivity |].
  simpl. pose proof (next_token_spec rest Hn) as Hspec.
  destruct (next_token rest) as [[[sk tk] rem] |].
  - destruct Hspec as (Hne & Hd & Hnt & Hrest & Hrem).
    destruct rem as [r3 |].
    + specialize (IH (base + sk + length tk + 1) r3 Hrem).
      destruct (tokens_of n _ r3) as [ts region]. simpl in *.
      rewrite Hrest, segments_delims, segments_token by assumption.
      simpl. now rewrite IH.
    + rewrite Hrest, app_nil_r, segments_delims, segments_whole by assumption.
      simpl. rewrite ?take_nil. reflexivity.
  - rewrite Hspec, segments_only_delims. simpl. rewrite ?take_nil. reflexivity.
Qed.

Lemma tokenize_at_terminator (n : nat) (buf : list ascii) (s : nat) :
  peek buf s = NUL -> tokenize n buf s = ([], buf).
Proof.
  intros Hp. destruct n; [reflexivity |]. simpl. unfold strtok_r.
  rewrite Hp. reflexivity.
Qed.

(** The loop of [utilx_parse_name] on a buffer that holds [pre], the unread
    bytes [rest] and the terminator does what [tokens_of] says. *)
Lemma tokenize_tokens_of (n : nat) (pre rest : list ascii) :
  nul_free rest ->
  tokenize n (pre ++ rest ++ [NUL]) (length pre)
    = (map fst (fst (tokens_of n (length pre) rest)),
       pre ++ snd (tokens_of n (length pre) rest)).
Proof.
  revert pre rest. induction n as [| n IH]; intros pre rest Hn;
    [reflexivity |].
  simpl. pose proof (next_token_spec rest Hn) as Hspec.
  destruct (next_token rest) as [[[sk tk] rem] |].
  - destruct Hspec as (Hne & Hd & Hnt & Hrest & Hrem).
    destruct rem as [r3 |].
    + rewrite Hrest at 1. rewrite <- !app_assoc. simpl.
      rewrite (strtok_r_token pre sk tk delim (r3 ++ [NUL]))
        by (try assumption; now right).
      rewrite (eqb_NUL_false delim) by (apply not_eq_sym, NUL_not_delim).
      specialize (IH (pre ++ replicate sk delim ++ tk ++ [NUL]) r3 Hrem).
      replace (length (pre ++ replicate sk delim ++ tk ++ [NUL]))
        with (length pre + sk + length tk + 1) in IH
        by (rewrite !length_app, length_replicate; simpl; lia).
      replace (S (length pre + sk + length tk))
        with (length pre + sk + length tk + 1) by lia.
      replace (pre ++ replicate sk delim ++ tk ++ NUL :: r3 ++ [NUL])
        with ((pre ++ replicate sk delim ++ tk ++ [NUL]) ++ r3 ++ [NUL])
        by (rewrite <- !app_assoc; reflexivity).
      rewrite IH.
      destruct (tokens_of n _ r3) as [ts region]. simpl.
      f_equal. rewrite <- !app_assoc. f_equal.
      rewrite Hrest at 1.
      rewrite (app_assoc (replicate sk delim) tk (delim :: r3)).
      rewrite take_app_length'
        by (rewrite length_app, length_replicate; reflexivity).
      rewrite <- !app_assoc. reflexivity.
    + rewrite Hrest at 1. rewrite app_nil_r, <- !app_assoc. simpl.
      rewrite (strtok_r_token pre sk tk NUL []) by (try assumption; now left).
      simpl. rewrite tokenize_at_terminator.
      * simpl. rewrite Hrest at 1. rewrite app_nil_r, <- !app_assoc.
        reflexivity.
      * rewrite !(app_assoc pre), !(app_assoc (pre ++ _)).
        replace (length pre + sk + length tk)
          with (length ((pre ++ replicate sk delim) ++ tk))
          by (rewrite !length_app, length_replicate; reflexivity).
        apply peek_app_r0.
  - rewrite Hspec at 1. rewrite strtok_r_none. simpl.
    rewrite <- Hspec. reflexivity.
Qed.

(** ** [utilx_parse_name] on a granted allocation *)

Lemma grants_alloc (o : obj) (m : mem) :
  grants m ->
  alloc o m = (Some (parse_block m),
               Mem (<[parse_block m := o]> (heap m)) (tail (oracle m))
                 (log m) (faults m)).
Proof.
  unfold grants, alloc. destruct (oracle m) as [| [] rest]; simpl; intros H;
    try reflexivity. now destruct H.
Qed.

(** The run of [utilx_parse_name] in terms of the tokens of the name. *)
Lemma utilx_parse_name_run (name : list ascii) (max_tok : nat)
    (get_prefix : bool) (m : mem) :
  grants m ->
  run (utilx_parse_name name max_tok get_prefix) m =
    let ts := fst (tokens_of max_tok 0 (c_str name)) in
    let region := snd (tokens_of max_tok 0 (c_str name)) in
    let tok := map (Ptr (parse_block m)) (map fst ts) in
    let last := nth (max_tok - 1) (map fst ts) 0 in
    if (length ts <? max_tok)%nat then
      (((- FI_EOTHER)%Z, tok), after_grant m)
    else if get_prefix then ((0%Z, tok), with_buffer region m)
    else if (Z.of_nat (strlen name) >?
             to_size_t (parsed_len region (map fst ts)))%Z then
      ((0%Z, tok),
       with_buffer (<[last + strlen_at region last := delim]> region) m)
    else ((0%Z, tok), with_buffer region m).
Proof.
  intros Hg. unfold run, utilx_parse_name, strdup, bind.
  rewrite (grants_alloc _ _ Hg). cbn [option_map ret blk].
  unfold buffer at 1. cbn [heap]. rewrite lookup_insert_eq.
  pose proof (tokenize_tokens_of max_tok [] (c_str name)
                (c_str_nul_free name)) as Htok.
  cbn [app length] in Htok. rewrite Htok.
  destruct (tokens_of max_tok 0 (c_str name)) as [ts region].
  cbn [fst snd]. rewrite length_map.
  unfold store_buffer, set_heap. cbn [heap oracle log faults].
  rewrite insert_insert_eq.
  destruct (length ts <? max_tok)%nat.
  - unfold free. cbn [heap blk off]. rewrite lookup_insert_eq.
    unfold set_heap, ret. cbn [heap oracle log faults].
    rewrite delete_insert_eq, delete_id by apply fresh_not_live.
    reflexivity.
  - destruct get_prefix; [reflexivity |].
    destruct (_ >? _)%Z; [| reflexivity].
    cbn [heap oracle log faults]. rewrite insert_insert_eq. reflexivity.
Qed.

Lemma tokens_of_count (n base : nat) (rest : list ascii) :
  nul_free rest ->
  length (fst (tokens_of n base rest)) = min n (length (segments rest)).
Proof.
  intros Hn. rewrite <- (length_map snd), tokens_of_segments by assumption.
  apply length_take.
Qed.

(** C7: asked for [max_tok] tokens of a name that has fewer segments,
    [utilx_parse_name] returns [-FI_EOTHER], which is not [-FI_ENOMEM], and
    the block that held the copy of the name is released: the heap is the
    one the call started with. *)
Theorem C7_too_few_segments (name : list ascii) (max_tok : nat)
    (get_prefix : bool) (m : mem) :
  grants m ->
  length (segments (c_str name)) < max_tok ->
  fst (fst (run (utilx_parse_name name max_tok get_prefix) m))
    = (- FI_EOTHER)%Z /\
  (- FI_EOTHER)%Z <> (- FI_ENOMEM)%Z /\
  heap (snd (run (utilx_parse_name name max_tok get_prefix) m)) = heap m /\
  snd (run (utilx_parse_name name max_tok get_prefix) m) = after_grant m.
Proof.
  intros Hg Hlt. rewrite (utilx_parse_name_run _ _ _ _ Hg). cbn zeta.
  rewrite tokens_of_count by apply c_str_nul_free.
  replace (min max_tok (length (segments (c_str name))) <? max_tok)%nat
    with true by (symmetry; apply Nat.ltb_lt; lia).
  repeat split. discriminate.
Qed.

Lemma C7_too_few_segments_witness :
  grants empty_mem /\
  length (segments (c_str (bytes "rxm"))) < 2 /\
  fst (fst (run (utilx_parse_name (bytes "rxm") 2 false) empty_mem))
    = (- FI_EOTHER)%Z /\
  heap (snd (run (utilx_parse_name (bytes "rxm") 2 false) empty_mem)) = ∅.
Proof.
  assert (Hg : grants empty_mem) by discriminate.
  assert (Hlt : length (segments (c_str (bytes "rxm"))) < 2)
    by (vm_compute; lia).
  pose proof (C7_too_few_segments (bytes "rxm") 2 false empty_mem Hg Hlt)
    as (H1 & _ & H2 & _).
  exact (conj Hg (conj Hlt (conj H1 H2))).
Defined.

(** ** The length that [utilx_parse_name] compares with the name's *)

Lemma to_int_id (z : Z) : (- 2 ^ 31 <= z < 2 ^ 31)%Z -> to_int z = z.
Proof. intros H. unfold to_int. rewrite Z.mod_small; lia. Qed.

Lemma to_size_t_id (z : Z) : (0 <= z < 2 ^ 64)%Z -> to_size_t z = z.
Proof. intros H. unfold to_size_t. apply Z.mod_small. lia. Qed.

(** In the buffer the loop leaves, each token is followed by a
    terminator. *)
Lemma tokens_of_strlen (n base : nat) (pre rest : list ascii) :
  nul_free rest -> length pre = base ->
  Forall (fun t =>
            strlen_at (pre ++ snd (tokens_of n base rest)) (fst t)
              = length (snd t))
    (fst (tokens_of n base rest)).
Proof.
  revert base pre rest. induction n as [| n IH]; intros base pre rest Hn Hb;
    [constructor |].
  simpl. pose proof (next_token_spec rest Hn) as Hspec.
  destruct (next_token rest) as [[[sk tk] rem] |]; [| constructor].
  destruct Hspec as (Hne & Hd & Hnt & Hrest & Hrem).
  assert (Hfront : length (pre ++ replicate sk delim) = base + sk)
    by (rewrite length_app, length_replicate; lia).
  destruct rem as [r3 |].
  - specialize (IH (base + sk + length tk + 1)
                  (pre ++ replicate sk delim ++ tk ++ [NUL]) r3 Hrem).
    destruct (tokens_of n _ r3) as [ts region]. cbn [fst snd] in *.
    assert (Hbuf : pre ++ take (sk + length tk) rest ++ NUL :: region
                   = (pre ++ replicate sk delim) ++ tk ++ NUL :: region).
    { rewrite Hrest at 1.
      rewrite (app_assoc (replicate sk delim) tk (delim :: r3)).
      rewrite take_app_length'
        by (rewrite length_app, length_replicate; reflexivity).
      rewrite <- !app_assoc. reflexivity. }
    rewrite Hbuf. constructor.
    + cbn [fst snd]. unfold strlen_at, strlen.
      rewrite <- Hfront, drop_app_length, c_str_app_nul by assumption.
      reflexivity.
    + replace ((pre ++ replicate sk delim) ++ tk ++ NUL :: region)
        with ((pre ++ replicate sk delim ++ tk ++ [NUL]) ++ region)
        by (rewrite <- !app_assoc; reflexivity).
      apply IH. rewrite !length_app, length_replicate. simpl. lia.
  - constructor; [| constructor]. cbn [fst snd].
    rewrite Hrest at 1. rewrite app_nil_r.
    replace (pre ++ (replicate sk delim ++ tk) ++ [NUL])
      with ((pre ++ replicate sk delim) ++ tk ++ [NUL])
      by (rewrite <- !app_assoc; reflexivity).
    unfold strlen_at, strlen.
    rewrite <- Hfront, drop_app_length, c_str_app_nul by assumption.
    reflexivity.
Qed.

Lemma fold_parsed_len (buf : list ascii) (ts : list (nat * list ascii))
    (acc : Z) :
  Forall (fun t => strlen_at buf (fst t) = length (snd t)) ts ->
  (0 <= acc)%Z -> (acc + Z.of_nat (tok_sum ts) < 2 ^ 31)%Z ->
  fold_left (fun acc t => to_int (acc + Z.of_nat (strlen_at buf t) + 1)%Z)
    (map fst ts) acc
  = (acc + Z.of_nat (tok_sum ts))%Z.
Proof.
  intros Hall. revert acc.
  induction Hall as [| t ts Ht Hts IH]; intros acc Hacc Hlt.
  - unfold tok_sum. simpl. lia.
  - unfold tok_sum in *. cbn [map fold_left] in *.
    assert (E : forall x l, list_sum (x :: l) = x + list_sum l)
      by reflexivity.
    rewrite E in *.
    rewrite Ht, to_int_id by lia.
    rewrite IH by lia. lia.
Qed.

Lemma parsed_len_tokens (buf : list ascii) (ts : list (nat * list ascii)) :
  Forall (fun t => strlen_at buf (fst t) = length (snd t)) ts ->
  (Z.of_nat (tok_sum ts) < 2 ^ 31)%Z ->
  parsed_len buf (map fst ts) = (Z.of_nat (tok_sum ts) - 1)%Z.
Proof.
  intros Hall Hlt. unfold parsed_len.
  rewrite (fold_parsed_len buf ts 0 Hall) by lia.
  rewrite to_int_id; lia.
Qed.

Lemma tok_sum_joined (ts : list (nat * list ascii)) :
  ts <> [] -> tok_sum ts = S (joined_length (map snd ts)).
Proof.
  intros Hne. unfold tok_sum, joined_length. rewrite length_map.
  assert (H : forall l : list (nat * list ascii),
             list_sum (map (fun t => S (length (snd t))) l)
             = list_sum (map length (map snd l)) + length l).
  { induction l as [| t l IH]; simpl; [reflexivity | rewrite IH; lia]. }
  rewrite H. destruct ts; [contradiction | simpl; lia].
Qed.

(** ** The last token when nothing follows it *)

Lemma segments_nil (s : list ascii) :
  nul_free s -> segments s = [] -> s = replicate (length s) delim.
Proof.
  intros Hn Hs. pose proof (next_token_spec s Hn) as Hspec.
  destruct (next_token s) as [[[sk tk] rem] |]; [| assumption].
  destruct Hspec as (Hne & Hd & Hnt & Hrest & Hrem). exfalso.
  rewrite Hrest, segments_delims in Hs. destruct rem.
  - rewrite segments_token in Hs by assumption. discriminate.
  - rewrite app_nil_r, segments_whole in Hs by assumption. discriminate.
Qed.

Lemma last_replicate_delim (l : list ascii) (k : nat) :
  last (l ++ delim :: replicate k delim) = Some delim.
Proof.
  rewrite last_app_cons. induction k as [| k IH]; [reflexivity |].
  simpl replicate. rewrite last_cons_cons. exact IH.
Qed.

(** When the name has exactly the segments asked for and does not end in a
    delimiter, the last token runs up to the terminator of the buffer. *)
Lemma tokens_of_last_at_end (n base : nat) (rest : list ascii) :
  nul_free rest ->
  length (segments rest) = S n ->
  last rest <> Some delim ->
  exists ts o tk front,
    tokens_of (S n) base rest = (ts ++ [(o, tk)], front ++ tk ++ [NUL]) /\
    length ts = n /\
    base + length front = o /\
    o + length tk = base + length rest /\
    nul_free tk.
Proof.
  revert base rest. induction n as [| n IH]; intros base rest Hn Hlen Hlast.
  - cbn [tokens_of]. pose proof (next_token_spec rest Hn) as Hspec.
    destruct (next_token rest) as [[[sk tk] rem] |].
    + destruct Hspec as (Hne & Hd & Hnt & Hrest & Hrem).
      destruct rem as [r3 |].
      * exfalso. rewrite Hrest, segments_delims, segments_token in Hlen
          by assumption.
        simpl in Hlen. injection Hlen as Hlen.
        apply length_zero_iff_nil in Hlen.
        apply segments_nil in Hlen; [| assumption].
        apply Hlast. rewrite Hrest, Hlen.
        rewrite !app_assoc. apply last_replicate_delim.
      * exists [], (base + sk), tk, (replicate sk delim).
        rewrite Hrest at 1. rewrite app_nil_r, <- app_assoc.
        repeat split; try assumption.
        -- now rewrite length_replicate.
        -- rewrite Hrest, app_nil_r, length_app, length_replicate. lia.
    + exfalso. rewrite Hspec, segments_only_delims in Hlen. discriminate.
  - remember (S n) as k eqn:Hk. cbn [tokens_of].
    pose proof (next_token_spec rest Hn) as Hspec.
    destruct (next_token rest) as [[[sk tk] rem] |].
    + destruct Hspec as (Hne & Hd & Hnt & Hrest & Hrem).
      destruct rem as [r3 |].
      * assert (Hseg : length (segments r3) = k).
        { rewrite Hrest, segments_delims, segments_token in Hlen
            by assumption. simpl in Hlen. lia. }
        assert (Hr3 : r3 <> []).
        { intros ->. subst k. discriminate. }
        assert (Hlast3 : last r3 <> Some delim).
        { intros Hl. apply Hlast. rewrite Hrest.
          replace (replicate sk delim ++ tk ++ delim :: r3)
            with ((replicate sk delim ++ tk ++ [delim]) ++ r3)
            by (rewrite <- !app_assoc; reflexivity).
          rewrite last_app, Hl. reflexivity. }
        subst k.
        destruct (IH (base + sk + length tk + 1) r3 Hrem Hseg Hlast3)
          as (ts & o & tk' & front & Htok & Hts & Ho & Hend & Hnt').
        rewrite Htok.
        exists ((base + sk, tk) :: ts), o, tk',
          (take (sk + length tk) rest ++ [NUL] ++ front).
        repeat split; try assumption.
        -- rewrite <- !app_assoc. reflexivity.
        -- simpl. now rewrite Hts.
        -- rewrite !length_app, length_take. simpl.
           rewrite Hrest at 1. rewrite !length_app, length_replicate.
           simpl. lia.
        -- rewrite Hend, Hrest.
           rewrite !length_app, length_replicate. simpl. lia.
      * exfalso. rewrite Hrest, app_nil_r, segments_delims, segments_whole
          in Hlen by assumption. subst k. discriminate.
    + exfalso. rewrite Hspec, segments_only_delims in Hlen. discriminate.
Qed.

Lemma buffer_with_buffer (bs : list ascii) (m : mem) :
  buffer (parse_block m) (with_buffer bs m) = bs.
Proof. unfold buffer, with_buffer. cbn [heap]. now rewrite lookup_insert_eq. Qed.

Lemma nth_map_fst_last (ts : list (nat * list ascii)) (o : nat)
    (tk : list ascii) :
  nth (length ts) (map fst (ts ++ [(o, tk)])) 0 = o.
Proof.
  rewrite map_app, app_nth2 by (rewrite length_map; lia).
  rewrite length_map, Nat.sub_diag. reflexivity.
Qed.

(** C9: when the name has exactly the segments asked for, the last of them
    running to the end of the name, and is longer than these segments
    joined by single delimiters because empty segments were skipped,
    [utilx_parse_name] in non-prefix-only mode returns 0 having written the
    delimiter over the byte after the last token, which is the last byte of
    the block, where the terminator was: no terminator ends the last token
    inside its block. *)
Theorem C9_delimiter_over_terminator (name : list ascii) (max_tok : nat)
    (m : mem) :
  grants m ->
  0 < max_tok ->
  length (segments (c_str name)) = max_tok ->
  last (c_str name) <> Some delim ->
  joined_length (segments (c_str name)) < strlen name ->
  (Z.of_nat (strlen name) < 2 ^ 31)%Z ->
  exists tok last_tok last_seg,
    fst (run (utilx_parse_name name max_tok false) m) = (0%Z, tok) /\
    length tok = max_tok /\
    last tok = Some last_tok /\
    last (segments (c_str name)) = Some last_seg /\
    blk last_tok = parse_block m /\
    off last_tok + length last_seg = strlen name /\
    length (buffer (parse_block m)
              (snd (run (utilx_parse_name name max_tok false) m)))
      = S (strlen name) /\
    buffer (parse_block m)
      (snd (run (utilx_parse_name name max_tok false) m)) !! strlen name
      = Some delim /\
    c_string_at last_tok
      (snd (run (utilx_parse_name name max_tok false) m)) = None.
Proof.
  intros Hg Hpos Hlen Hlast Hextra Hint.
  destruct max_tok as [| n]; [lia |].
  pose proof (c_str_nul_free name) as Hn.
  destruct (tokens_of_last_at_end n 0 (c_str name) Hn Hlen Hlast)
    as (ts & o & tk & front & Htok & Hts & Ho & Hend & Hnt).
  pose proof (tokens_of_segments (S n) 0 (c_str name) Hn) as Hsegs.
  pose proof (tokens_of_strlen (S n) 0 [] (c_str name) Hn eq_refl) as Hstr.
  rewrite Htok in Hsegs, Hstr. cbn [fst snd app] in Hsegs, Hstr.
  rewrite take_ge in Hsegs by lia.
  assert (Hsum : tok_sum (ts ++ [(o, tk)])
                 = S (joined_length (segments (c_str name)))).
  { rewrite tok_sum_joined by (now destruct ts). now rewrite Hsegs. }
  assert (Hpl : parsed_len (front ++ tk ++ [NUL]) (map fst (ts ++ [(o, tk)]))
                = Z.of_nat (joined_length (segments (c_str name)))).
  { rewrite parsed_len_tokens by (try assumption; rewrite Hsum; lia).
    rewrite Hsum. lia. }
  assert (Hstr_last : strlen_at (front ++ tk ++ [NUL]) o = length tk).
  { apply Forall_app in Hstr as [_ Hstr]. now inversion Hstr. }
  simpl in Ho, Hend. fold (strlen name) in Hend.
  rewrite (utilx_parse_name_run _ _ _ _ Hg). cbn zeta.
  rewrite Htok. cbn [fst snd].
  replace (length (ts ++ [(o, tk)]) <? S n)%nat with false
    by (symmetry; apply Nat.ltb_ge; rewrite length_app; simpl; lia).
  rewrite Hpl, to_size_t_id by lia.
  replace (Z.of_nat (strlen name) >?
           Z.of_nat (joined_length (segments (c_str name))))%Z with true
    by (symmetry; apply Z.gtb_lt; lia).
  replace (S n - 1) with (length ts) by lia.
  rewrite nth_map_fst_last, Hstr_last. cbn [fst snd].
  rewrite buffer_with_buffer.
  assert (Hwrite : <[o + length tk := delim]> (front ++ tk ++ [NUL])
                   = front ++ tk ++ [delim]).
  { rewrite app_assoc.
    rewrite (insert_app_r_alt (front ++ tk))
      by (rewrite length_app; lia).
    rewrite length_app.
    replace (o + length tk - (length front + length tk)) with 0 by lia.
    simpl. now rewrite <- app_assoc. }
  rewrite Hwrite.
  exists (map (Ptr (parse_block m)) (map fst (ts ++ [(o, tk)]))),
    (Ptr (parse_block m) o), tk.
  repeat split.
  - rewrite !length_map, length_app. simpl. lia.
  - rewrite !map_app. simpl. apply last_snoc.
  - rewrite <- Hsegs, map_app. simpl. apply last_snoc.
  - simpl. exact Hend.
  - rewrite !length_app. simpl. lia.
  - rewrite app_assoc, lookup_app_r by (rewrite length_app; lia).
    rewrite length_app.
    replace (strlen name - (length front + length tk)) with 0 by lia.
    reflexivity.
  - unfold c_string_at. cbn [blk off]. rewrite buffer_with_buffer.
    rewrite <- Ho, drop_app_length.
    rewrite not_terminated; [reflexivity |].
    apply nul_free_app. split; [assumption |].
    constructor; [apply not_eq_sym, NUL_not_delim | constructor].
Qed.

Lemma C9_delimiter_over_terminator_witness :
  grants empty_mem /\
  length (segments (c_str (bytes "rxm__0"))) = 2 /\
  last (c_str (bytes "rxm__0")) <> Some delim /\
  joined_length (segments (c_str (bytes "rxm__0"))) < strlen (bytes "rxm__0") /\
  exists tok last_tok last_seg,
    fst (run (utilx_parse_name (bytes "rxm__0") 2 false) empty_mem)
      = (0%Z, tok) /\
    length tok = 2 /\
    last tok = Some last_tok /\
    last (segments (c_str (bytes "rxm__0"))) = Some last_seg /\
    blk last_tok = parse_block empty_mem /\
    off last_tok + length last_seg = strlen (bytes "rxm__0") /\
    length (buffer (parse_block empty_mem)
              (snd (run (utilx_parse_name (bytes "rxm__0") 2 false)
                      empty_mem)))
      = S (strlen (bytes "rxm__0")) /\
    buffer (parse_block empty_mem)
      (snd (run (utilx_parse_name (bytes "rxm__0") 2 false) empty_mem))
      !! strlen (bytes "rxm__0") = Some delim /\
    c_string_at last_tok
      (snd (run (utilx_parse_name (bytes "rxm__0") 2 false) empty_mem))
      = None.
Proof.
  assert (Hg : grants empty_mem) by discriminate.
  assert (Hpos : 0 < 2) by lia.
  assert (Hlen : length (segments (c_str (bytes "rxm__0"))) = 2)
    by reflexivity.
  assert (Hlast : last (c_str (bytes "rxm__0")) <> Some delim)
    by discriminate.
  assert (Hextra : joined_length (segments (c_str (bytes "rxm__0")))
                   < strlen (bytes "rxm__0")) by (vm_compute; lia).
  assert (Hint : (Z.of_nat (strlen (bytes "rxm__0")) < 2 ^ 31)%Z)
    by reflexivity.
  exact (conj Hg (conj Hlen (conj Hlast (conj Hextra
    (C9_delimiter_over_terminator (bytes "rxm__0") 2 empty_mem
       Hg Hpos Hlen Hlast Hextra Hint))))).
Defined.

(** ** Composing a layered domain name and parsing it back *)

Lemma next_token_token (tk r : list ascii) :
  tk <> [] -> delim_free tk -> nul_free tk ->
  next_token (tk ++ delim :: r) = Some (0, tk, Some r).
Proof.
  intros Hne Hd Hn. unfold next_token.
  assert (Hsp : strspn (tk ++ delim :: r) = 0).
  { apply (strspn_replicate 0). destruct tk as [| a tk]; [contradiction |].
    inversion Hd; subst. simpl. congruence. }
  rewrite Hsp, drop_0, strcspn_token by (try assumption; now right).
  rewrite take_app_length, drop_app_length.
  destruct tk; [contradiction | reflexivity].
Qed.

(** A name that holds a delimiter and does not begin with one: its first
    segment, a delimiter, the rest. *)
Lemma first_segment (b : list ascii) :
  nul_free b -> In delim b -> head b <> Some delim ->
  exists b1 r3,
    b = b1 ++ delim :: r3 /\ b1 <> [] /\ delim_free b1 /\ nul_free b1 /\
    nul_free r3.
Proof.
  intros Hn Hin Hhead.
  destruct (strcspn_split b Hn) as (Hb & Hd & Hend).
  exists (take (strcspn b) b), (tail (drop (strcspn b) b)).
  assert (Hnb : nul_free (take (strcspn b) b) /\ nul_free (drop (strcspn b) b)).
  { apply nul_free_app. now rewrite <- Hb. }
  destruct Hend as [Hend | Hend].
  - exfalso. rewrite Hend, app_nil_r in Hb. rewrite Hb in Hin.
    apply list_elem_of_In in Hin.
    unfold delim_free in Hd. rewrite Forall_forall in Hd.
    now apply (Hd delim).
  - destruct (drop (strcspn b) b) as [| c r3] eqn:Hdrop; [discriminate |].
    simpl in Hend. injection Hend as ->. simpl.
    repeat split; try tauto.
    + intros Hnil. rewrite Hnil in Hb. simpl in Hb. rewrite Hb in Hhead.
      now apply Hhead.
    + destruct Hnb as [_ Hnb]. now inversion Hnb.
Qed.

(** A formatted string that is one byte shorter than the block fills the
    block: nothing is cut and no byte is left unwritten. *)
Lemma snprintf_at_fits (s : list ascii) (len : nat) :
  len = S (length s) ->
  snprintf_at (replicate len uninit) len s = s ++ [NUL].
Proof.
  intros ->. cbn [snprintf_at]. unfold snprintf.
  replace (S (length s) - 1) with (length s) by lia.
  rewrite take_ge by lia.
  rewrite drop_ge by (rewrite length_replicate, length_app; simpl; lia).
  apply app_nil_r.
Qed.

Lemma utilx_tr_base_domain_attr_run (base_attr : fi_domain_attr)
    (prefix base : list ascii) (m : mem) :
  dom_name base_attr = Some base -> grants m ->
  run (utilx_tr_base_domain_attr base_attr prefix) m
    = ((0%Z, Some (Ptr (parse_block m) 0,
                   c_str prefix ++ delim :: c_str base)),
       with_buffer (c_str prefix ++ delim :: c_str base ++ [NUL]) m).
Proof.
  intros Hname Hg. unfold run, utilx_tr_base_domain_attr, bind, malloc.
  rewrite Hname. cbn [deref_string ret].
  rewrite (grants_alloc _ _ Hg). unfold buffer. cbn [heap].
  rewrite lookup_insert_eq.
  rewrite snprintf_at_fits
    by (unfold strlen; rewrite !length_app; simpl; lia).
  unfold store_buffer, set_heap. cbn [heap oracle log faults].
  rewrite insert_insert_eq.
  rewrite <- (app_nil_l [NUL]) at 2.
  rewrite c_str_app_nul.
  - unfold with_buffer. rewrite <- !app_assoc. reflexivity.
  - apply nul_free_app. split; [apply c_str_nul_free |].
    constructor; [apply not_eq_sym, NUL_not_delim | apply c_str_nul_free].
Qed.

(** Two tokens of a name made of a prefix, a delimiter and a base name that
    holds a delimiter after its first segment. *)
Lemma utilx_parse_name_two (p b1 r3 : list ascii) (m : mem) :
  grants m ->
  p <> [] -> delim_free p -> nul_free p ->
  b1 <> [] -> delim_free b1 -> nul_free b1 -> nul_free r3 ->
  (Z.of_nat (length p + length b1 + 2) < 2 ^ 31)%Z ->
  run (utilx_parse_name (p ++ delim :: b1 ++ delim :: r3) 2 false) m
    = ((0%Z, [Ptr (parse_block m) 0; Ptr (parse_block m) (length p + 1)]),
       with_buffer (p ++ NUL :: b1 ++ delim :: r3 ++ [NUL]) m).
Proof.
  intros Hg Hp Hpd Hpn Hb Hbd Hbn Hrn Hint.
  assert (Hname : nul_free (p ++ delim :: b1 ++ delim :: r3)).
  { apply nul_free_app. split; [assumption |].
    constructor; [apply not_eq_sym, NUL_not_delim |].
    apply nul_free_app. split; [assumption |].
    constructor; [apply not_eq_sym, NUL_not_delim | assumption]. }
  pose proof (tokens_of_strlen 2 0 [] _ Hname eq_refl) as Hstr.
  rewrite (utilx_parse_name_run _ _ _ _ Hg). cbn zeta.
  unfold strlen. rewrite (c_str_id _ Hname).
  revert Hstr. cbn [tokens_of].
  rewrite (next_token_token p (b1 ++ delim :: r3)) by assumption.
  rewrite (next_token_token b1 r3) by assumption.
  cbn [fst snd app Nat.add]. rewrite take_app_length.
  rewrite !Nat.add_0_r, take_app_length. intros Hstr.
  rewrite (parsed_len_tokens _ [(0, p); (length p + 1, b1)] Hstr)
    by (unfold tok_sum; simpl; lia).
  cbn [length map fst Nat.ltb Nat.leb Nat.sub nth].
  unfold tok_sum. cbn [map list_sum fold_right snd].
  rewrite to_size_t_id by lia.
  replace (Z.of_nat (length (p ++ delim :: b1 ++ delim :: r3)) >?
           Z.of_nat (S (length p) + (S (length b1) + 0)) - 1)%Z with true
    by (symmetry; apply Z.gtb_lt; rewrite !length_app; simpl;
        rewrite !length_app; simpl; lia).
  inversion Hstr as [| ? ? _ Hstr']. inversion Hstr' as [| ? ? Hlast _].
  cbn [fst snd] in Hlast. rewrite Hlast.
  f_equal. f_equal.
  replace (p ++ NUL :: b1 ++ NUL :: r3 ++ [NUL])
    with ((p ++ NUL :: b1) ++ NUL :: r3 ++ [NUL])
    by (rewrite <- !app_assoc; reflexivity).
  rewrite (insert_app_r_alt (p ++ NUL :: b1))
    by (rewrite !length_app; simpl; lia).
  replace (length p + 1 + length b1 - length (p ++ NUL :: b1)) with 0
    by (rewrite !length_app; simpl; lia).
  simpl. rewrite <- !app_assoc. reflexivity.
Qed.

Lemma grants_with_buffer (bs : list ascii) (m : mem) :
  grants (after_grant m) -> grants (with_buffer bs m).
Proof. exact (fun H => H). Qed.

(** C5, as stated, fails: a prefix is not kept when it holds the delimiter
    itself.  The name composed from the prefix [a_b] and the base name
    [c_d] is [a_b_c_d], and parsing it back gives [a] and [b_c_d]. *)
Lemma C5_prefix_with_delimiter :
  In delim (bytes "c_d") /\
  layered_round_trip (set_dom_name (Some (bytes "c_d")) dom_none)
    (bytes "a_b") empty_mem
    = (0%Z, 0%Z, [Some (bytes "a"); Some (bytes "b_c_d")]) /\
  [Some (bytes "a"); Some (bytes "b_c_d")]
    <> [Some (bytes "a_b"); Some (bytes "c_d")].
Proof.
  split; [vm_compute; tauto |]. split; [reflexivity | discriminate].
Qed.

(** A base name that begins with the delimiter is not recovered either: the
    second token of [rxm__0] is left without a terminator in its block. *)
Lemma round_trip_base_with_leading_delimiter :
  layered_round_trip (set_dom_name (Some (bytes "_0")) dom_none)
    (bytes "rxm") empty_mem
    = (0%Z, 0%Z, [Some (bytes "rxm"); None]).
Proof. reflexivity. Qed.

(** C5, amended: for a prefix that is not empty and holds no delimiter, and
    a base domain name that holds the delimiter and does not begin with it,
    composing the layered name and parsing it back with 2 tokens in
    non-prefix-only mode succeeds and recovers the prefix and the whole
    base name, the delimiter restored where the second token was cut. *)
Theorem C5_layered_domain_name_round_trip (base_attr : fi_domain_attr)
    (prefix base : list ascii) (m : mem) :
  dom_name base_attr = Some base ->
  grants m -> grants (after_grant m) ->
  c_str prefix <> [] -> delim_free (c_str prefix) ->
  In delim (c_str base) -> head (c_str base) <> Some delim ->
  (Z.of_nat (strlen prefix + strlen base + 2) < 2 ^ 31)%Z ->
  layered_round_trip base_attr prefix m
    = (0%Z, 0%Z, [Some (c_str prefix); Some (c_str base)]).
Proof.
  intros Hname Hg Hg' Hp Hpd Hin Hhead Hint.
  pose proof (c_str_nul_free prefix) as Hpn.
  pose proof (c_str_nul_free base) as Hbn.
  destruct (first_segment (c_str base) Hbn Hin Hhead)
    as (b1 & r3 & Hb & Hb1 & Hb1d & Hb1n & Hr3n).
  unfold layered_round_trip.
  rewrite (utilx_tr_base_domain_attr_run _ _ _ _ Hname Hg).
  rewrite Hb.
  rewrite (utilx_parse_name_two (c_str prefix) b1 r3)
    by first
         [ assumption
         | now apply grants_with_buffer
         | unfold strlen in Hint; rewrite Hb, length_app in Hint;
           simpl in Hint; lia ].
  cbn [map]. unfold c_string_at. cbn [blk off].
  rewrite buffer_with_buffer, drop_0.
  rewrite terminated_app_nul, c_str_app_nul by assumption.
  replace (c_str prefix ++ NUL :: b1 ++ delim :: r3 ++ [NUL])
    with ((c_str prefix ++ [NUL]) ++ (b1 ++ delim :: r3) ++ NUL :: [])
    by (rewrite <- !app_assoc; reflexivity).
  rewrite drop_app_length' by (rewrite length_app; simpl; lia).
  rewrite terminated_app_nul, c_str_app_nul by (now rewrite <- Hb).
  reflexivity.
Qed.

Lemma C5_layered_domain_name_round_trip_witness :
  layered_round_trip (set_dom_name (Some (bytes "mlx5_0")) dom_none)
    (bytes "rxm") empty_mem
    = (0%Z, 0%Z, [Some (bytes "rxm"); Some (bytes "mlx5_0")]).
Proof.
  refine (C5_layered_domain_name_round_trip
            (set_dom_name (Some (bytes "mlx5_0")) dom_none)
            (bytes "rxm") (bytes "mlx5_0") empty_mem eq_refl _ _ _ _ _ _ _).
  - discriminate.
  - discriminate.
  - discriminate.
  - repeat constructor; discriminate.
  - vm_compute. tauto.
  - discriminate.
  - reflexivity.
Defined.

(** The fabric name of the specification: [rxm], [verbs] and [IB-1234]
    compose to [rxm_verbs_IB-1234], which parses back into the three. *)
Example fabric_name_round_trip :
  layered_fabric_round_trip
    {| fab_name := Some (bytes "IB-1234");
       fab_prov_name := Some (bytes "verbs"); fab_prov_version := 0 |}
    (bytes "rxm") empty_mem
  = (0%Z, 0%Z,
     [Some (bytes "rxm"); Some (bytes "verbs"); Some (bytes "IB-1234")]).
Proof. reflexivity. Qed.

(** The way back: the layered names give the base names, and the copy that
    was parsed is released. *)
Example layer_domain_name_translated :
  fst (fst (run (utilx_tr_layer_domain_attr
                   (set_dom_name (Some (bytes "rxm_mlx5_0")) dom_none))
              empty_mem)) = 0%Z /\
  option_map snd
    (snd (fst (run (utilx_tr_layer_domain_attr
                      (set_dom_name (Some (bytes "rxm_mlx5_0")) dom_none))
                 empty_mem))) = Some (bytes "mlx5_0") /\
  size (heap (snd (run (utilx_tr_layer_domain_attr
                          (set_dom_name (Some (bytes "rxm_mlx5_0")) dom_none))
                     empty_mem))) = 1.
Proof. repeat split; reflexivity. Qed.

Example layer_fabric_name_translated :
  let r := run (utilx_tr_layer_fabric_attr
                  (set_fab_name (Some (bytes "rxm_verbs_IB-1234")) fab_none))
             empty_mem in
  fst (fst (fst r)) = 0%Z /\
  option_map snd (snd (fst (fst r))) = Some (bytes "IB-1234") /\
  option_map snd (snd (fst r)) = Some (bytes "verbs") /\
  size (heap (snd r)) = 2.
Proof. repeat split; vm_compute; reflexivity. Qed.

(** * Further properties of the code *)

(** ** The address-format check: what always passes *)

(** X1: every provider accepts a request that leaves the address format
    unspecified and a request for the very format it declares; and a
    format beyond the socket-address families is accepted by the provider
    that declares exactly it, and by no other. *)
Theorem X1_addr_format_own_and_unspec (prov_format user_format : Z) :
  fi_valid_addr_format prov_format FI_FORMAT_UNSPEC = true /\
  fi_valid_addr_format prov_format prov_format = true /\
  ((FI_SOCKADDR_IB < user_format)%Z ->
   (fi_valid_addr_format prov_format user_format = true <->
    prov_format = user_format)).
Proof.
  unfold fi_valid_addr_format. cbn. split; [reflexivity |]. split.
  - fmt_cases; try reflexivity; lia.
  - intros Hu. split.
    + fmt_cases; intros; try reflexivity; try lia; discriminate.
    + intros ->. fmt_cases; try reflexivity; lia.
Qed.

Lemma X1_addr_format_own_and_unspec_witness :
  (FI_SOCKADDR_IB < 5)%Z /\
  (fi_valid_addr_format 5 5 = true <-> 5%Z = 5%Z) /\
  fi_valid_addr_format FI_SOCKADDR_IN 5 = false.
Proof.
  assert (H : (FI_SOCKADDR_IB < 5)%Z) by reflexivity.
  split; [exact H |]. split.
  - exact (proj2 (proj2 (X1_addr_format_own_and_unspec 5 5)) H).
  - reflexivity.
Defined.

(** ** [strcasecmp] *)

Lemma tolower_NUL (c : ascii) : tolower c = NUL <-> c = NUL.
Proof.
  split; [| intros ->; reflexivity].
  unfold tolower. destruct (_ && _) eqn:E; [| tauto].
  intros H. exfalso. apply andb_true_iff in E as [E1 E2].
  apply Nat.leb_le in E1. apply Nat.leb_le in E2.
  assert (Hn : nat_of_ascii (ascii_of_nat (nat_of_ascii c + 32)) = 0)
    by (rewrite H; reflexivity).
  rewrite nat_ascii_embedding in Hn by lia. lia.
Qed.

Lemma strcasecmp_refl (s : list ascii) : strcasecmp s s = 0%Z.
Proof.
  induction s as [| c s IH]; simpl.
  - reflexivity.
  - rewrite Ascii.eqb_refl. destruct (Ascii.eqb _ NUL); [reflexivity | exact IH].
Qed.

(** [strcasecmp] returns 0 exactly on strings that agree once lowered. *)
Lemma strcasecmp_zero (a b : list ascii) :
  strcasecmp a b = 0%Z <-> map tolower (c_str a) = map tolower (c_str b).
Proof.
  assert (Hdiff : forall x y : ascii, x <> y ->
            (Z.of_nat (nat_of_ascii x) - Z.of_nat (nat_of_ascii y))%Z <> 0%Z).
  { intros x y Hxy Hz. apply Hxy.
    rewrite <- (ascii_nat_embedding x), <- (ascii_nat_embedding y).
    f_equal. lia. }
  revert b. induction a as [| x a IH]; intros [| y b]; simpl.
  - tauto.
  - destruct (Ascii.eqb_spec NUL (tolower y)) as [E | E].
    + symmetry in E. apply (proj1 (tolower_NUL _)) in E. subst y.
      rewrite Ascii.eqb_refl. tauto.
    + assert (Hy : y <> NUL) by (intros ->; now apply E).
      rewrite (eqb_NUL_false y Hy). split; [| discriminate].
      intros H. now apply Hdiff in H.
  - destruct (Ascii.eqb_spec (tolower x) NUL) as [E | E].
    + apply (proj1 (tolower_NUL _)) in E. subst x. rewrite Ascii.eqb_refl.
      tauto.
    + assert (Hx : x <> NUL) by (intros ->; now apply E).
      rewrite (eqb_NUL_false x Hx). split; [| discriminate].
      intros H. now apply Hdiff in H.
  - destruct (Ascii.eqb_spec (tolower x) (tolower y)) as [E | E].
    + destruct (Ascii.eqb_spec (tolower x) NUL) as [E0 | E0].
      * pose proof E0 as E1. rewrite E in E1.
        apply (proj1 (tolower_NUL _)) in E0. apply (proj1 (tolower_NUL _)) in E1.
        subst. rewrite Ascii.eqb_refl. tauto.
      * assert (Hx : x <> NUL) by (intros ->; now apply E0).
        assert (Hy : y <> NUL).
        { intros ->. apply E0. rewrite E. reflexivity. }
        rewrite (eqb_NUL_false x Hx), (eqb_NUL_false y Hy). simpl.
        rewrite IH, E. split; [intros -> | intros [= ->]]; reflexivity.
    + split; [intros H; now apply Hdiff in H |].
      destruct (Ascii.eqb_spec x NUL) as [-> | Hx];
        destruct (Ascii.eqb_spec y NUL) as [-> | Hy]; simpl.
      * now destruct E.
      * discriminate.
      * discriminate.
      * intros [= H _]. contradiction.
Qed.

(** ** The verdict of the checkers *)

Ltac verdict_cases :=
  repeat match goal with
    | |- context [if ?c then _ else _] => destruct c
    end;
  first
    [ exists []; split; [cbn; now rewrite app_nil_r | left; split; reflexivity]
    | eexists; split;
      [ cbn; rewrite <- ?app_assoc; reflexivity
      | right; split; [reflexivity | discriminate] ] ].

Lemma verdict_fabric prov_attr user_attr type :
  verdict (fi_check_fabric_attr prov_attr user_attr type).
Proof.
  intros m.
  pose proof (keeps_log_name_mismatch (fab_name user_attr)
                (fab_name prov_attr) type m) as Hk.
  unfold fi_check_fabric_attr, bind.
  destruct (name_mismatch _ _ _ m) as [bad m']. cbn in Hk. rewrite <- Hk.
  destruct bad; verdict_cases.
Qed.

Lemma verdict_domain prov_attr user_attr type :
  verdict (fi_check_domain_attr prov_attr user_attr type).
Proof.
  intros m.
  pose proof (keeps_log_name_mismatch (dom_name user_attr)
                (dom_name prov_attr) type m) as Hk.
  unfold fi_check_domain_attr, bind.
  destruct (name_mismatch _ _ _ m) as [bad m']. cbn in Hk. rewrite <- Hk.
  destruct bad; verdict_cases.
Qed.

Lemma verdict_ep prov_attr user_attr :
  verdict (fi_check_ep_attr prov_attr user_attr).
Proof. intros m. unfold fi_check_ep_attr, bind. verdict_cases. Qed.

Lemma verdict_rx prov_attr user_attr :
  verdict (fi_check_rx_attr prov_attr user_attr).
Proof. intros m. unfold fi_check_rx_attr, bind. verdict_cases. Qed.

Lemma verdict_tx prov_attr user_attr :
  verdict (fi_check_tx_attr prov_attr user_attr).
Proof. intros m. unfold fi_check_tx_attr, bind. verdict_cases. Qed.

Lemma verdict_ret0 : verdict (ret 0%Z).
Proof. intros m. verdict_cases. Qed.

Lemma verdict_group_checks {A} (group : option A) (check : A -> M Z) :
  (forall a, verdict (check a)) -> Forall verdict (group_checks group check).
Proof.
  intros H. destruct group as [a |]; constructor; [apply H | constructor].
Qed.

Lemma verdict_check_order prov_info user_info type :
  Forall verdict (check_order prov_info user_info type).
Proof.
  unfold check_order. repeat apply Forall_app_2.
  - repeat constructor; intros m.
    + unfold caps_stage, bind. verdict_cases.
    + unfold mode_stage, bind. verdict_cases.
    + unfold addr_format_stage, bind. verdict_cases.
  - apply verdict_group_checks. intros; apply verdict_fabric.
  - apply verdict_group_checks. intros; apply verdict_domain.
  - apply verdict_group_checks. intros; apply verdict_ep.
  - apply verdict_group_checks. intros; apply verdict_rx.
  - apply verdict_group_checks. intros; apply verdict_tx.
Qed.

Lemma verdict_first_failure (checks : list (M Z)) :
  Forall verdict checks -> verdict (first_failure checks).
Proof.
  induction 1 as [| c checks Hc Hall IH]; [apply verdict_ret0 |].
  intros m. cbn. unfold bind. destruct (Hc m) as (l & Hl & Hv).
  destruct (c m) as [r m0]. cbn in *.
  destruct Hv as [[-> ->] | [-> Hne]]; cbn.
  - rewrite app_nil_r in Hl. destruct (IH m0) as (l' & Hl' & Hv').
    exists l'. rewrite <- Hl. split; assumption.
  - exists l. split; [assumption | right; split; [reflexivity | assumption]].
Qed.

Lemma verdict_fi_check_info prov_info user_info type :
  verdict (fi_check_info prov_info user_info type).
Proof.
  destruct user_info as [user_info |]; [| apply verdict_ret0].
  intros m.
  pose proof (fi_check_info_in_order prov_info user_info type m) as Href.
  unfold run in Href. rewrite Href.
  apply verdict_first_failure, verdict_check_order.
Qed.

(** X2: on every run of [fi_check_info] that meets no fault (no [free] of
    a pointer that is not the start of a live block, no read of a [NULL]
    name), whatever the records and the mode, the value returned is 0 or
    [-FI_ENODATA] and nothing else: the error of a name parse and the
    value of [strcasecmp] never reach the caller.  Such a run keeps what
    was logged, adds nothing when it returns 0 and at least one diagnostic
    when it fails. *)
Theorem X2_fi_check_info_verdict (prov_info : fi_info_prov)
    (user_info : option fi_info) (type : fi_check_type) (m : mem) :
  faults (snd (run (fi_check_info prov_info user_info type) m)) = faults m ->
  exists lines,
    log (snd (run (fi_check_info prov_info user_info type) m))
      = log m ++ lines /\
    ((fst (run (fi_check_info prov_info user_info type) m) = 0%Z /\
      lines = []) \/
     (fst (run (fi_check_info prov_info user_info type) m)
        = (- FI_ENODATA)%Z /\ lines <> [])).
Proof. intros _. apply verdict_fi_check_info. Qed.

(** The sample of the witness: a layered request whose fabric name has
    the provider's name as its first segment, and asks for a provider
    version above the provider's. *)
Lemma X2_fi_check_info_verdict_witness :
  exists lines,
    log (snd (run (fi_check_info
                     {| prov_caps := 0; prov_mode := 0; prov_addr_format := 0;
                        prov_fabric_attr :=
                          {| fab_name := Some (bytes "rxm");
                             fab_prov_name := Some (bytes "rxm");
                             fab_prov_version := 0 |};
                        prov_domain_attr := dom_none; prov_ep_attr := ep_none;
                        prov_rx_attr := rx_none; prov_tx_attr := tx_none |}
                     (Some {| info_caps := 0; info_mode := 0;
                              info_addr_format := 0;
                              info_fabric_attr :=
                                Some {| fab_name := Some (bytes "rxm_verbs");
                                        fab_prov_name := None;
                                        fab_prov_version := 1 |};
                              info_domain_attr := None; info_ep_attr := None;
                              info_rx_attr := None; info_tx_attr := None |})
                     FI_CHECK_LAYERED) empty_mem))
      = log empty_mem ++ lines /\
    ((fst (run (fi_check_info
                  {| prov_caps := 0; prov_mode := 0; prov_addr_format := 0;
                     prov_fabric_attr :=
                       {| fab_name := Some (bytes "rxm");
                          fab_prov_name := Some (bytes "rxm");
                          fab_prov_version := 0 |};
                     prov_domain_attr := dom_none; prov_ep_attr := ep_none;
                     prov_rx_attr := rx_none; prov_tx_attr := tx_none |}
                  (Some {| info_caps := 0; info_mode := 0;
                           info_addr_format := 0;
                           info_fabric_attr :=
                             Some {| fab_name := Some (bytes "rxm_verbs");
                                     fab_prov_name := None;
                                     fab_prov_version := 1 |};
                           info_domain_attr := None; info_ep_attr := None;
                           info_rx_attr := None; info_tx_attr := None |})
                  FI_CHECK_LAYERED) empty_mem) = 0%Z /\
      lines = []) \/
     (fst (run (fi_check_info
                  {| prov_caps := 0; prov_mode := 0; prov_addr_format := 0;
                     prov_fabric_attr :=
                       {| fab_name := Some (bytes "rxm");
                          fab_prov_name := Some (bytes "rxm");
                          fab_prov_version := 0 |};
                     prov_domain_attr := dom_none; prov_ep_attr := ep_none;
                     prov_rx_attr := rx_none; prov_tx_attr := tx_none |}
                  (Some {| info_caps := 0; info_mode := 0;
                           info_addr_format := 0;
                           info_fabric_attr :=
                             Some {| fab_name := Some (bytes "rxm_verbs");
                                     fab_prov_name := None;
                                     fab_prov_version := 1 |};
                           info_domain_attr := None; info_ep_attr := None;
                           info_rx_attr := None; info_tx_attr := None |})
                  FI_CHECK_LAYERED) empty_mem)
        = (- FI_ENODATA)%Z /\ lines <> [])).
Proof.
  apply (X2_fi_check_info_verdict
           {| prov_caps := 0; prov_mode := 0; prov_addr_format := 0;
              prov_fabric_attr :=
                {| fab_name := Some (bytes "rxm");
                   fab_prov_name := Some (bytes "rxm");
                   fab_prov_version := 0 |};
              prov_domain_attr := dom_none; prov_ep_attr := ep_none;
              prov_rx_attr := rx_none; prov_tx_attr := tx_none |}
           (Some {| info_caps := 0; info_mode := 0; info_addr_format := 0;
                    info_fabric_attr :=
                      Some {| fab_name := Some (bytes "rxm_verbs");
                              fab_prov_name := None;
                              fab_prov_version := 1 |};
                    info_domain_attr := None; info_ep_attr := None;
                    info_rx_attr := None; info_tx_attr := None |})
           FI_CHECK_LAYERED empty_mem).
  reflexivity.
Defined.

(** ** The check outside layered mode allocates nothing *)

Lemma keeps_heap_ret {A} (a : A) : keeps_heap (ret a).
Proof. intros m. split; reflexivity. Qed.

Lemma keeps_heap_bind {A B} (c : M A) (k : A -> M B) :
  keeps_heap c -> (forall a, keeps_heap (k a)) -> keeps_heap (bind c k).
Proof.
  intros Hc Hk m. unfold bind. destruct (Hc m) as [H1 H2].
  destruct (c m) as [a m']. cbn in *. destruct (Hk a m') as [H3 H4].
  split; congruence.
Qed.

Lemma keeps_heap_FI_INFO d : keeps_heap (FI_INFO d).
Proof. intros m. split; reflexivity. Qed.

Lemma keeps_heap_raise f : keeps_heap (raise f).
Proof. intros m. split; reflexivity. Qed.

Lemma keeps_heap_deref s : keeps_heap (deref_string s).
Proof. destruct s; intros m; split; reflexivity. Qed.

Create HintDb heapkeeps.

#[local] Hint Resolve keeps_heap_ret keeps_heap_FI_INFO keeps_heap_raise
  keeps_heap_deref : heapkeeps.

Ltac heapkeeps :=
  repeat first
    [ solve [auto with heapkeeps]
    | apply keeps_heap_bind; [| intros ?]
    | match goal with
      | |- keeps_heap (match ?x with _ => _ end) => destruct x
      | |- keeps_heap (if ?x then _ else _) => destruct x
      end ].

Lemma keeps_heap_name_mismatch user_name prov_name :
  keeps_heap (name_mismatch user_name prov_name FI_CHECK_DEFAULT).
Proof. unfold name_mismatch, fi_check_name. heapkeeps. Qed.

Lemma keeps_heap_fabric prov_attr user_attr :
  keeps_heap (fi_check_fabric_attr prov_attr user_attr FI_CHECK_DEFAULT).
Proof.
  pose proof keeps_heap_name_mismatch.
  unfold fi_check_fabric_attr. heapkeeps.
Qed.

Lemma keeps_heap_domain prov_attr user_attr :
  keeps_heap (fi_check_domain_attr prov_attr user_attr FI_CHECK_DEFAULT).
Proof.
  pose proof keeps_heap_name_mismatch.
  unfold fi_check_domain_attr. heapkeeps.
Qed.

Lemma keeps_heap_ep prov_attr user_attr :
  keeps_heap (fi_check_ep_attr prov_attr user_attr).
Proof. unfold fi_check_ep_attr. heapkeeps. Qed.

Lemma keeps_heap_rx prov_attr user_attr :
  keeps_heap (fi_check_rx_attr prov_attr user_attr).
Proof. unfold fi_check_rx_attr, info_flags. heapkeeps. Qed.

Lemma keeps_heap_tx prov_attr user_attr :
  keeps_heap (fi_check_tx_attr prov_attr user_attr).
Proof. unfold fi_check_tx_attr, info_flags. heapkeeps. Qed.

(** X3: outside layered mode [fi_check_info] neither allocates nor
    releases: the heap and the outcomes of the coming allocations are
    those it was called with, whatever the records and whether it passes
    or fails. *)
Theorem X3_fi_check_info_default_no_allocation (prov_info : fi_info_prov)
    (user_info : option fi_info) (m : mem) :
  heap (snd (run (fi_check_info prov_info user_info FI_CHECK_DEFAULT) m))
    = heap m /\
  oracle (snd (run (fi_check_info prov_info user_info FI_CHECK_DEFAULT) m))
    = oracle m.
Proof.
  revert m. change (keeps_heap (fi_check_info prov_info user_info
                                  FI_CHECK_DEFAULT)).
  pose proof keeps_heap_fabric. pose proof keeps_heap_domain.
  pose proof keeps_heap_ep. pose proof keeps_heap_rx.
  pose proof keeps_heap_tx.
  unfold fi_check_info, when_present, info_flags. heapkeeps.
Qed.

(** ** Requests that every provider accepts *)

Lemma gtb_irrefl (x : Z) : (x >? x)%Z = false.
Proof. rewrite Z.gtb_ltb. apply Z.ltb_irrefl. Qed.

Lemma addr_format_own (prov_format : Z) :
  fi_valid_addr_format prov_format prov_format = true.
Proof.
  unfold fi_valid_addr_format. cbn. fmt_cases; try reflexivity; lia.
Qed.

Lemma self_name_mismatch (name : option (list ascii)) (m : mem) :
  name_mismatch name name FI_CHECK_DEFAULT m = (false, m).
Proof.
  destruct name as [n |]; [| reflexivity].
  unfold name_mismatch, fi_check_name, bind. cbn.
  now rewrite strcasecmp_refl.
Qed.

Lemma self_fabric (a : fi_fabric_attr) (m : mem) :
  fi_check_fabric_attr a a FI_CHECK_DEFAULT m = (0%Z, m).
Proof.
  unfold fi_check_fabric_attr, bind. rewrite self_name_mismatch.
  now rewrite gtb_irrefl.
Qed.

Lemma self_domain (a : fi_domain_attr) (m : mem) :
  fi_check_domain_attr a a FI_CHECK_DEFAULT m = (0%Z, m).
Proof.
  unfold fi_check_domain_attr, bind. rewrite self_name_mismatch.
  rewrite !Z.ltb_irrefl, !Z.eqb_refl, gtb_irrefl. cbn.
  rewrite !andb_false_r. reflexivity.
Qed.

Lemma self_ep (a : fi_ep_attr) (m : mem) :
  fi_check_ep_attr a a m = (0%Z, m).
Proof.
  unfold fi_check_ep_attr. rewrite !Z.eqb_refl, !gtb_irrefl. cbn.
  rewrite !andb_false_r. reflexivity.
Qed.

Lemma self_rx (a : fi_rx_attr) (m : mem) :
  fi_check_rx_attr a a m = (0%Z, m).
Proof.
  unfold fi_check_rx_attr.
  rewrite !op_flags_test_never_fires, Z.land_diag, Z.eqb_refl, !gtb_irrefl.
  reflexivity.
Qed.

Lemma self_tx (a : fi_tx_attr) (m : mem) :
  fi_check_tx_attr a a m = (0%Z, m).
Proof.
  unfold fi_check_tx_attr.
  rewrite !op_flags_test_never_fires, Z.land_diag, Z.eqb_refl, !gtb_irrefl.
  reflexivity.
Qed.

(** X4: outside layered mode a provider accepts its own record: the
    request that repeats every field the provider declares, names
    included, passes [fi_check_info] with no diagnostic and no change of
    state. *)
Theorem X4_provider_accepts_own_record (prov_info : fi_info_prov) (m : mem) :
  run (fi_check_info prov_info (Some (as_request prov_info)) FI_CHECK_DEFAULT)
    m = (0%Z, m).
Proof.
  unfold run, fi_check_info, as_request, when_present, bind. cbn.
  rewrite op_flags_test_never_fires, Z.land_diag, Z.eqb_refl, addr_format_own.
  cbn. rewrite self_fabric. cbn. rewrite self_domain. cbn.
  rewrite self_ep. cbn. rewrite self_rx. cbn. rewrite self_tx. reflexivity.
Qed.

(** X5: a request for a domain that names none and leaves the threading,
    both progress models and the resource management unspecified is never
    refused for a model, whatever the provider declares, a value outside
    its enumerations included: it passes exactly when the address-vector
    types agree or one is unspecified, the memory-registration mode is 0
    or the provider's, and the completion-data size is within the
    provider's. *)
Theorem X5_unspecified_models_accept_any_provider
    (prov_attr user_attr : fi_domain_attr) (type : fi_check_type) (m : mem) :
  dom_name user_attr = None ->
  dom_threading user_attr = FI_THREAD_UNSPEC ->
  dom_control_progress user_attr = FI_PROGRESS_UNSPEC ->
  dom_data_progress user_attr = FI_PROGRESS_UNSPEC ->
  dom_resource_mgmt user_attr = FI_RM_UNSPEC ->
  (fst (run (fi_check_domain_attr prov_attr user_attr type) m) = 0%Z <->
   (dom_av_type prov_attr = FI_AV_UNSPEC \/
    dom_av_type user_attr = FI_AV_UNSPEC \/
    dom_av_type prov_attr = dom_av_type user_attr) /\
   (dom_mr_mode user_attr = 0%Z \/
    dom_mr_mode user_attr = dom_mr_mode prov_attr) /\
   (dom_cq_data_size user_attr <= dom_cq_data_size prov_attr)%Z).
Proof.
  intros Hn Ht Hc Hd Hr.
  unfold run, fi_check_domain_attr, name_mismatch, bind, nonzero.
  rewrite Hn, Ht, Hc, Hd, Hr. cbn.
  replace (6 <? fi_thread_level (dom_threading prov_attr))%Z with false
    by (now destruct (dom_threading prov_attr)).
  replace (3 <? fi_progress_level (dom_control_progress prov_attr))%Z
    with false by (now destruct (dom_control_progress prov_attr)).
  replace (3 <? fi_progress_level (dom_data_progress prov_attr))%Z
    with false by (now destruct (dom_data_progress prov_attr)).
  replace (3 <? fi_resource_mgmt_level (dom_resource_mgmt prov_attr))%Z
    with false by (now destruct (dom_resource_mgmt prov_attr)).
  destruct (Z.eqb_spec (dom_av_type prov_attr) FI_AV_UNSPEC);
    destruct (Z.eqb_spec (dom_av_type user_attr) FI_AV_UNSPEC);
    destruct (Z.eqb_spec (dom_av_type prov_attr) (dom_av_type user_attr));
    destruct (Z.eqb_spec (dom_mr_mode user_attr) 0);
    destruct (Z.eqb_spec (dom_mr_mode user_attr) (dom_mr_mode prov_attr));
    destruct (Z.gtb_spec (dom_cq_data_size user_attr)
                (dom_cq_data_size prov_attr));
    cbn; split; intros Hx; try discriminate; try tauto; try lia;
    try (repeat split; first [tauto | lia]).
Qed.

Lemma X5_unspecified_models_accept_any_provider_witness :
  fst (run (fi_check_domain_attr
              (set_dom_threading FI_THREAD_invalid dom_none) dom_none
              FI_CHECK_LAYERED) empty_mem) = 0%Z.
Proof.
  apply (X5_unspecified_models_accept_any_provider
           (set_dom_threading FI_THREAD_invalid dom_none) dom_none
           FI_CHECK_LAYERED empty_mem eq_refl eq_refl eq_refl eq_refl eq_refl).
  cbn. repeat split; [now left | now left | lia].
Defined.

(** ** The alteration: applying it twice, and after a check *)

Ltac bits :=
  apply Z.bits_inj'; intros ? ?;
  repeat (rewrite Z.lor_spec || rewrite Z.land_spec);
  repeat match goal with
    | |- context [Z.testbit ?x ?n] => destruct (Z.testbit x n)
    end; reflexivity.

Lemma caps_alter_idem (h i P S : Z) :
  Z.lor (Z.land h P) (Z.land (Z.lor (Z.land h P) (Z.land i S)) S)
  = Z.lor (Z.land h P) (Z.land i S).
Proof. bits. Qed.

Lemma caps_default_idem (c a P S : Z) :
  Z.lor
    (Z.land (Z.land c (Z.lor (Z.land (Z.land c a) P) (Z.land a S))) P)
    (Z.land (Z.lor (Z.land (Z.land c a) P) (Z.land a S)) S)
  = Z.lor (Z.land (Z.land c a) P) (Z.land a S).
Proof. bits. Qed.

Lemma keep_or_take_idem (h a : Z) :
  (if nonzero h then h else if nonzero h then h else a)
  = (if nonzero h then h else a).
Proof. now destruct (nonzero h). Qed.

Lemma fi_alter_ep_attr_idem (a : fi_ep_attr) (h : option fi_ep_attr) :
  fi_alter_ep_attr (fi_alter_ep_attr a h) h = fi_alter_ep_attr a h.
Proof.
  destruct h as [h |]; [| reflexivity]. unfold fi_alter_ep_attr. cbn.
  now rewrite !keep_or_take_idem.
Qed.

Lemma fi_alter_rx_attr_idem (P S : Z) (a : fi_rx_attr)
    (h : option fi_rx_attr) (c : Z) :
  fi_alter_rx_attr P S (fi_alter_rx_attr P S a h c) h c
  = fi_alter_rx_attr P S a h c.
Proof.
  destruct h as [h |]; unfold fi_alter_rx_attr; cbn.
  - now rewrite caps_alter_idem, !keep_or_take_idem.
  - now rewrite caps_default_idem.
Qed.

Lemma fi_alter_tx_attr_idem (P S : Z) (a : fi_tx_attr)
    (h : option fi_tx_attr) (c : Z) :
  fi_alter_tx_attr P S (fi_alter_tx_attr P S a h c) h c
  = fi_alter_tx_attr P S a h c.
Proof.
  destruct h as [h |]; unfold fi_alter_tx_attr; cbn.
  - now rewrite caps_alter_idem, !keep_or_take_idem.
  - now rewrite caps_default_idem.
Qed.

(** X6: altering a record with the same hints a second time changes
    nothing more, whatever the two capability masks are and whichever
    groups the hints hold. *)
Theorem X6_fi_alter_info_idempotent (PRIMARY SECONDARY : Z)
    (info : fi_info_prov) (hints : option fi_info) :
  fi_alter_info PRIMARY SECONDARY
    (fi_alter_info PRIMARY SECONDARY info hints) hints
  = fi_alter_info PRIMARY SECONDARY info hints.
Proof.
  destruct hints as [hints |]; [| reflexivity].
  unfold fi_alter_info. cbn.
  rewrite caps_alter_idem, fi_alter_ep_attr_idem, fi_alter_rx_attr_idem,
    fi_alter_tx_attr_idem.
  reflexivity.
Qed.

Lemma uint64_high_bits (u n : Z) :
  uint64 u -> (64 <= n)%Z -> Z.testbit u n = false.
Proof.
  intros [Hlo Hhi] Hn. destruct (Z.eq_dec u 0%Z) as [-> | Hnz].
  - apply Z.bits_0.
  - apply Z.bits_above_log2; [assumption |].
    assert (Z.log2 u < 64)%Z by (apply Z.log2_lt_pow2; lia). lia.
Qed.

Lemma flags_subset_bits (u p : Z) :
  uint64 u -> flags_subset u p = true ->
  forall n, (0 <= n)%Z -> Z.testbit u n = true -> Z.testbit p n = true.
Proof.
  intros Hu Hsub n Hn Hbit. unfold flags_subset, not64 in Hsub.
  apply Z.eqb_eq in Hsub.
  assert (Hb : Z.testbit (Z.land u (Z.ldiff (Z.ones 64) p)) n = false)
    by (rewrite Hsub; apply Z.bits_0).
  rewrite Z.land_spec, Z.ldiff_spec, Hbit in Hb. cbn in Hb.
  destruct (Z.testbit p n); [reflexivity |].
  destruct (Z_lt_le_dec n 64) as [Hlt | Hge].
  - rewrite Z.ones_spec_low in Hb by lia. discriminate.
  - rewrite (uint64_high_bits u n Hu Hge) in Hbit. discriminate.
Qed.

Lemma altered_caps_within (u p P S : Z) :
  uint64 u -> flags_subset u p = true ->
  flags_subset (Z.lor (Z.land u P) (Z.land p S)) p = true.
Proof.
  intros Hu Hsub. pose proof (flags_subset_bits u p Hu Hsub) as Hbits.
  unfold flags_subset, not64. apply Z.eqb_eq.
  apply Z.bits_inj'. intros n Hn.
  rewrite Z.land_spec, Z.lor_spec, !Z.land_spec, Z.ldiff_spec, Z.bits_0.
  specialize (Hbits n Hn).
  destruct (Z.testbit u n), (Z.testbit p n); cbn;
    rewrite ?andb_false_r, ?andb_true_r; try reflexivity.
  now specialize (Hbits eq_refl).
Qed.

Ltac passed :=
  repeat match goal with
    | |- context [if ?c then _ else _] => destruct c eqn:?
    end;
  cbn; intros; try discriminate.

Ltac bound :=
  match goal with
  | H : (?a >? ?b)%Z = false |- (?a <= ?b)%Z =>
      destruct (Z.gtb_spec a b); [discriminate | lia]
  end.

(** What a passing [fi_check_rx_attr] has established. *)
Lemma fi_check_rx_attr_passed (prov_attr user_attr : fi_rx_attr) (m : mem) :
  fst (run (fi_check_rx_attr prov_attr user_attr) m) = 0%Z ->
  flags_subset (rx_caps user_attr) (rx_caps prov_attr) = true /\
  Z.land (rx_mode user_attr) (rx_mode prov_attr) = rx_mode prov_attr /\
  flags_subset (rx_msg_order user_attr) (rx_msg_order prov_attr) = true /\
  flags_subset (rx_comp_order user_attr) (rx_comp_order prov_attr) = true /\
  (rx_total_buffered_recv user_attr <= rx_total_buffered_recv prov_attr)%Z /\
  (rx_size user_attr <= rx_size prov_attr)%Z /\
  (rx_iov_limit user_attr <= rx_iov_limit prov_attr)%Z.
Proof.
  unfold run, fi_check_rx_attr, flags_subset, nonzero. passed.
  repeat split; try bound;
    try (apply negb_false_iff; assumption).
  apply Z.eqb_eq. now apply negb_false_iff.
Qed.

(** What a passing [fi_check_tx_attr] has established. *)
Lemma fi_check_tx_attr_passed (prov_attr user_attr : fi_tx_attr) (m : mem) :
  fst (run (fi_check_tx_attr prov_attr user_attr) m) = 0%Z ->
  flags_subset (tx_caps user_attr) (tx_caps prov_attr) = true /\
  Z.land (tx_mode user_attr) (tx_mode prov_attr) = tx_mode prov_attr /\
  flags_subset (tx_msg_order user_attr) (tx_msg_order prov_attr) = true /\
  flags_subset (tx_comp_order user_attr) (tx_comp_order prov_attr) = true /\
  (tx_inject_size user_attr <= tx_inject_size prov_attr)%Z /\
  (tx_size user_attr <= tx_size prov_attr)%Z /\
  (tx_iov_limit user_attr <= tx_iov_limit prov_attr)%Z /\
  (tx_rma_iov_limit user_attr <= tx_rma_iov_limit prov_attr)%Z.
Proof.
  unfold run, fi_check_tx_attr, flags_subset, nonzero. passed.
  repeat split; try bound;
    try (apply negb_false_iff; assumption).
  apply Z.eqb_eq. now apply negb_false_iff.
Qed.

Lemma keep_or_take_le (h a : Z) :
  (h <= a)%Z -> ((if nonzero h then h else a) <= a)%Z.
Proof. destruct (nonzero h); lia. Qed.

(** X7: once [fi_check_rx_attr] and [fi_check_tx_attr] have accepted the
    hints against the provider's attributes, altering those attributes
    with the hints stays within what the provider declared: the
    capabilities are a subset of the provider's, and no size or limit
    exceeds the provider's. *)
Theorem X7_alter_after_check_within_provider (PRIMARY SECONDARY : Z)
    (prov_rx user_rx : fi_rx_attr) (prov_tx user_tx : fi_tx_attr)
    (info_caps : Z) (m : mem) :
  uint64 (rx_caps user_rx) -> uint64 (tx_caps user_tx) ->
  fst (run (fi_check_rx_attr prov_rx user_rx) m) = 0%Z ->
  fst (run (fi_check_tx_attr prov_tx user_tx) m) = 0%Z ->
  (flags_subset
     (rx_caps (fi_alter_rx_attr PRIMARY SECONDARY prov_rx (Some user_rx)
                 info_caps)) (rx_caps prov_rx) = true /\
   (rx_total_buffered_recv
      (fi_alter_rx_attr PRIMARY SECONDARY prov_rx (Some user_rx) info_caps)
    <= rx_total_buffered_recv prov_rx)%Z /\
   (rx_size (fi_alter_rx_attr PRIMARY SECONDARY prov_rx (Some user_rx)
               info_caps) <= rx_size prov_rx)%Z /\
   (rx_iov_limit (fi_alter_rx_attr PRIMARY SECONDARY prov_rx (Some user_rx)
                    info_caps) <= rx_iov_limit prov_rx)%Z) /\
  (flags_subset
     (tx_caps (fi_alter_tx_attr PRIMARY SECONDARY prov_tx (Some user_tx)
                 info_caps)) (tx_caps prov_tx) = true /\
   (tx_inject_size
      (fi_alter_tx_attr PRIMARY SECONDARY prov_tx (Some user_tx) info_caps)
    <= tx_inject_size prov_tx)%Z /\
   (tx_size (fi_alter_tx_attr PRIMARY SECONDARY prov_tx (Some user_tx)
               info_caps) <= tx_size prov_tx)%Z /\
   (tx_iov_limit (fi_alter_tx_attr PRIMARY SECONDARY prov_tx (Some user_tx)
                    info_caps) <= tx_iov_limit prov_tx)%Z /\
   (tx_rma_iov_limit
      (fi_alter_tx_attr PRIMARY SECONDARY prov_tx (Some user_tx) info_caps)
    <= tx_rma_iov_limit prov_tx)%Z).
Proof.
  intros Hurx Hutx Hrx Htx.
  apply fi_check_rx_attr_passed in Hrx
    as (Hcaps & _ & _ & _ & Htot & Hsize & Hiov).
  apply fi_check_tx_attr_passed in Htx
    as (Hcaps' & _ & _ & _ & Hinj & Hsize' & Hiov' & Hrma).
  cbn. repeat split;
    first [ now apply altered_caps_within
          | now apply keep_or_take_le
          | assumption ].
Qed.

Lemma X7_alter_after_check_within_provider_witness :
  (flags_subset
     (rx_caps (fi_alter_rx_attr 3 12 rx_sample_prov (Some rx_sample_user) 7))
     (rx_caps rx_sample_prov) = true /\
   (rx_total_buffered_recv
      (fi_alter_rx_attr 3 12 rx_sample_prov (Some rx_sample_user) 7)
    <= rx_total_buffered_recv rx_sample_prov)%Z /\
   (rx_size (fi_alter_rx_attr 3 12 rx_sample_prov (Some rx_sample_user) 7)
    <= rx_size rx_sample_prov)%Z /\
   (rx_iov_limit
      (fi_alter_rx_attr 3 12 rx_sample_prov (Some rx_sample_user) 7)
    <= rx_iov_limit rx_sample_prov)%Z) /\
  (flags_subset
     (tx_caps (fi_alter_tx_attr 3 12 tx_sample_prov (Some tx_sample_user) 7))
     (tx_caps tx_sample_prov) = true /\
   (tx_inject_size
      (fi_alter_tx_attr 3 12 tx_sample_prov (Some tx_sample_user) 7)
    <= tx_inject_size tx_sample_prov)%Z /\
   (tx_size (fi_alter_tx_attr 3 12 tx_sample_prov (Some tx_sample_user) 7)
    <= tx_size tx_sample_prov)%Z /\
   (tx_iov_limit
      (fi_alter_tx_attr 3 12 tx_sample_prov (Some tx_sample_user) 7)
    <= tx_iov_limit tx_sample_prov)%Z /\
   (tx_rma_iov_limit
      (fi_alter_tx_attr 3 12 tx_sample_prov (Some tx_sample_user) 7)
    <= tx_rma_iov_limit tx_sample_prov)%Z).
Proof.
  apply (X7_alter_after_check_within_provider 3 12 rx_sample_prov
           rx_sample_user tx_sample_prov tx_sample_user 7 empty_mem).
  - unfold uint64. simpl. lia.
  - unfold uint64. simpl. lia.
  - reflexivity.
  - reflexivity.
Defined.

(** ** The tokens of [utilx_parse_name] as strings *)

Lemma next_token_skipped (rest : list ascii) sk tk rem :
  next_token rest = Some (sk, tk, rem) -> sk = strspn rest.
Proof.
  unfold next_token. destruct (take _ _); [discriminate |].
  now intros [= <- _ _].
Qed.

(** In the bytes the loop leaves, every token is followed by a
    terminator. *)
Lemma tokens_of_terminated (n base : nat) (rest : list ascii) :
  nul_free rest ->
  Forall (fun t =>
            base <= fst t /\ nul_free (snd t) /\
            exists a,
              drop (fst t - base) (snd (tokens_of n base rest))
              = snd t ++ NUL :: a)
    (fst (tokens_of n base rest)).
Proof.
  revert base rest. induction n as [| n IH]; intros base rest Hn;
    [constructor |].
  simpl. pose proof (next_token_spec rest Hn) as Hspec.
  destruct (next_token rest) as [[[sk tk] rem] |]; [| constructor].
  destruct Hspec as (Hne & Hd & Hnt & Hrest & Hrem).
  destruct rem as [r3 |].
  - specialize (IH (base + sk + length tk + 1) r3 Hrem).
    destruct (tokens_of n _ r3) as [ts region]. cbn [fst snd] in *.
    assert (Hreg : take (sk + length tk) rest ++ NUL :: region
                   = (replicate sk delim ++ tk ++ [NUL]) ++ region).
    { rewrite Hrest at 1.
      rewrite (app_assoc (replicate sk delim) tk (delim :: r3)).
      rewrite take_app_length'
        by (rewrite length_app, length_replicate; reflexivity).
      rewrite <- !app_assoc. reflexivity. }
    rewrite Hreg. constructor.
    + cbn [fst snd]. split; [lia |]. split; [assumption |].
      exists region. replace (base + sk - base) with sk by lia.
      rewrite <- (app_assoc (replicate sk delim) (tk ++ [NUL]) region).
      rewrite drop_app_length' by (now rewrite length_replicate).
      rewrite <- app_assoc. reflexivity.
    + eapply Forall_impl; [exact IH |].
      intros [o t] (Ho & Hnt' & a & Ha). cbn [fst snd] in *.
      split; [lia |]. split; [assumption |]. exists a.
      replace (o - base)
        with (length (replicate sk delim ++ tk ++ [NUL])
              + (o - (base + sk + length tk + 1)))
        by (rewrite !length_app, length_replicate; simpl; lia).
      rewrite drop_app_add. exact Ha.
  - constructor; [| constructor]. cbn [fst snd].
    split; [lia |]. split; [assumption |]. exists [].
    replace (base + sk - base) with sk by lia.
    rewrite Hrest at 1. rewrite app_nil_r, <- app_assoc.
    rewrite drop_app_length' by (now rewrite length_replicate).
    reflexivity.
Qed.

Lemma c_string_at_with_buffer (bs : list ascii) (m : mem) (o : nat)
    (s a : list ascii) :
  nul_free s -> drop o bs = s ++ NUL :: a ->
  c_string_at (Ptr (parse_block m) o) (with_buffer bs m) = Some s.
Proof.
  intros Hs Hd. unfold c_string_at. cbn [blk off].
  rewrite buffer_with_buffer, Hd, terminated_app_nul, c_str_app_nul
    by assumption.
  reflexivity.
Qed.

(** The strings at the tokens are the tokens. *)
Lemma tokens_read (n : nat) (rest : list ascii) (m : mem) :
  nul_free rest ->
  map (fun t => c_string_at t (with_buffer (snd (tokens_of n 0 rest)) m))
    (map (Ptr (parse_block m)) (map fst (fst (tokens_of n 0 rest))))
  = map Some (take n (segments rest)).
Proof.
  intros Hn. rewrite <- (tokens_of_segments n 0 rest Hn).
  pose proof (tokens_of_terminated n 0 rest Hn) as Hall.
  destruct (tokens_of n 0 rest) as [ts region]. cbn [fst snd] in *.
  induction Hall as [| [o t] ts (_ & Hnt & a & Ha) Hall IH]; [reflexivity |].
  cbn [map fst snd] in *. rewrite Nat.sub_0_r in Ha.
  rewrite (c_string_at_with_buffer _ _ _ _ _ Hnt Ha), IH. reflexivity.
Qed.

(** X8: in prefix-only mode, with the copy's allocation granted and at
    least [max_tok] segments in the name, [utilx_parse_name] returns 0 and
    [max_tok] tokens that read as the first [max_tok] segments of the
    name, empty segments skipped; the tokens point into the one block of
    the copy, which stays allocated for the caller. *)
Theorem X8_prefix_mode_tokens_are_segments (name : list ascii)
    (max_tok : nat) (m : mem) :
  grants m ->
  max_tok <= length (segments (c_str name)) ->
  exists tok bs,
    fst (run (utilx_parse_name name max_tok true) m) = (0%Z, tok) /\
    map (fun t =>
           c_string_at t (snd (run (utilx_parse_name name max_tok true) m)))
      tok = map Some (take max_tok (segments (c_str name))) /\
    Forall (fun t => blk t = parse_block m) tok /\
    heap (snd (run (utilx_parse_name name max_tok true) m))
      = <[parse_block m := Bytes bs]> (heap m).
Proof.
  intros Hg Hk. pose proof (c_str_nul_free name) as Hn.
  rewrite (utilx_parse_name_run _ _ _ _ Hg). cbn zeta.
  rewrite tokens_of_count by assumption.
  replace (min max_tok (length (segments (c_str name))) <? max_tok)%nat
    with false by (symmetry; apply Nat.ltb_ge; lia).
  eexists _, _. cbn [fst snd]. split; [reflexivity |].
  split; [now apply tokens_read |]. split; [| reflexivity].
  apply Forall_map. apply Forall_true. reflexivity.
Qed.

Lemma X8_prefix_mode_tokens_are_segments_witness :
  exists tok bs,
    fst (run (utilx_parse_name (bytes "__rxm__verbs_x") 2 true) empty_mem)
      = (0%Z, tok) /\
    map (fun t =>
           c_string_at t
             (snd (run (utilx_parse_name (bytes "__rxm__verbs_x") 2 true)
                     empty_mem))) tok
      = map Some (take 2 (segments (c_str (bytes "__rxm__verbs_x")))) /\
    Forall (fun t => blk t = parse_block empty_mem) tok /\
    heap (snd (run (utilx_parse_name (bytes "__rxm__verbs_x") 2 true)
                 empty_mem))
      = <[parse_block empty_mem := Bytes bs]> (heap empty_mem).
Proof.
  apply (X8_prefix_mode_tokens_are_segments (bytes "__rxm__verbs_x") 2
           empty_mem).
  - discriminate.
  - vm_compute. lia.
Defined.

(** X9: in non-prefix-only mode, when the name is exactly [max_tok]
    segments joined by single delimiters, [utilx_parse_name] returns 0 and
    the tokens read as these segments; the copy stays allocated. *)
Theorem X9_exact_name_tokens_are_segments (name : list ascii)
    (max_tok : nat) (m : mem) :
  grants m ->
  0 < max_tok ->
  length (segments (c_str name)) = max_tok ->
  strlen name = joined_length (segments (c_str name)) ->
  (Z.of_nat (strlen name) < 2 ^ 31 - 1)%Z ->
  exists tok bs,
    fst (run (utilx_parse_name name max_tok false) m) = (0%Z, tok) /\
    map (fun t =>
           c_string_at t (snd (run (utilx_parse_name name max_tok false) m)))
      tok = map Some (segments (c_str name)) /\
    heap (snd (run (utilx_parse_name name max_tok false) m))
      = <[parse_block m := Bytes bs]> (heap m).
Proof.
  intros Hg Hpos Hlen Hexact Hint. pose proof (c_str_nul_free name) as Hn.
  pose proof (tokens_of_segments max_tok 0 (c_str name) Hn) as Hsegs.
  pose proof (tokens_of_strlen max_tok 0 [] (c_str name) Hn eq_refl) as Hstr.
  pose proof (tokens_read max_tok (c_str name) m Hn) as Hread.
  rewrite take_ge in Hsegs, Hread by lia.
  rewrite (utilx_parse_name_run _ _ _ _ Hg). cbn zeta.
  rewrite tokens_of_count by assumption.
  replace (min max_tok (length (segments (c_str name))) <? max_tok)%nat
    with false by (symmetry; apply Nat.ltb_ge; lia).
  destruct (tokens_of max_tok 0 (c_str name)) as [ts region].
  cbn [fst snd app] in *.
  assert (Hts : ts <> []).
  { intros ->. cbn in Hsegs. rewrite <- Hsegs in Hlen. cbn in Hlen. lia. }
  assert (Hsum : tok_sum ts = S (joined_length (segments (c_str name))))
    by (rewrite tok_sum_joined by assumption; now rewrite Hsegs).
  rewrite parsed_len_tokens by (try assumption; rewrite Hsum; lia).
  rewrite Hsum, to_size_t_id by lia.
  replace (Z.of_nat (strlen name) >?
           Z.of_nat (S (joined_length (segments (c_str name)))) - 1)%Z
    with false by (symmetry; rewrite Z.gtb_ltb; apply Z.ltb_ge; lia).
  eexists _, _. cbn [fst snd]. split; [reflexivity |].
  split; [exact Hread | reflexivity].
Qed.

Lemma X9_exact_name_tokens_are_segments_witness :
  exists tok bs,
    fst (run (utilx_parse_name (bytes "rxm_verbs_IB-1234") 3 false) empty_mem)
      = (0%Z, tok) /\
    map (fun t =>
           c_string_at t
             (snd (run (utilx_parse_name (bytes "rxm_verbs_IB-1234") 3 false)
                     empty_mem))) tok
      = map Some (segments (c_str (bytes "rxm_verbs_IB-1234"))) /\
    heap (snd (run (utilx_parse_name (bytes "rxm_verbs_IB-1234") 3 false)
                 empty_mem))
      = <[parse_block empty_mem := Bytes bs]> (heap empty_mem).
Proof.
  apply (X9_exact_name_tokens_are_segments (bytes "rxm_verbs_IB-1234") 3
           empty_mem).
  - discriminate.
  - lia.
  - reflexivity.
  - reflexivity.
  - reflexivity.
Defined.

(** ** The last token and what follows it *)

Lemma next_token_skip (k : nat) (tk r : list ascii) :
  tk <> [] -> delim_free tk -> nul_free tk ->
  next_token (replicate k delim ++ tk ++ delim :: r) = Some (k, tk, Some r).
Proof.
  intros Hne Hd Hn. unfold next_token.
  assert (Hsp : strspn (replicate k delim ++ tk ++ delim :: r) = k).
  { apply strspn_replicate. destruct tk as [| a tk]; [contradiction |].
    inversion Hd; subst. simpl. congruence. }
  rewrite Hsp, drop_app_length' by (now rewrite length_replicate).
  rewrite strcspn_token by (try assumption; now right).
  rewrite take_app_length, drop_app_length.
  destruct tk; [contradiction | reflexivity].
Qed.

Lemma last_token_char (l t : list ascii) :
  t <> [] -> delim_free t -> last (l ++ t) <> Some delim.
Proof.
  intros Hne Hd Hl. rewrite last_app in Hl.
  destruct (last t) as [c |] eqn:E.
  - injection Hl as ->. apply last_Some_elem_of in E.
    unfold delim_free in Hd. rewrite Forall_forall in Hd.
    now apply (Hd delim).
  - apply last_None in E. contradiction.
Qed.

(** The calls up to a segment that a delimiter follows: the tokens before
    it are the segments before it, each with its terminator, and behind
    its own terminator the rest of the name is untouched. *)
Lemma tokens_of_last_followed (n base : nat) (front tk r3 : list ascii) :
  nul_free front -> nul_free tk -> nul_free r3 ->
  tk <> [] -> delim_free tk ->
  front = [] \/ last front = Some delim ->
  length (segments front) = n ->
  exists ts front',
    tokens_of (S n) base (front ++ tk ++ delim :: r3)
      = (ts ++ [(base + length front, tk)],
         front' ++ tk ++ NUL :: r3 ++ [NUL]) /\
    length front' = length front /\
    map snd ts = segments front /\
    tok_sum ts <= length front /\
    Forall (fun t =>
              base <= fst t /\ nul_free (snd t) /\
              exists a, drop (fst t - base) front' = snd t ++ NUL :: a) ts.
Proof.
  revert base front.
  induction n as [| n IH]; intros base front Hnf Hnt Hnr Hne Hd Hend Hlen.
  - apply length_zero_iff_nil in Hlen.
    pose proof (segments_nil front Hnf Hlen) as Hfront.
    clear Hlen Hend Hnf. revert Hfront. generalize (length front) as k.
    intros k ->. exists [], (replicate k delim). cbn [tokens_of app].
    rewrite next_token_skip by assumption.
    cbn [fst snd]. rewrite length_replicate.
    repeat split; try (now constructor); try lia.
    + f_equal.
      rewrite (app_assoc (replicate k delim) tk (delim :: r3)).
      rewrite take_app_length'
        by (rewrite length_app, length_replicate; reflexivity).
      rewrite <- !app_assoc. reflexivity.
    + rewrite segments_only_delims. reflexivity.
    + unfold tok_sum. simpl. lia.
  - remember (S n) as k eqn:Hk. cbn [tokens_of].
    pose proof (next_token_spec front Hnf) as Hspec.
    destruct (next_token front) as [[[sk t1] rem] |].
    + destruct Hspec as (Hne1 & Hd1 & Hnt1 & Hfront & Hrem).
      destruct rem as [f2 |].
      * assert (Hseg : length (segments f2) = n).
        { rewrite Hfront, segments_delims, segments_token in Hlen
            by assumption. simpl in Hlen. lia. }
        assert (Hend2 : f2 = [] \/ last f2 = Some delim).
        { destruct f2 as [| c f2]; [now left | right].
          destruct Hend as [Hend | Hend];
            [rewrite Hend in Hlen; subst k; discriminate |].
          rewrite Hfront in Hend.
          replace (replicate sk delim ++ t1 ++ delim :: c :: f2)
            with ((replicate sk delim ++ t1 ++ [delim]) ++ c :: f2) in Hend
            by (rewrite <- !app_assoc; reflexivity).
          rewrite last_app in Hend.
          destruct (last (c :: f2)) eqn:E; [assumption |].
          apply last_None in E. discriminate. }
        rewrite Hfront. rewrite <- !app_assoc. cbn [app].
        rewrite (next_token_skip sk t1 (f2 ++ tk ++ delim :: r3))
          by assumption.
        subst k.
        destruct (IH (base + sk + length t1 + 1) f2 Hrem Hnt Hnr Hne Hd
                    Hend2 Hseg)
          as (ts & f2' & Htok & Hlen2 & Hsnd & Hsum & Hall).
        rewrite Htok.
        exists ((base + sk, t1) :: ts),
          (replicate sk delim ++ t1 ++ NUL :: f2').
        repeat split.
        -- cbn [app]. f_equal.
           ++ do 4 f_equal.
              rewrite !length_app, length_replicate. simpl. lia.
           ++ rewrite (app_assoc (replicate sk delim) t1).
              rewrite take_app_length'
                by (rewrite length_app, length_replicate; reflexivity).
              rewrite <- !app_assoc. reflexivity.
        -- rewrite !length_app, !length_replicate. simpl.
           rewrite ?length_app. simpl. lia.
        -- cbn [map snd]. rewrite Hsnd, segments_delims, segments_token
             by assumption. reflexivity.
        -- unfold tok_sum in *. cbn [map snd].
           change (list_sum (S (length t1) :: ?l))
             with (S (length t1) + list_sum l).
           rewrite !length_app, length_replicate. simpl. lia.
        -- constructor.
           ++ cbn [fst snd]. split; [lia |]. split; [assumption |].
              exists f2'. replace (base + sk - base) with sk by lia.
              now rewrite drop_app_length' by (now rewrite length_replicate).
           ++ eapply Forall_impl; [exact Hall |].
              intros [o t] (Ho & Hnt' & a & Ha). cbn [fst snd] in *.
              split; [lia |]. split; [assumption |]. exists a.
              replace (replicate sk delim ++ t1 ++ NUL :: f2')
                with ((replicate sk delim ++ t1 ++ [NUL]) ++ f2')
                by (rewrite <- !app_assoc; reflexivity).
              replace (o - base)
                with (length (replicate sk delim ++ t1 ++ [NUL])
                      + (o - (base + sk + length t1 + 1)))
                by (rewrite !length_app, length_replicate; simpl; lia).
              rewrite drop_app_add. exact Ha.
      * exfalso. destruct Hend as [Hend | Hend].
        -- rewrite Hend in Hlen. subst k. discriminate.
        -- rewrite Hfront, app_nil_r in Hend.
           now apply (last_token_char (replicate sk delim) t1).
    + exfalso. rewrite Hspec, segments_only_delims in Hlen. subst k.
      discriminate.
Qed.

Lemma tok_sum_app (ts us : list (nat * list ascii)) :
  tok_sum (ts ++ us) = tok_sum ts + tok_sum us.
Proof. unfold tok_sum. now rewrite map_app, list_sum_app. Qed.

Lemma drop_within (o : nat) (l k s : list ascii) :
  s <> [] -> drop o l = s -> drop o (l ++ k) = s ++ k.
Proof.
  intros Hne Hd. destruct (le_lt_dec o (length l)) as [Hle | Hgt].
  - now rewrite drop_app_le, Hd by assumption.
  - rewrite drop_ge in Hd by lia. now subst s.
Qed.

(** X10: in non-prefix-only mode, when the [max_tok]-th segment of the name
    is followed by a delimiter, [utilx_parse_name] returns 0; the tokens
    before the last read as the segments before it, and the last token
    reads as everything from the [max_tok]-th segment to the end of the
    name, delimiters included. *)
Theorem X10_last_token_takes_rest (name front tk r3 : list ascii)
    (max_tok : nat) (m : mem) :
  grants m ->
  c_str name = front ++ tk ++ delim :: r3 ->
  tk <> [] -> delim_free tk ->
  front = [] \/ last front = Some delim ->
  max_tok = S (length (segments front)) ->
  (Z.of_nat (strlen name) < 2 ^ 31 - 1)%Z ->
  exists tok last_tok bs,
    fst (run (utilx_parse_name name max_tok false) m)
      = (0%Z, tok ++ [last_tok]) /\
    map (fun t =>
           c_string_at t (snd (run (utilx_parse_name name max_tok false) m)))
      tok = map Some (segments front) /\
    c_string_at last_tok (snd (run (utilx_parse_name name max_tok false) m))
      = Some (tk ++ delim :: r3) /\
    heap (snd (run (utilx_parse_name name max_tok false) m))
      = <[parse_block m := Bytes bs]> (heap m).
Proof.
  intros Hg Hname Hne Hd Hend Hmax Hint.
  pose proof (c_str_nul_free name) as Hn. rewrite Hname in Hn.
  apply Forall_app in Hn as [Hnf Hn]. apply Forall_app in Hn as [Hnt Hnr].
  apply Forall_cons in Hnr as [_ Hnr].
  destruct (tokens_of_last_followed (length (segments front)) 0 front tk r3
              Hnf Hnt Hnr Hne Hd Hend eq_refl)
    as (ts & front' & Htok & Hlen' & Hsnd & Hsum & Hall).
  change (0 + length front) with (length front) in Htok.
  pose proof (tokens_of_strlen max_tok 0 [] (c_str name)
                (c_str_nul_free name) eq_refl) as Hstr.
  assert (Hcount : length ts = length (segments front))
    by (now rewrite <- Hsnd, length_map).
  assert (Hlong : strlen name = length front + length tk + S (length r3)).
  { unfold strlen. rewrite Hname, !length_app. simpl. lia. }
  rewrite (utilx_parse_name_run _ _ _ _ Hg). cbn zeta.
  rewrite Hname in *. subst max_tok. rewrite Htok in *.
  cbn [fst snd app] in *.
  replace (length (ts ++ [(length front, tk)])
           <? S (length (segments front)))%nat
    with false
    by (symmetry; apply Nat.ltb_ge; rewrite length_app; simpl; lia).
  assert (Htot : tok_sum (ts ++ [(length front, tk)])
                 = tok_sum ts + S (length tk)).
  { rewrite tok_sum_app. unfold tok_sum at 2. simpl. lia. }
  rewrite parsed_len_tokens by (try assumption; rewrite Htot; lia).
  rewrite Htot, to_size_t_id by lia.
  replace (Z.of_nat (strlen name) >?
           Z.of_nat (tok_sum ts + S (length tk)) - 1)%Z
    with true by (symmetry; rewrite Z.gtb_ltb; apply Z.ltb_lt; lia).
  replace (S (length (segments front)) - 1) with (length ts) by lia.
  rewrite nth_map_fst_last.
  apply Forall_app in Hstr as [_ Hlast].
  apply Forall_inv in Hlast. cbn [fst snd] in Hlast. rewrite Hlast.
  replace (front' ++ tk ++ NUL :: r3 ++ [NUL])
    with ((front' ++ tk) ++ NUL :: r3 ++ [NUL])
    by (rewrite <- app_assoc; reflexivity).
  rewrite insert_app_r_alt by (rewrite length_app; lia).
  replace (length front + length tk - length (front' ++ tk)) with 0
    by (rewrite length_app; lia).
  cbn [list_insert insert].
  exists (map (Ptr (parse_block m)) (map fst ts)),
    (Ptr (parse_block m) (length front)). eexists. cbn [fst snd].
  split; [now rewrite !map_app |]. split; [| split; [| reflexivity]].
  - rewrite <- Hsnd. clear Hsum Htot Hcount Hsnd Htok.
    induction Hall as [| [o t] us (_ & Hnt' & a & Ha) Hall IH];
      [reflexivity |].
    cbn [map fst snd] in *. rewrite Nat.sub_0_r in Ha.
    rewrite IH. f_equal.
    apply (c_string_at_with_buffer _ _ _ _
             (a ++ tk ++ delim :: r3 ++ [NUL]) Hnt').
    rewrite <- app_assoc.
    rewrite (drop_within o front' _ (t ++ NUL :: a)) by
      first [ assumption | now destruct t ].
    rewrite <- app_assoc. reflexivity.
  - apply (c_string_at_with_buffer _ _ _ _ []).
    + apply Forall_app. split; [assumption |].
      constructor; [discriminate | assumption].
    + rewrite <- (app_assoc front' tk).
      rewrite drop_app_length' by (now symmetry).
      rewrite <- app_assoc. reflexivity.
Qed.

Lemma X10_last_token_takes_rest_witness :
  exists tok last_tok bs,
    fst (run (utilx_parse_name (bytes "rxm_verbs_IB-1234_x") 2 false)
           empty_mem) = (0%Z, tok ++ [last_tok]) /\
    map (fun t =>
           c_string_at t
             (snd (run (utilx_parse_name (bytes "rxm_verbs_IB-1234_x") 2
                          false) empty_mem))) tok
      = map Some (segments (bytes "rxm_")) /\
    c_string_at last_tok
      (snd (run (utilx_parse_name (bytes "rxm_verbs_IB-1234_x") 2 false)
              empty_mem))
      = Some (bytes "verbs" ++ delim :: bytes "IB-1234_x") /\
    heap (snd (run (utilx_parse_name (bytes "rxm_verbs_IB-1234_x") 2 false)
                 empty_mem))
      = <[parse_block empty_mem := Bytes bs]> (heap empty_mem).
Proof.
  apply (X10_last_token_takes_rest (bytes "rxm_verbs_IB-1234_x")
           (bytes "rxm_") (bytes "verbs") (bytes "IB-1234_x") 2 empty_mem).
  - discriminate.
  - reflexivity.
  - discriminate.
  - repeat constructor; discriminate.
  - right. reflexivity.
  - reflexivity.
  - reflexivity.
Defined.

(** ** The layered name check *)

Lemma tokens_of_first (n base : nat) (rest : list ascii) :
  match fst (tokens_of (S n) base rest) with
  | [] => True
  | t :: _ => fst t = base + strspn rest
  end.
Proof.
  cbn [tokens_of]. destruct (next_token rest) as [[[sk tk] rem] |] eqn:E;
    [| exact I].
  apply next_token_skipped in E. subst sk.
  destruct rem as [r3 |]; [| reflexivity].
  now destruct (tokens_of n _ r3).
Qed.

(** The run of the layered name check on a name that holds a segment: the
    value is the comparison with the first segment, and the copy is
    released when the name begins with the segment.  Otherwise [free] is
    handed a pointer into the middle of the copy: the fault is recorded,
    and what the embedding computes behind it (the second case below) is
    no statement about the program. *)
Lemma fi_check_name_layered_run (n pn seg : list ascii)
    (rest : list (list ascii)) (m : mem) :
  grants m -> segments (c_str n) = seg :: rest ->
  exists bs,
    run (fi_check_name n (Some pn) FI_CHECK_LAYERED) m =
      (strcasecmp pn seg,
       match strspn (c_str n) with
       | 0 => after_grant m
       | S k =>
           Mem (<[parse_block m := Bytes bs]> (heap m)) (tail (oracle m))
             (log m)
             (faults m ++ [InvalidFree (Ptr (parse_block m) (S k))])
       end).
Proof.
  intros Hg Hseg. pose proof (c_str_nul_free n) as Hn.
  pose proof (tokens_of_segments 1 0 _ Hn) as Hsegs.
  rewrite Hseg in Hsegs. cbn [take] in Hsegs.
  pose proof (tokens_of_terminated 1 0 _ Hn) as Hterm.
  pose proof (tokens_of_first 0 0 (c_str n)) as Hfirst.
  pose proof (utilx_parse_name_run n 1 true m Hg) as Hrun.
  unfold run in *. unfold fi_check_name, bind. rewrite Hrun. cbn zeta.
  destruct (tokens_of 1 0 (c_str n)) as [ts region]. cbn [fst snd] in *.
  exists region.
  destruct ts as [| [o t] [| ? ?]]; try discriminate.
  cbn [map snd] in Hsegs. injection Hsegs as ->.
  apply Forall_inv in Hterm. destruct Hterm as (_ & Hnt & a & Ha).
  cbn [fst snd] in *. rewrite Nat.sub_0_r in Ha.
  cbn [length Nat.ltb Nat.leb map fst nth Z.eqb deref_string ret].
  unfold load_c_string.
  rewrite (c_string_at_with_buffer region m o seg a Hnt Ha).
  unfold free. cbn [blk off with_buffer heap]. rewrite lookup_insert_eq.
  rewrite Hfirst. cbn [Nat.add].
  destruct (strspn (c_str n)) as [| k].
  - unfold set_heap, ret. cbn [heap oracle log faults].
    rewrite delete_insert_eq, delete_id by apply fresh_not_live.
    reflexivity.
  - reflexivity.
Qed.

(** X11: the layered name check of a name that begins with a segment, the
    copy's allocation granted, returns the case-blind comparison of the
    provider name with that first segment, so it passes exactly when the
    two agree once lowered, and it releases the copy: the heap is the one
    the call started with and nothing is logged or faulted. *)
Theorem X11_layered_name_check_first_segment (n pn seg : list ascii)
    (rest : list (list ascii)) (m : mem) :
  grants m ->
  segments (c_str n) = seg :: rest ->
  head (c_str n) <> Some delim ->
  run (fi_check_name n (Some pn) FI_CHECK_LAYERED) m
    = (strcasecmp pn seg, after_grant m) /\
  (fst (run (fi_check_name n (Some pn) FI_CHECK_LAYERED) m) = 0%Z <->
   map tolower (c_str pn) = map tolower seg).
Proof.
  intros Hg Hseg Hhead.
  destruct (fi_check_name_layered_run n pn seg rest m Hg Hseg) as [bs Hrun].
  assert (Hsp : strspn (c_str n) = 0).
  { destruct (c_str n) as [| c s]; [reflexivity |]. simpl.
    destruct (Ascii.eqb_spec c delim) as [-> | _]; [now destruct Hhead |].
    reflexivity. }
  rewrite Hsp in Hrun. rewrite Hrun. split; [reflexivity |].
  cbn [fst]. rewrite strcasecmp_zero.
  assert (Hnf : nul_free seg).
  { pose proof (tokens_of_terminated 1 0 _ (c_str_nul_free n)) as Hterm.
    pose proof (tokens_of_segments 1 0 _ (c_str_nul_free n)) as Hsegs.
    rewrite Hseg in Hsegs. cbn [take] in Hsegs.
    destruct (tokens_of 1 0 (c_str n)) as [ts region]. cbn [fst snd] in *.
    destruct ts as [| [o t] ts]; [discriminate |].
    cbn [map snd] in Hsegs. injection Hsegs as -> _.
    apply Forall_inv in Hterm. now destruct Hterm as (_ & Hnt & _). }
  now rewrite (c_str_id seg Hnf).
Qed.

Lemma X11_layered_name_check_first_segment_witness :
  run (fi_check_name (bytes "rxm_verbs_IB-1234") (Some (bytes "RXM"))
         FI_CHECK_LAYERED) empty_mem
    = (strcasecmp (bytes "RXM") (bytes "rxm"), after_grant empty_mem) /\
  (fst (run (fi_check_name (bytes "rxm_verbs_IB-1234") (Some (bytes "RXM"))
              FI_CHECK_LAYERED) empty_mem) = 0%Z <->
   map tolower (c_str (bytes "RXM")) = map tolower (bytes "rxm")).
Proof.
  apply (X11_layered_name_check_first_segment (bytes "rxm_verbs_IB-1234")
           (bytes "RXM") (bytes "rxm") [bytes "verbs"; bytes "IB-1234"]
           empty_mem).
  - discriminate.
  - reflexivity.
  - discriminate.
Defined.

(** X12: the layered name check of a name that begins with the delimiter
    and holds a segment, the copy's allocation granted, reaches [free] with
    a pointer past the start of the copy, after a run without fault: the
    first fault of the run is this invalid free, of the block that holds
    the copy at the offset of the first segment.  Behind it the C run is
    undefined, and nothing is stated of it. *)
Theorem X12_layered_name_check_leading_delimiter (n pn seg : list ascii)
    (rest : list (list ascii)) (m : mem) :
  grants m ->
  segments (c_str n) = seg :: rest ->
  head (c_str n) = Some delim ->
  exists k later,
    strspn (c_str n) = S k /\
    heap m !! parse_block m = None /\
    faults (snd (run (fi_check_name n (Some pn) FI_CHECK_LAYERED) m))
      = faults m ++ InvalidFree (Ptr (parse_block m) (S k)) :: later.
Proof.
  intros Hg Hseg Hhead.
  destruct (fi_check_name_layered_run n pn seg rest m Hg Hseg) as [bs Hrun].
  assert (Hsp : exists k, strspn (c_str n) = S k).
  { destruct (c_str n) as [| c s]; [discriminate |]. simpl in *.
    injection Hhead as ->. rewrite Ascii.eqb_refl. eauto. }
  destruct Hsp as [k Hk]. rewrite Hk in Hrun. exists k, [].
  rewrite Hrun. cbn [fst snd faults].
  split; [exact Hk |]. split; [apply fresh_not_live | reflexivity].
Qed.

Lemma X12_layered_name_check_leading_delimiter_witness :
  exists k later,
    strspn (c_str (bytes "_rxm_verbs")) = S k /\
    heap empty_mem !! parse_block empty_mem = None /\
    faults (snd (run (fi_check_name (bytes "_rxm_verbs") (Some (bytes "rxm"))
                       FI_CHECK_LAYERED) empty_mem))
      = faults empty_mem
        ++ InvalidFree (Ptr (parse_block empty_mem) (S k)) :: later.
Proof.
  apply (X12_layered_name_check_leading_delimiter (bytes "_rxm_verbs")
           (bytes "rxm") (bytes "rxm") [bytes "verbs"] empty_mem).
  - discriminate.
  - reflexivity.
  - reflexivity.
Defined.

(** ** Taking a layered name apart *)

Lemma next_token_whole (tk : list ascii) :
  tk <> [] -> delim_free tk -> nul_free tk ->
  next_token tk = Some (0, tk, None).
Proof.
  intros Hne Hd Hn. pose proof (next_token_spec tk Hn) as Hspec.
  assert (Hno : ~ In delim tk).
  { intros Hin. unfold delim_free in Hd. rewrite Forall_forall in Hd.
    apply (Hd delim); [now apply list_elem_of_In | reflexivity]. }
  destruct (next_token tk) as [[[sk t] rem] |].
  - destruct Hspec as (_ & _ & _ & Htk & _).
    destruct sk as [| sk]; [| exfalso; apply Hno; rewrite Htk; now left].
    destruct rem as [r3 |].
    + exfalso. apply Hno. rewrite Htk. apply in_or_app. right.
      apply in_or_app. right. now left.
    + cbn [replicate app] in Htk. rewrite app_nil_r in Htk. now subst t.
  - destruct tk as [| c tk]; [contradiction |]. exfalso. apply Hno.
    rewrite Hspec. now left.
Qed.

(** Two tokens of a name made of a prefix, a delimiter and a base name
    without delimiters. *)
Lemma utilx_parse_name_two_exact (p b : list ascii) (m : mem) :
  grants m ->
  p <> [] -> delim_free p -> nul_free p ->
  b <> [] -> delim_free b -> nul_free b ->
  (Z.of_nat (length p + length b + 2) < 2 ^ 31)%Z ->
  run (utilx_parse_name (p ++ delim :: b) 2 false) m
    = ((0%Z, [Ptr (parse_block m) 0; Ptr (parse_block m) (length p + 1)]),
       with_buffer (p ++ NUL :: b ++ [NUL]) m).
Proof.
  intros Hg Hp Hpd Hpn Hb Hbd Hbn Hint.
  assert (Hname : nul_free (p ++ delim :: b)).
  { apply nul_free_app. split; [assumption |].
    constructor; [apply not_eq_sym, NUL_not_delim | assumption]. }
  pose proof (tokens_of_strlen 2 0 [] _ Hname eq_refl) as Hstr.
  rewrite (utilx_parse_name_run _ _ _ _ Hg). cbn zeta.
  unfold strlen. rewrite (c_str_id _ Hname).
  revert Hstr. cbn [tokens_of].
  rewrite (next_token_token p b) by assumption.
  rewrite (next_token_whole b) by assumption.
  cbn [fst snd app Nat.add]. rewrite take_app_length.
  rewrite !Nat.add_0_r. intros Hstr.
  rewrite (parsed_len_tokens _ [(0, p); (length p + 1, b)] Hstr)
    by (unfold tok_sum; simpl; lia).
  cbn [length map fst Nat.ltb Nat.leb Nat.sub nth].
  unfold tok_sum. cbn [map list_sum fold_right snd].
  rewrite to_size_t_id by lia.
  replace (Z.of_nat (length (p ++ delim :: b)) >?
           Z.of_nat (S (length p) + (S (length b) + 0)) - 1)%Z with false
    by (symmetry; rewrite Z.gtb_ltb; apply Z.ltb_ge; rewrite !length_app;
        simpl; lia).
  reflexivity.
Qed.

(** Two tokens of a name made of a prefix, a delimiter and a base name that
    does not begin with the delimiter: the first token is the prefix, at
    the start of the copy, and the second reads as the whole base name. *)
Lemma utilx_parse_name_prefix_base (p b : list ascii) (m : mem) :
  grants m ->
  p <> [] -> delim_free p -> nul_free p ->
  b <> [] -> head b <> Some delim -> nul_free b ->
  (Z.of_nat (length p + length b + 2) < 2 ^ 31)%Z ->
  run (utilx_parse_name (p ++ delim :: b) 2 false) m
    = ((0%Z, [Ptr (parse_block m) 0; Ptr (parse_block m) (length p + 1)]),
       with_buffer (p ++ NUL :: b ++ [NUL]) m).
Proof.
  intros Hg Hp Hpd Hpn Hb Hhead Hbn Hint.
  destruct (in_dec ascii_dec delim b) as [Hin | Hno].
  - destruct (first_segment b Hbn Hin Hhead)
      as (b1 & r3 & -> & Hb1 & Hb1d & Hb1n & Hr3n).
    rewrite <- app_assoc. cbn [app].
    apply utilx_parse_name_two; try assumption.
    rewrite length_app in Hint. simpl in Hint. lia.
  - apply utilx_parse_name_two_exact; try assumption.
    unfold delim_free. rewrite Forall_forall. intros c Hc ->.
    apply Hno. now apply list_elem_of_In.
Qed.

(** The codec reads its argument as a C string. *)
Lemma utilx_parse_name_c_str (n : list ascii) (max_tok : nat) (g : bool) :
  utilx_parse_name (c_str n) max_tok g = utilx_parse_name n max_tok g.
Proof.
  unfold utilx_parse_name, strdup, strlen.
  now rewrite (c_str_id _ (c_str_nul_free n)).
Qed.

Lemma drop_past_prefix (p b : list ascii) :
  drop (length p + 1) (p ++ NUL :: b ++ [NUL]) = b ++ [NUL].
Proof.
  replace (p ++ NUL :: b ++ [NUL]) with ((p ++ [NUL]) ++ b ++ [NUL])
    by (rewrite <- app_assoc; reflexivity).
  apply drop_app_length'. rewrite length_app. reflexivity.
Qed.

(** A block granted while the copy is live is not the copy's, and was not
    live before. *)
Lemma next_block_fresh (bs : list ascii) (m : mem) :
  parse_block (with_buffer bs m) <> parse_block m /\
  heap m !! parse_block (with_buffer bs m) = None.
Proof.
  pose proof (fresh_not_live (heap (with_buffer bs m))) as Hq.
  fold (parse_block (with_buffer bs m)) in Hq.
  unfold with_buffer at 2 in Hq. cbn [heap] in Hq.
  apply lookup_insert_None in Hq. destruct Hq as [Hq Hne].
  split; [congruence | assumption].
Qed.

(** X13: [utilx_tr_layer_domain_attr] on a layered name made of a prefix
    without delimiters, one delimiter and a base name that does not begin
    with the delimiter, both allocations granted: it returns 0 and gives
    the base attribute a fresh copy of the whole base name, delimiters
    inside it kept, and it releases its working copy, so that the new name
    is the one block added to the heap. *)
Theorem X13_layer_domain_name_translated (layer_attr : fi_domain_attr)
    (n p b : list ascii) (m : mem) :
  dom_name layer_attr = Some n ->
  c_str n = p ++ delim :: b ->
  p <> [] -> delim_free p -> b <> [] -> head b <> Some delim ->
  grants m -> grants (after_grant m) ->
  (Z.of_nat (strlen n) + 1 < 2 ^ 31)%Z ->
  exists q,
    heap m !! q = None /\
    run (utilx_tr_layer_domain_attr layer_attr) m
      = ((0%Z, Some (Ptr q 0, b)),
         Mem (<[q := Bytes (b ++ [NUL])]> (heap m)) (tail (tail (oracle m)))
           (log m) (faults m)).
Proof.
  intros Hname Hn Hp Hpd Hb Hhead Hg Hg' Hint.
  pose proof (c_str_nul_free n) as Hnf. rewrite Hn in Hnf.
  apply nul_free_app in Hnf as [Hpn Hbn]. apply Forall_cons in Hbn as [_ Hbn].
  assert (Hlen : strlen n = length p + S (length b)).
  { unfold strlen. rewrite Hn, length_app. reflexivity. }
  pose proof (utilx_parse_name_prefix_base p b m Hg Hp Hpd Hpn Hb Hhead Hbn)
    as Hrun.
  rewrite <- Hn, utilx_parse_name_c_str in Hrun.
  specialize (Hrun ltac:(lia)).
  set (bs := p ++ NUL :: b ++ [NUL]) in *.
  destruct (next_block_fresh bs m) as [Hq Hfresh].
  exists (parse_block (with_buffer bs m)). split; [assumption |].
  unfold run in *. unfold utilx_tr_layer_domain_attr, bind.
  rewrite Hname. cbn [deref_string ret]. rewrite Hrun.
  cbn [negb Z.eqb nth]. unfold load_c_string.
  rewrite (c_string_at_with_buffer bs m (length p + 1) b [] Hbn)
    by apply drop_past_prefix.
  unfold strdup, bind.
  rewrite (grants_alloc _ _ (grants_with_buffer bs m Hg')).
  cbn [option_map ret]. unfold free. cbn [blk off heap].
  rewrite lookup_insert_ne by assumption.
  change (heap (with_buffer bs m)) with (<[parse_block m := Bytes bs]> (heap m)).
  change (oracle (with_buffer bs m)) with (tail (oracle m)).
  change (log (with_buffer bs m)) with (log m).
  change (faults (with_buffer bs m)) with (faults m).
  rewrite lookup_insert_eq.
  unfold set_heap, ret. cbn [heap oracle log faults].
  rewrite delete_insert_ne by congruence.
  rewrite delete_insert_eq, delete_id by apply fresh_not_live.
  rewrite (c_str_id b Hbn). reflexivity.
Qed.

Lemma X13_layer_domain_name_translated_witness :
  exists q,
    heap empty_mem !! q = None /\
    run (utilx_tr_layer_domain_attr
           (set_dom_name (Some (bytes "rxm_mlx5_0")) dom_none)) empty_mem
      = ((0%Z, Some (Ptr q 0, bytes "mlx5_0")),
         Mem (<[q := Bytes (bytes "mlx5_0" ++ [NUL])]> (heap empty_mem))
           (tail (tail (oracle empty_mem))) (log empty_mem)
           (faults empty_mem)).
Proof.
  apply (X13_layer_domain_name_translated
           (set_dom_name (Some (bytes "rxm_mlx5_0")) dom_none)
           (bytes "rxm_mlx5_0") (bytes "rxm") (bytes "mlx5_0") empty_mem).
  - reflexivity.
  - reflexivity.
  - discriminate.
  - repeat constructor; discriminate.
  - discriminate.
  - discriminate.
  - discriminate.
  - discriminate.
  - reflexivity.
Defined.

(** X14: [utilx_tr_layer_domain_attr] on a layered name with fewer than two
    segments returns [-FI_EOTHER] without a base name, and the only trace
    it leaves is the allocation it used: the heap, the log and the faults
    are as before. *)
Theorem X14_layer_domain_name_malformed (layer_attr : fi_domain_attr)
    (n : list ascii) (m : mem) :
  dom_name layer_attr = Some n ->
  grants m ->
  length (segments (c_str n)) < 2 ->
  run (utilx_tr_layer_domain_attr layer_attr) m
    = (((- FI_EOTHER)%Z, None), after_grant m).
Proof.
  intros Hname Hg Hlt.
  pose proof (utilx_parse_name_run n 2 false m Hg) as Hrun.
  cbn zeta in Hrun. rewrite tokens_of_count in Hrun by apply c_str_nul_free.
  replace (min 2 (length (segments (c_str n))) <? 2)%nat with true in Hrun
    by (symmetry; apply Nat.ltb_lt; lia).
  unfold run in *. unfold utilx_tr_layer_domain_attr, bind.
  rewrite Hname. cbn [deref_string ret]. rewrite Hrun. reflexivity.
Qed.

Lemma X14_layer_domain_name_malformed_witness :
  run (utilx_tr_layer_domain_attr
         (set_dom_name (Some (bytes "mlx5")) dom_none)) empty_mem
    = (((- FI_EOTHER)%Z, None), after_grant empty_mem).
Proof.
  apply (X14_layer_domain_name_malformed
           (set_dom_name (Some (bytes "mlx5")) dom_none) (bytes "mlx5")
           empty_mem).
  - reflexivity.
  - discriminate.
  - vm_compute. lia.
Defined.

(** X15: when the copy of the base name is refused,
    [utilx_tr_layer_domain_attr] returns [-FI_ENOMEM] without a base name
    and still releases its working copy: the heap is the one the call
    started with. *)
Theorem X15_layer_domain_name_copy_refused (layer_attr : fi_domain_attr)
    (n p b : list ascii) (o : list bool) (m : mem) :
  dom_name layer_attr = Some n ->
  c_str n = p ++ delim :: b ->
  p <> [] -> delim_free p -> b <> [] -> head b <> Some delim ->
  grants m -> oracle (after_grant m) = false :: o ->
  (Z.of_nat (strlen n) + 1 < 2 ^ 31)%Z ->
  run (utilx_tr_layer_domain_attr layer_attr) m
    = (((- FI_ENOMEM)%Z, None), Mem (heap m) o (log m) (faults m)).
Proof.
  intros Hname Hn Hp Hpd Hb Hhead Hg Ho Hint.
  pose proof (c_str_nul_free n) as Hnf. rewrite Hn in Hnf.
  apply nul_free_app in Hnf as [Hpn Hbn]. apply Forall_cons in Hbn as [_ Hbn].
  assert (Hlen : strlen n = length p + S (length b)).
  { unfold strlen. rewrite Hn, length_app. reflexivity. }
  pose proof (utilx_parse_name_prefix_base p b m Hg Hp Hpd Hpn Hb Hhead Hbn)
    as Hrun.
  rewrite <- Hn, utilx_parse_name_c_str in Hrun.
  specialize (Hrun ltac:(lia)).
  set (bs := p ++ NUL :: b ++ [NUL]) in *.
  unfold run in *. unfold utilx_tr_layer_domain_attr, bind.
  rewrite Hname. cbn [deref_string ret]. rewrite Hrun.
  cbn [negb Z.eqb nth]. unfold load_c_string.
  rewrite (c_string_at_with_buffer bs m (length p + 1) b [] Hbn)
    by apply drop_past_prefix.
  unfold strdup, bind, alloc.
  change (oracle (with_buffer bs m)) with (oracle (after_grant m)).
  rewrite Ho. cbn [option_map ret]. unfold free. cbn [blk off heap].
  change (heap (with_buffer bs m)) with (<[parse_block m := Bytes bs]> (heap m)).
  rewrite lookup_insert_eq.
  unfold set_heap, ret. cbn [heap oracle log faults].
  rewrite delete_insert_eq, delete_id by apply fresh_not_live.
  reflexivity.
Qed.

Lemma X15_layer_domain_name_copy_refused_witness :
  run (utilx_tr_layer_domain_attr
         (set_dom_name (Some (bytes "rxm_mlx5_0")) dom_none))
    (Mem ∅ [true; false] [] [])
    = (((- FI_ENOMEM)%Z, None), Mem ∅ [] [] []).
Proof.
  apply (X15_layer_domain_name_copy_refused
           (set_dom_name (Some (bytes "rxm_mlx5_0")) dom_none)
           (bytes "rxm_mlx5_0") (bytes "rxm") (bytes "mlx5_0") []
           (Mem ∅ [true; false] [] [])).
  - reflexivity.
  - reflexivity.
  - discriminate.
  - repeat constructor; discriminate.
  - discriminate.
  - discriminate.
  - discriminate.
  - reflexivity.
  - reflexivity.
Defined.

(** X16: when the first allocation is refused, each of the four name
    translations, given the names it reads, returns [-FI_ENOMEM] and
    assigns no name; the refusal is all that happened: the heap, the log
    and the faults are as they were. *)
Theorem X16_translation_first_allocation_refused
    (layer_dom base_dom : fi_domain_attr)
    (layer_fab base_fab : fi_fabric_attr)
    (prefix ldn lfn bdn bfn bfp : list ascii) (o : list bool) (m : mem) :
  dom_name layer_dom = Some ldn ->
  fab_name layer_fab = Some lfn ->
  dom_name base_dom = Some bdn ->
  fab_name base_fab = Some bfn ->
  fab_prov_name base_fab = Some bfp ->
  oracle m = false :: o ->
  run (utilx_tr_layer_domain_attr layer_dom) m
    = (((- FI_ENOMEM)%Z, None), Mem (heap m) o (log m) (faults m)) /\
  run (utilx_tr_layer_fabric_attr layer_fab) m
    = (((- FI_ENOMEM)%Z, None, None), Mem (heap m) o (log m) (faults m)) /\
  run (utilx_tr_base_domain_attr base_dom prefix) m
    = (((- FI_ENOMEM)%Z, None), Mem (heap m) o (log m) (faults m)) /\
  run (utilx_tr_base_fabric_attr base_fab prefix) m
    = (((- FI_ENOMEM)%Z, None), Mem (heap m) o (log m) (faults m)).
Proof.
  intros Hld Hlf Hbd Hbf Hbp Ho.
  unfold run, utilx_tr_layer_domain_attr, utilx_tr_layer_fabric_attr,
    utilx_tr_base_domain_attr, utilx_tr_base_fabric_attr, utilx_parse_name,
    strdup, malloc, deref_string, bind, alloc, ret.
  rewrite Hld, Hlf, Hbd, Hbf, Hbp, Ho. repeat split.
Qed.

Lemma X16_translation_first_allocation_refused_witness :
  run (utilx_tr_layer_domain_attr
         (set_dom_name (Some (bytes "rxm_mlx5_0")) dom_none))
    (Mem ∅ [false] [] [])
    = (((- FI_ENOMEM)%Z, None), Mem ∅ [] [] []) /\
  run (utilx_tr_layer_fabric_attr
         (set_fab_name (Some (bytes "rxm_verbs_IB-1234")) fab_none))
    (Mem ∅ [false] [] [])
    = (((- FI_ENOMEM)%Z, None, None), Mem ∅ [] [] []) /\
  run (utilx_tr_base_domain_attr
         (set_dom_name (Some (bytes "mlx5_0")) dom_none) (bytes "rxm"))
    (Mem ∅ [false] [] [])
    = (((- FI_ENOMEM)%Z, None), Mem ∅ [] [] []) /\
  run (utilx_tr_base_fabric_attr
         {| fab_name := Some (bytes "IB-1234");
            fab_prov_name := Some (bytes "verbs"); fab_prov_version := 0 |}
         (bytes "rxm"))
    (Mem ∅ [false] [] [])
    = (((- FI_ENOMEM)%Z, None), Mem ∅ [] [] []).
Proof.
  apply (X16_translation_first_allocation_refused
           (set_dom_name (Some (bytes "rxm_mlx5_0")) dom_none)
           (set_dom_name (Some (bytes "mlx5_0")) dom_none)
           (set_fab_name (Some (bytes "rxm_verbs_IB-1234")) fab_none)
           {| fab_name := Some (bytes "IB-1234");
              fab_prov_name := Some (bytes "verbs"); fab_prov_version := 0 |}
           (bytes "rxm") (bytes "rxm_mlx5_0") (bytes "rxm_verbs_IB-1234")
           (bytes "mlx5_0") (bytes "IB-1234") (bytes "verbs") []
           (Mem ∅ [false] [] [])).
  - reflexivity.
  - reflexivity.
  - reflexivity.
  - reflexivity.
  - reflexivity.
  - reflexivity.
Defined.

Lemma utilx_parse_name_three (p v b1 r3 : list ascii) (m : mem) :
  grants m ->
  p <> [] -> delim_free p -> nul_free p ->
  v <> [] -> delim_free v -> nul_free v ->
  b1 <> [] -> delim_free b1 -> nul_free b1 -> nul_free r3 ->
  (Z.of_nat (length p + length v + length b1 + 3) < 2 ^ 31)%Z ->
  run (utilx_parse_name (p ++ delim :: v ++ delim :: b1 ++ delim :: r3) 3
         false) m
    = ((0%Z, [Ptr (parse_block m) 0; Ptr (parse_block m) (length p + 1);
              Ptr (parse_block m) (length p + 1 + length v + 1)]),
       with_buffer (p ++ NUL :: v ++ NUL :: b1 ++ delim :: r3 ++ [NUL]) m).
Proof.
  intros Hg Hp Hpd Hpn Hv Hvd Hvn Hb Hbd Hbn Hrn Hint.
  assert (Hname : nul_free (p ++ delim :: v ++ delim :: b1 ++ delim :: r3)).
  { repeat (apply nul_free_app; split; [assumption |];
            constructor; [apply not_eq_sym, NUL_not_delim |]).
    assumption. }
  pose proof (tokens_of_strlen 3 0 [] _ Hname eq_refl) as Hstr.
  rewrite (utilx_parse_name_run _ _ _ _ Hg). cbn zeta.
  unfold strlen. rewrite (c_str_id _ Hname).
  revert Hstr. cbn [tokens_of].
  rewrite (next_token_token p (v ++ delim :: b1 ++ delim :: r3))
    by assumption.
  rewrite (next_token_token v (b1 ++ delim :: r3)) by assumption.
  rewrite (next_token_token b1 r3) by assumption.
  cbn [fst snd app Nat.add]. rewrite !Nat.add_0_r, !take_app_length.
  intros Hstr.
  rewrite (parsed_len_tokens _
             [(0, p); (length p + 1, v); (length p + 1 + length v + 1, b1)]
             Hstr)
    by (unfold tok_sum; simpl; lia).
  cbn [length map fst Nat.ltb Nat.leb Nat.sub nth].
  unfold tok_sum. cbn [map list_sum fold_right snd].
  rewrite to_size_t_id by lia.
  replace (Z.of_nat (length (p ++ delim :: v ++ delim :: b1 ++ delim :: r3))
           >? Z.of_nat (S (length p) + (S (length v) + (S (length b1) + 0)))
              - 1)%Z with true
    by (symmetry; apply Z.gtb_lt; rewrite !length_app; simpl;
        rewrite !length_app; simpl; rewrite !length_app; simpl; lia).
  inversion Hstr as [| ? ? _ Hstr']. inversion Hstr' as [| ? ? _ Hstr''].
  inversion Hstr'' as [| ? ? Hlast _].
  cbn [fst snd] in Hlast. rewrite Hlast.
  f_equal. f_equal.
  replace (p ++ NUL :: v ++ NUL :: b1 ++ NUL :: r3 ++ [NUL])
    with ((p ++ NUL :: v ++ NUL :: b1) ++ NUL :: r3 ++ [NUL])
    by (rewrite <- !app_assoc; cbn [app]; rewrite <- !app_assoc;
        reflexivity).
  rewrite (insert_app_r_alt (p ++ NUL :: v ++ NUL :: b1))
    by (rewrite !length_app; simpl; rewrite !length_app; simpl; lia).
  replace (length p + 1 + length v + 1 + length b1
           - length (p ++ NUL :: v ++ NUL :: b1)) with 0
    by (rewrite !length_app; simpl; rewrite !length_app; simpl; lia).
  simpl. rewrite <- !app_assoc. cbn [app]. rewrite <- !app_assoc.
  reflexivity.
Qed.

Lemma utilx_parse_name_three_exact (p v b : list ascii) (m : mem) :
  grants m ->
  p <> [] -> delim_free p -> nul_free p ->
  v <> [] -> delim_free v -> nul_free v ->
  b <> [] -> delim_free b -> nul_free b ->
  (Z.of_nat (length p + length v + length b + 3) < 2 ^ 31)%Z ->
  run (utilx_parse_name (p ++ delim :: v ++ delim :: b) 3 false) m
    = ((0%Z, [Ptr (parse_block m) 0; Ptr (parse_block m) (length p + 1);
              Ptr (parse_block m) (length p + 1 + length v + 1)]),
       with_buffer (p ++ NUL :: v ++ NUL :: b ++ [NUL]) m).
Proof.
  intros Hg Hp Hpd Hpn Hv Hvd Hvn Hb Hbd Hbn Hint.
  assert (Hname : nul_free (p ++ delim :: v ++ delim :: b)).
  { repeat (apply nul_free_app; split; [assumption |];
            constructor; [apply not_eq_sym, NUL_not_delim |]).
    assumption. }
  pose proof (tokens_of_strlen 3 0 [] _ Hname eq_refl) as Hstr.
  rewrite (utilx_parse_name_run _ _ _ _ Hg). cbn zeta.
  unfold strlen. rewrite (c_str_id _ Hname).
  revert Hstr. cbn [tokens_of].
  rewrite (next_token_token p (v ++ delim :: b)) by assumption.
  rewrite (next_token_token v b) by assumption.
  rewrite (next_token_whole b) by assumption.
  cbn [fst snd app Nat.add]. rewrite !Nat.add_0_r, !take_app_length.
  intros Hstr.
  rewrite (parsed_len_tokens _
             [(0, p); (length p + 1, v); (length p + 1 + length v + 1, b)]
             Hstr)
    by (unfold tok_sum; simpl; lia).
  cbn [length map fst Nat.ltb Nat.leb Nat.sub nth].
  unfold tok_sum. cbn [map list_sum fold_right snd].
  rewrite to_size_t_id by lia.
  replace (Z.of_nat (length (p ++ delim :: v ++ delim :: b))
           >? Z.of_nat (S (length p) + (S (length v) + (S (length b) + 0)))
              - 1)%Z with false
    by (symmetry; rewrite Z.gtb_ltb; apply Z.ltb_ge; rewrite !length_app;
        simpl; rewrite !length_app; simpl; lia).
  reflexivity.
Qed.

(** Three tokens of a name made of a prefix, a provider name and a base
    name that does not begin with the delimiter. *)
Lemma utilx_parse_name_prefix_prov_base (p v b : list ascii) (m : mem) :
  grants m ->
  p <> [] -> delim_free p -> nul_free p ->
  v <> [] -> delim_free v -> nul_free v ->
  b <> [] -> head b <> Some delim -> nul_free b ->
  (Z.of_nat (length p + length v + length b + 3) < 2 ^ 31)%Z ->
  run (utilx_parse_name (p ++ delim :: v ++ delim :: b) 3 false) m
    = ((0%Z, [Ptr (parse_block m) 0; Ptr (parse_block m) (length p + 1);
              Ptr (parse_block m) (length p + 1 + length v + 1)]),
       with_buffer (p ++ NUL :: v ++ NUL :: b ++ [NUL]) m).
Proof.
  intros Hg Hp Hpd Hpn Hv Hvd Hvn Hb Hhead Hbn Hint.
  destruct (in_dec ascii_dec delim b) as [Hin | Hno].
  - destruct (first_segment b Hbn Hin Hhead)
      as (b1 & r3 & -> & Hb1 & Hb1d & Hb1n & Hr3n).
    rewrite <- !app_assoc. cbn [app].
    apply utilx_parse_name_three; try assumption.
    rewrite length_app in Hint. simpl in Hint. lia.
  - apply utilx_parse_name_three_exact; try assumption.
    unfold delim_free. rewrite Forall_forall. intros c Hc ->.
    apply Hno. now apply list_elem_of_In.
Qed.

Lemma c_string_at_heap (m : mem) (b o : nat) (bs s a : list ascii) :
  heap m !! b = Some (Bytes bs) -> nul_free s -> drop o bs = s ++ NUL :: a ->
  c_string_at (Ptr b o) m = Some s.
Proof.
  intros Hb Hs Hd. unfold c_string_at, buffer. cbn [blk off].
  rewrite Hb, Hd, terminated_app_nul, c_str_app_nul by assumption.
  reflexivity.
Qed.

Lemma drop_past_two (p v rest : list ascii) :
  drop (length p + 1 + length v + 1) (p ++ NUL :: v ++ NUL :: rest) = rest.
Proof.
  replace (p ++ NUL :: v ++ NUL :: rest)
    with ((p ++ NUL :: v ++ [NUL]) ++ rest)
    by (rewrite <- !app_assoc; cbn [app]; rewrite <- !app_assoc;
        reflexivity).
  apply drop_app_length'. rewrite !length_app. simpl.
  rewrite !length_app. simpl. lia.
Qed.

Lemma drop_past_one (p rest : list ascii) :
  drop (length p + 1) (p ++ NUL :: rest) = rest.
Proof.
  replace (p ++ NUL :: rest) with ((p ++ [NUL]) ++ rest)
    by (rewrite <- app_assoc; reflexivity).
  apply drop_app_length'. rewrite length_app. reflexivity.
Qed.

(** X17: [utilx_tr_layer_fabric_attr] on a layered name made of a prefix
    and a provider name, neither holding a delimiter, and a base name that
    does not begin with the delimiter, the three allocations granted: it
    returns 0, gives the base attribute fresh copies of the whole base
    name and of the provider name, and releases its working copy, so that
    the two names are the blocks added to the heap. *)
Theorem X17_layer_fabric_name_translated (layer_attr : fi_fabric_attr)
    (n p v b : list ascii) (m : mem) :
  fab_name layer_attr = Some n ->
  c_str n = p ++ delim :: v ++ delim :: b ->
  p <> [] -> delim_free p -> v <> [] -> delim_free v ->
  b <> [] -> head b <> Some delim ->
  grants m -> grants (after_grant m) ->
  grants (after_grant (after_grant m)) ->
  (Z.of_nat (strlen n) + 1 < 2 ^ 31)%Z ->
  exists q r,
    q <> r /\ heap m !! q = None /\ heap m !! r = None /\
    run (utilx_tr_layer_fabric_attr layer_attr) m
      = ((0%Z, Some (Ptr q 0, b), Some (Ptr r 0, v)),
         Mem (<[r := Bytes (v ++ [NUL])]>
                (<[q := Bytes (b ++ [NUL])]> (heap m)))
           (tail (tail (tail (oracle m)))) (log m) (faults m)).
Proof.
  intros Hname Hn Hp Hpd Hv Hvd Hb Hhead Hg Hg' Hg'' Hint.
  pose proof (c_str_nul_free n) as Hnf. rewrite Hn in Hnf.
  apply nul_free_app in Hnf as [Hpn Hnf].
  apply Forall_cons in Hnf as [_ Hnf].
  apply nul_free_app in Hnf as [Hvn Hbn].
  apply Forall_cons in Hbn as [_ Hbn].
  assert (Hlen : strlen n = length p + S (length v + S (length b))).
  { unfold strlen. rewrite Hn, length_app. simpl. rewrite length_app.
    reflexivity. }
  pose proof (utilx_parse_name_prefix_prov_base p v b m Hg Hp Hpd Hpn Hv Hvd
                Hvn Hb Hhead Hbn) as Hrun.
  rewrite <- Hn, utilx_parse_name_c_str in Hrun.
  specialize (Hrun ltac:(lia)).
  set (bs := p ++ NUL :: v ++ NUL :: b ++ [NUL]) in *.
  set (m1 := with_buffer bs m) in *.
  set (m2 := with_buffer (b ++ [NUL]) m1).
  destruct (next_block_fresh bs m) as [Hq Hfresh]. fold m1 in Hq, Hfresh.
  destruct (next_block_fresh (b ++ [NUL]) m1) as [Hr Hfresh'].
  fold m2 in Hr, Hfresh'.
  change (heap m1) with (<[parse_block m := Bytes bs]> (heap m)) in Hfresh'.
  apply lookup_insert_None in Hfresh' as [Hfresh' Hr'].
  exists (parse_block m1), (parse_block m2).
  split; [congruence |]. split; [assumption |]. split; [assumption |].
  unfold run in *. unfold utilx_tr_layer_fabric_attr, bind.
  rewrite Hname. cbn [deref_string ret]. rewrite Hrun.
  cbn [negb Z.eqb nth]. unfold load_c_string.
  rewrite (c_string_at_with_buffer bs m _ b [] Hbn)
    by apply drop_past_two.
  unfold strdup, bind.
  rewrite (grants_alloc _ _ (grants_with_buffer bs m Hg')).
  cbn [option_map ret]. rewrite (c_str_id b Hbn).
  fold m1. change (Mem (<[parse_block m1 := Bytes (b ++ [NUL])]> (heap m1))
                     (tail (oracle m1)) (log m1) (faults m1)) with m2.
  rewrite (c_string_at_heap m2 (parse_block m) (length p + 1) bs v
             (b ++ [NUL])); try assumption.
  - rewrite (grants_alloc _ m2) by exact Hg''.
    cbn [option_map ret]. rewrite (c_str_id v Hvn).
    unfold free. cbn [blk off heap].
    change (heap m2)
      with (<[parse_block m1 := Bytes (b ++ [NUL])]>
              (<[parse_block m := Bytes bs]> (heap m))).
    rewrite !lookup_insert_ne by congruence. rewrite lookup_insert_eq.
    unfold set_heap, ret. cbn [heap oracle log faults].
    rewrite !delete_insert_ne by congruence.
    rewrite delete_insert_eq, delete_id by apply fresh_not_live.
    reflexivity.
  - change (heap m2)
      with (<[parse_block m1 := Bytes (b ++ [NUL])]>
              (<[parse_block m := Bytes bs]> (heap m))).
    rewrite lookup_insert_ne by congruence. apply lookup_insert_eq.
  - apply drop_past_one.
Qed.

Lemma X17_layer_fabric_name_translated_witness :
  exists q r,
    q <> r /\ heap empty_mem !! q = None /\ heap empty_mem !! r = None /\
    run (utilx_tr_layer_fabric_attr
           (set_fab_name (Some (bytes "rxm_verbs_IB-1234")) fab_none))
      empty_mem
      = ((0%Z, Some (Ptr q 0, bytes "IB-1234"), Some (Ptr r 0, bytes "verbs")),
         Mem (<[r := Bytes (bytes "verbs" ++ [NUL])]>
                (<[q := Bytes (bytes "IB-1234" ++ [NUL])]> (heap empty_mem)))
           (tail (tail (tail (oracle empty_mem)))) (log empty_mem)
           (faults empty_mem)).
Proof.
  apply (X17_layer_fabric_name_translated
           (set_fab_name (Some (bytes "rxm_verbs_IB-1234")) fab_none)
           (bytes "rxm_verbs_IB-1234") (bytes "rxm") (bytes "verbs")
           (bytes "IB-1234") empty_mem).
  - reflexivity.
  - reflexivity.
  - discriminate.
  - repeat constructor; discriminate.
  - discriminate.
  - repeat constructor; discriminate.
  - discriminate.
  - discriminate.
  - discriminate.
  - discriminate.
  - discriminate.
  - reflexivity.
Defined.

(** X18: when the copy of the provider name is refused after the copy of
    the base name was granted, [utilx_tr_layer_fabric_attr] returns
    [-FI_ENOMEM] and releases its working copy, but the base attribute
    keeps the base name it was given: that block stays allocated, for the
    caller to release. *)
Theorem X18_layer_fabric_prov_name_refused (layer_attr : fi_fabric_attr)
    (n p v b : list ascii) (o : list bool) (m : mem) :
  fab_name layer_attr = Some n ->
  c_str n = p ++ delim :: v ++ delim :: b ->
  p <> [] -> delim_free p -> v <> [] -> delim_free v ->
  b <> [] -> head b <> Some delim ->
  grants m -> grants (after_grant m) ->
  oracle (after_grant (after_grant m)) = false :: o ->
  (Z.of_nat (strlen n) + 1 < 2 ^ 31)%Z ->
  exists q,
    heap m !! q = None /\
    run (utilx_tr_layer_fabric_attr layer_attr) m
      = (((- FI_ENOMEM)%Z, Some (Ptr q 0, b), None),
         Mem (<[q := Bytes (b ++ [NUL])]> (heap m)) o (log m) (faults m)).
Proof.
  intros Hname Hn Hp Hpd Hv Hvd Hb Hhead Hg Hg' Ho Hint.
  pose proof (c_str_nul_free n) as Hnf. rewrite Hn in Hnf.
  apply nul_free_app in Hnf as [Hpn Hnf].
  apply Forall_cons in Hnf as [_ Hnf].
  apply nul_free_app in Hnf as [Hvn Hbn].
  apply Forall_cons in Hbn as [_ Hbn].
  assert (Hlen : strlen n = length p + S (length v + S (length b))).
  { unfold strlen. rewrite Hn, length_app. simpl. rewrite length_app.
    reflexivity. }
  pose proof (utilx_parse_name_prefix_prov_base p v b m Hg Hp Hpd Hpn Hv Hvd
                Hvn Hb Hhead Hbn) as Hrun.
  rewrite <- Hn, utilx_parse_name_c_str in Hrun.
  specialize (Hrun ltac:(lia)).
  set (bs := p ++ NUL :: v ++ NUL :: b ++ [NUL]) in *.
  set (m1 := with_buffer bs m) in *.
  set (m2 := with_buffer (b ++ [NUL]) m1).
  destruct (next_block_fresh bs m) as [Hq Hfresh]. fold m1 in Hq, Hfresh.
  exists (parse_block m1). split; [assumption |].
  unfold run in *. unfold utilx_tr_layer_fabric_attr, bind.
  rewrite Hname. cbn [deref_string ret]. rewrite Hrun.
  cbn [negb Z.eqb nth]. unfold load_c_string.
  rewrite (c_string_at_with_buffer bs m _ b [] Hbn)
    by apply drop_past_two.
  unfold strdup, bind.
  rewrite (grants_alloc _ _ (grants_with_buffer bs m Hg')).
  cbn [option_map ret]. rewrite (c_str_id b Hbn).
  fold m1. change (Mem (<[parse_block m1 := Bytes (b ++ [NUL])]> (heap m1))
                     (tail (oracle m1)) (log m1) (faults m1)) with m2.
  rewrite (c_string_at_heap m2 (parse_block m) (length p + 1) bs v
             (b ++ [NUL])); try assumption.
  - unfold alloc.
    change (oracle m2) with (oracle (after_grant (after_grant m))).
    rewrite Ho. cbn [option_map ret]. unfold free. cbn [blk off heap].
    change (heap m2)
      with (<[parse_block m1 := Bytes (b ++ [NUL])]>
              (<[parse_block m := Bytes bs]> (heap m))).
    rewrite lookup_insert_ne by congruence. rewrite lookup_insert_eq.
    unfold set_heap, ret. cbn [heap oracle log faults].
    rewrite delete_insert_ne by congruence.
    rewrite delete_insert_eq, delete_id by apply fresh_not_live.
    reflexivity.
  - change (heap m2)
      with (<[parse_block m1 := Bytes (b ++ [NUL])]>
              (<[parse_block m := Bytes bs]> (heap m))).
    rewrite lookup_insert_ne by congruence. apply lookup_insert_eq.
  - apply drop_past_one.
Qed.

Lemma X18_layer_fabric_prov_name_refused_witness :
  exists q,
    heap (Mem ∅ [true; true; false] [] []) !! q = None /\
    run (utilx_tr_layer_fabric_attr
           (set_fab_name (Some (bytes "rxm_verbs_IB-1234")) fab_none))
      (Mem ∅ [true; true; false] [] [])
      = (((- FI_ENOMEM)%Z, Some (Ptr q 0, bytes "IB-1234"), None),
         Mem (<[q := Bytes (bytes "IB-1234" ++ [NUL])]>
                (heap (Mem ∅ [true; true; false] [] [])))
           [] (log (Mem ∅ [true; true; false] [] []))
           (faults (Mem ∅ [true; true; false] [] []))).
Proof.
  apply (X18_layer_fabric_prov_name_refused
           (set_fab_name (Some (bytes "rxm_verbs_IB-1234")) fab_none)
           (bytes "rxm_verbs_IB-1234") (bytes "rxm") (bytes "verbs")
           (bytes "IB-1234") [] (Mem ∅ [true; true; false] [] [])).
  - reflexivity.
  - reflexivity.
  - discriminate.
  - repeat constructor; discriminate.
  - discriminate.
  - repeat constructor; discriminate.
  - discriminate.
  - discriminate.
  - discriminate.
  - discriminate.
  - reflexivity.
  - reflexivity.
Defined.

(** ** Putting a layered name together *)

(** X19: with the allocation granted and the names present,
    [utilx_tr_base_domain_attr] and [utilx_tr_base_fabric_attr] return 0
    and the block they asked [malloc] for holds, from its first byte to
    its last, the prefix, the delimiter and the base domain name, or the
    prefix, the provider name and the base fabric name with delimiters
    between, and the terminator: the length handed to [malloc] and to
    [snprintf] is the length of these bytes, so [snprintf] cuts nothing
    and no byte of the block is left unwritten. *)
Theorem X19_composed_names_fill_their_blocks
    (base_dom : fi_domain_attr) (base_fab : fi_fabric_attr)
    (prefix dn fn fp : list ascii) (m : mem) :
  dom_name base_dom = Some dn ->
  fab_name base_fab = Some fn ->
  fab_prov_name base_fab = Some fp ->
  grants m ->
  (run (utilx_tr_base_domain_attr base_dom prefix) m
     = ((0%Z, Some (Ptr (parse_block m) 0,
                    c_str prefix ++ delim :: c_str dn)),
        with_buffer (c_str prefix ++ delim :: c_str dn ++ [NUL]) m) /\
   length (buffer (parse_block m)
             (snd (run (utilx_tr_base_domain_attr base_dom prefix) m)))
     = strlen prefix + strlen dn + 2) /\
  (run (utilx_tr_base_fabric_attr base_fab prefix) m
     = ((0%Z, Some (Ptr (parse_block m) 0,
                    c_str prefix ++ delim :: c_str fp ++ delim :: c_str fn)),
        with_buffer
          (c_str prefix ++ delim :: c_str fp ++ delim :: c_str fn ++ [NUL])
          m) /\
   length (buffer (parse_block m)
             (snd (run (utilx_tr_base_fabric_attr base_fab prefix) m)))
     = strlen prefix + strlen fn + strlen fp + 3).
Proof.
  intros Hdn Hfn Hfp Hg.
  assert (Hfab :
            run (utilx_tr_base_fabric_attr base_fab prefix) m
            = ((0%Z, Some (Ptr (parse_block m) 0,
                           c_str prefix ++ delim :: c_str fp
                             ++ delim :: c_str fn)),
               with_buffer
                 (c_str prefix ++ delim :: c_str fp ++ delim :: c_str fn
                    ++ [NUL]) m)).
  { unfold run, utilx_tr_base_fabric_attr, bind, malloc.
    rewrite Hfn, Hfp. cbn [deref_string ret].
    rewrite (grants_alloc _ _ Hg). unfold buffer. cbn [heap].
    rewrite lookup_insert_eq.
    rewrite snprintf_at_fits
      by (unfold strlen; rewrite !length_app; simpl; rewrite ?length_app;
          simpl; lia).
    unfold store_buffer, set_heap. cbn [heap oracle log faults].
    rewrite insert_insert_eq.
    rewrite <- (app_nil_l [NUL]) at 2.
    rewrite c_str_app_nul.
    - unfold with_buffer. cbn [app].
      repeat (rewrite <- app_assoc; cbn [app]). reflexivity.
    - apply nul_free_app. split; [apply c_str_nul_free |].
      constructor; [apply not_eq_sym, NUL_not_delim |].
      apply nul_free_app. split; [apply c_str_nul_free |].
      constructor; [apply not_eq_sym, NUL_not_delim | apply c_str_nul_free]. }
  split; split.
  - now apply utilx_tr_base_domain_attr_run.
  - rewrite (utilx_tr_base_domain_attr_run _ _ _ _ Hdn Hg). cbn [snd].
    rewrite buffer_with_buffer. unfold strlen. rewrite !length_app. simpl.
    rewrite ?length_app. simpl. lia.
  - exact Hfab.
  - rewrite Hfab. cbn [snd].
    rewrite buffer_with_buffer. unfold strlen. rewrite !length_app. simpl.
    rewrite ?length_app. simpl. rewrite ?length_app. simpl. lia.
Qed.

Lemma X19_composed_names_fill_their_blocks_witness :
  (run (utilx_tr_base_domain_attr
          (set_dom_name (Some (bytes "mlx5_0")) dom_none) (bytes "rxm"))
     empty_mem
     = ((0%Z, Some (Ptr (parse_block empty_mem) 0,
                    c_str (bytes "rxm") ++ delim :: c_str (bytes "mlx5_0"))),
        with_buffer
          (c_str (bytes "rxm") ++ delim :: c_str (bytes "mlx5_0") ++ [NUL])
          empty_mem) /\
   length (buffer (parse_block empty_mem)
             (snd (run (utilx_tr_base_domain_attr
                          (set_dom_name (Some (bytes "mlx5_0")) dom_none)
                          (bytes "rxm")) empty_mem)))
     = strlen (bytes "rxm") + strlen (bytes "mlx5_0") + 2) /\
  (run (utilx_tr_base_fabric_attr
          {| fab_name := Some (bytes "IB-1234");
             fab_prov_name := Some (bytes "verbs"); fab_prov_version := 0 |}
          (bytes "rxm")) empty_mem
     = ((0%Z, Some (Ptr (parse_block empty_mem) 0,
                    c_str (bytes "rxm") ++ delim :: c_str (bytes "verbs")
                      ++ delim :: c_str (bytes "IB-1234"))),
        with_buffer
          (c_str (bytes "rxm") ++ delim :: c_str (bytes "verbs")
             ++ delim :: c_str (bytes "IB-1234") ++ [NUL])
          empty_mem) /\
   length (buffer (parse_block empty_mem)
             (snd (run (utilx_tr_base_fabric_attr
                          {| fab_name := Some (bytes "IB-1234");
                             fab_prov_name := Some (bytes "verbs");
                             fab_prov_version := 0 |}
                          (bytes "rxm")) empty_mem)))
     = strlen (bytes "rxm") + strlen (bytes "IB-1234")
       + strlen (bytes "verbs") + 3).
Proof.
  apply (X19_composed_names_fill_their_blocks
           (set_dom_name (Some (bytes "mlx5_0")) dom_none)
           {| fab_name := Some (bytes "IB-1234");
              fab_prov_name := Some (bytes "verbs"); fab_prov_version := 0 |}
           (bytes "rxm") (bytes "mlx5_0") (bytes "IB-1234") (bytes "verbs")
           empty_mem).
  - reflexivity.
  - reflexivity.
  - reflexivity.
  - discriminate.
Defined.

(** ** The layered negotiation *)






(** ** Requests that ask for less *)

Lemma flags_subset_trans (a b c : Z) :
  flags_subset a b = true -> flags_subset b c = true ->
  flags_subset a c = true.
Proof.
  unfold flags_subset, not64. rewrite !Z.eqb_eq. intros Hab Hbc.
  apply Z.bits_inj'. intros n Hn.
  assert (Ha : Z.testbit (Z.land a (Z.ldiff (Z.ones 64) b)) n = false)
    by (rewrite Hab; apply Z.bits_0).
  assert (Hb : Z.testbit (Z.land b (Z.ldiff (Z.ones 64) c)) n = false)
    by (rewrite Hbc; apply Z.bits_0).
  rewrite Z.land_spec, Z.ldiff_spec in *. rewrite Z.bits_0.
  destruct (Z.testbit a n), (Z.testbit b n), (Z.testbit c n),
    (Z.testbit (Z.ones 64) n); cbn in *; congruence.
Qed.

Lemma mode_superset_trans (a b c : Z) :
  Z.land a b = b -> Z.land b c = c -> Z.land a c = c.
Proof.
  intros Hab Hbc. apply Z.bits_inj'. intros n Hn.
  assert (Ha : Z.testbit (Z.land a b) n = Z.testbit b n) by now rewrite Hab.
  assert (Hb : Z.testbit (Z.land b c) n = Z.testbit c n) by now rewrite Hbc.
  rewrite Z.land_spec in *.
  destruct (Z.testbit a n), (Z.testbit b n), (Z.testbit c n); cbn in *;
    congruence.
Qed.

Lemma gtb_false_le (a b : Z) : (a <= b)%Z -> (a >? b)%Z = false.
Proof. intros H. rewrite Z.gtb_ltb. apply Z.ltb_ge. exact H. Qed.

(** What [fi_check_rx_attr] asks of a request is all it asks. *)
Lemma fi_check_rx_attr_accepts (prov_attr user_attr : fi_rx_attr) (m : mem) :
  flags_subset (rx_caps user_attr) (rx_caps prov_attr) = true ->
  Z.land (rx_mode user_attr) (rx_mode prov_attr) = rx_mode prov_attr ->
  flags_subset (rx_msg_order user_attr) (rx_msg_order prov_attr) = true ->
  flags_subset (rx_comp_order user_attr) (rx_comp_order prov_attr) = true ->
  (rx_total_buffered_recv user_attr <= rx_total_buffered_recv prov_attr)%Z ->
  (rx_size user_attr <= rx_size prov_attr)%Z ->
  (rx_iov_limit user_attr <= rx_iov_limit prov_attr)%Z ->
  run (fi_check_rx_attr prov_attr user_attr) m = (0%Z, m).
Proof.
  intros Hc Hm Ho Hp Hb Hs Hi. unfold run, fi_check_rx_attr.
  rewrite op_flags_test_never_fires. unfold flags_subset, nonzero in *.
  rewrite Hc, Hm, Z.eqb_refl, Ho, Hp, !gtb_false_le by assumption.
  reflexivity.
Qed.

Lemma fi_check_tx_attr_accepts (prov_attr user_attr : fi_tx_attr) (m : mem) :
  flags_subset (tx_caps user_attr) (tx_caps prov_attr) = true ->
  Z.land (tx_mode user_attr) (tx_mode prov_attr) = tx_mode prov_attr ->
  flags_subset (tx_msg_order user_attr) (tx_msg_order prov_attr) = true ->
  flags_subset (tx_comp_order user_attr) (tx_comp_order prov_attr) = true ->
  (tx_inject_size user_attr <= tx_inject_size prov_attr)%Z ->
  (tx_size user_attr <= tx_size prov_attr)%Z ->
  (tx_iov_limit user_attr <= tx_iov_limit prov_attr)%Z ->
  (tx_rma_iov_limit user_attr <= tx_rma_iov_limit prov_attr)%Z ->
  run (fi_check_tx_attr prov_attr user_attr) m = (0%Z, m).
Proof.
  intros Hc Hm Ho Hp Hb Hs Hi Hr. unfold run, fi_check_tx_attr.
  rewrite op_flags_test_never_fires. unfold flags_subset, nonzero in *.
  rewrite Hc, Hm, Z.eqb_refl, Ho, Hp, !gtb_false_le by assumption.
  reflexivity.
Qed.

(** X22: [fi_check_rx_attr] and [fi_check_tx_attr] are downward closed:
    when a request passes against the provider's attributes, so does, in
    silence, every request that asks for no more: fewer capabilities and
    orderings, more mode bits, smaller sizes. *)
Theorem X22_rx_tx_checks_downward_closed
    (prov_rx user_rx less_rx : fi_rx_attr)
    (prov_tx user_tx less_tx : fi_tx_attr) (m m' : mem) :
  fst (run (fi_check_rx_attr prov_rx user_rx) m) = 0%Z ->
  fst (run (fi_check_tx_attr prov_tx user_tx) m) = 0%Z ->
  rx_asks_less less_rx user_rx ->
  tx_asks_less less_tx user_tx ->
  run (fi_check_rx_attr prov_rx less_rx) m' = (0%Z, m') /\
  run (fi_check_tx_attr prov_tx less_tx) m' = (0%Z, m').
Proof.
  intros Hrx Htx Hlr Hlt.
  apply fi_check_rx_attr_passed in Hrx.
  destruct Hrx as (Hc & Hm & Ho & Hp & Hb & Hs & Hi).
  apply fi_check_tx_attr_passed in Htx.
  destruct Htx as (Tc & Tm & To & Tp & Tj & Ts & Ti & Tr).
  destruct Hlr as (Lc & Lm & Lo & Lp & Lb & Ls & Li).
  destruct Hlt as (Kc & Km & Ko & Kp & Kj & Ks & Ki & Kr).
  split.
  - apply fi_check_rx_attr_accepts;
      eauto using flags_subset_trans, mode_superset_trans; lia.
  - apply fi_check_tx_attr_accepts;
      eauto using flags_subset_trans, mode_superset_trans; lia.
Qed.

Lemma X22_rx_tx_checks_downward_closed_witness :
  run (fi_check_rx_attr
         {| rx_caps := 7; rx_mode := 1; rx_op_flags := 0; rx_msg_order := 3;
            rx_comp_order := 1; rx_total_buffered_recv := 64; rx_size := 16;
            rx_iov_limit := 4 |}
         {| rx_caps := 1; rx_mode := 3; rx_op_flags := 0; rx_msg_order := 1;
            rx_comp_order := 0; rx_total_buffered_recv := 8; rx_size := 4;
            rx_iov_limit := 1 |}) empty_mem = (0%Z, empty_mem) /\
  run (fi_check_tx_attr
         {| tx_caps := 7; tx_mode := 1; tx_op_flags := 0; tx_msg_order := 3;
            tx_comp_order := 1; tx_inject_size := 64; tx_size := 16;
            tx_iov_limit := 4; tx_rma_iov_limit := 2 |}
         {| tx_caps := 2; tx_mode := 1; tx_op_flags := 0; tx_msg_order := 0;
            tx_comp_order := 1; tx_inject_size := 0; tx_size := 16;
            tx_iov_limit := 1; tx_rma_iov_limit := 1 |}) empty_mem
    = (0%Z, empty_mem).
Proof.
  apply (X22_rx_tx_checks_downward_closed
           {| rx_caps := 7; rx_mode := 1; rx_op_flags := 0; rx_msg_order := 3;
              rx_comp_order := 1; rx_total_buffered_recv := 64;
              rx_size := 16; rx_iov_limit := 4 |}
           {| rx_caps := 3; rx_mode := 1; rx_op_flags := 0; rx_msg_order := 1;
              rx_comp_order := 1; rx_total_buffered_recv := 32;
              rx_size := 8; rx_iov_limit := 2 |}
           {| rx_caps := 1; rx_mode := 3; rx_op_flags := 0; rx_msg_order := 1;
              rx_comp_order := 0; rx_total_buffered_recv := 8; rx_size := 4;
              rx_iov_limit := 1 |}
           {| tx_caps := 7; tx_mode := 1; tx_op_flags := 0; tx_msg_order := 3;
              tx_comp_order := 1; tx_inject_size := 64; tx_size := 16;
              tx_iov_limit := 4; tx_rma_iov_limit := 2 |}
           {| tx_caps := 6; tx_mode := 1; tx_op_flags := 0; tx_msg_order := 2;
              tx_comp_order := 1; tx_inject_size := 32; tx_size := 16;
              tx_iov_limit := 2; tx_rma_iov_limit := 1 |}
           {| tx_caps := 2; tx_mode := 1; tx_op_flags := 0; tx_msg_order := 0;
              tx_comp_order := 1; tx_inject_size := 0; tx_size := 16;
              tx_iov_limit := 1; tx_rma_iov_limit := 1 |}
           empty_mem empty_mem).
  - reflexivity.
  - reflexivity.
  - unfold rx_asks_less. cbn. repeat apply conj; try reflexivity; lia.
  - unfold tx_asks_less. cbn. repeat apply conj; try reflexivity; lia.
Defined.

(** ** The check type and the names *)

(** X23: the check type reaches nothing but the names: on a request whose
    fabric and domain groups, where present, carry no name, the layered
    and the default check of [fi_check_info] run alike, value, log and
    memory. *)
Theorem X23_check_type_only_reaches_names (prov_info : fi_info_prov)
    (user_info : fi_info) (m : mem) :
  (forall f, info_fabric_attr user_info = Some f -> fab_name f = None) ->
  (forall d, info_domain_attr user_info = Some d -> dom_name d = None) ->
  run (fi_check_info prov_info (Some user_info) FI_CHECK_LAYERED) m
  = run (fi_check_info prov_info (Some user_info) FI_CHECK_DEFAULT) m.
Proof.
  intros Hf Hd. unfold run, fi_check_info, when_present.
  destruct (info_fabric_attr user_info) as [f |];
    destruct (info_domain_attr user_info) as [d |];
    unfold fi_check_fabric_attr, fi_check_domain_attr;
    rewrite ?(Hf _ eq_refl), ?(Hd _ eq_refl); reflexivity.
Qed.

Lemma X23_check_type_only_reaches_names_witness :
  run (fi_check_info prov_none
         (Some {| info_caps := 0; info_mode := 0; info_addr_format := 0;
                  info_fabric_attr := Some fab_none;
                  info_domain_attr := Some dom_none;
                  info_ep_attr := None; info_rx_attr := None;
                  info_tx_attr := None |}) FI_CHECK_LAYERED) empty_mem
  = run (fi_check_info prov_none
           (Some {| info_caps := 0; info_mode := 0; info_addr_format := 0;
                    info_fabric_attr := Some fab_none;
                    info_domain_attr := Some dom_none;
                    info_ep_attr := None; info_rx_attr := None;
                    info_tx_attr := None |}) FI_CHECK_DEFAULT) empty_mem.
Proof.
  apply (X23_check_type_only_reaches_names prov_none
           {| info_caps := 0; info_mode := 0; info_addr_format := 0;
              info_fabric_attr := Some fab_none;
              info_domain_attr := Some dom_none;
              info_ep_attr := None; info_rx_attr := None;
              info_tx_attr := None |} empty_mem).
  - intros f [= <-]. reflexivity.
  - intros d [= <-]. reflexivity.
Defined.

(** ** The two capability masks *)

Lemma caps_split (h i P S : Z) :
  Z.land P S = 0%Z ->
  Z.land (Z.lor (Z.land h P) (Z.land i S)) P = Z.land h P /\
  Z.land (Z.lor (Z.land h P) (Z.land i S)) S = Z.land i S.
Proof.
  intros Hdis.
  assert (Hbit : forall n, Z.testbit P n && Z.testbit S n = false)
    by (intros n; rewrite <- Z.land_spec, Hdis; apply Z.bits_0).
  split; apply Z.bits_inj'; intros n _; specialize (Hbit n);
    rewrite !Z.land_spec, Z.lor_spec, !Z.land_spec;
    destruct (Z.testbit h n), (Z.testbit i n), (Z.testbit P n),
      (Z.testbit S n); cbn in *; congruence.
Qed.

(** X24: with masks that share no bit, [fi_alter_info] on hints that carry
    receive and transmit groups makes the primary capabilities of the
    record, of its receive and of its transmit attributes those of the
    hints, and keeps the secondary capabilities of each as the provider
    set them; the mode, the address format and the fabric and domain
    attributes of the record are not touched. *)
Theorem X24_alter_splits_caps_by_mask (PRIMARY SECONDARY : Z)
    (info : fi_info_prov) (hints : fi_info) (rx : fi_rx_attr)
    (tx : fi_tx_attr) :
  Z.land PRIMARY SECONDARY = 0%Z ->
  info_rx_attr hints = Some rx ->
  info_tx_attr hints = Some tx ->
  let altered := fi_alter_info PRIMARY SECONDARY info (Some hints) in
  (Z.land (prov_caps altered) PRIMARY = Z.land (info_caps hints) PRIMARY /\
   Z.land (prov_caps altered) SECONDARY
     = Z.land (prov_caps info) SECONDARY) /\
  (Z.land (rx_caps (prov_rx_attr altered)) PRIMARY
     = Z.land (rx_caps rx) PRIMARY /\
   Z.land (rx_caps (prov_rx_attr altered)) SECONDARY
     = Z.land (rx_caps (prov_rx_attr info)) SECONDARY) /\
  (Z.land (tx_caps (prov_tx_attr altered)) PRIMARY
     = Z.land (tx_caps tx) PRIMARY /\
   Z.land (tx_caps (prov_tx_attr altered)) SECONDARY
     = Z.land (tx_caps (prov_tx_attr info)) SECONDARY) /\
  prov_mode altered = prov_mode info /\
  prov_addr_format altered = prov_addr_format info /\
  prov_fabric_attr altered = prov_fabric_attr info /\
  prov_domain_attr altered = prov_domain_attr info.
Proof.
  intros Hdis Hrx Htx. cbn zeta. unfold fi_alter_info.
  cbn [prov_caps prov_rx_attr prov_tx_attr prov_mode prov_addr_format
       prov_fabric_attr prov_domain_attr].
  rewrite Hrx, Htx. unfold fi_alter_rx_attr, fi_alter_tx_attr.
  cbn [rx_caps tx_caps].
  repeat split; try (now apply caps_split).
Qed.

Lemma X24_alter_splits_caps_by_mask_witness :
  let altered :=
    fi_alter_info 3 12 prov_none
      (Some {| info_caps := 5; info_mode := 0; info_addr_format := 0;
               info_fabric_attr := None; info_domain_attr := None;
               info_ep_attr := None; info_rx_attr := Some rx_none;
               info_tx_attr := Some tx_none |}) in
  (Z.land (prov_caps altered) 3 = Z.land 5 3 /\
   Z.land (prov_caps altered) 12 = Z.land (prov_caps prov_none) 12) /\
  (Z.land (rx_caps (prov_rx_attr altered)) 3 = Z.land (rx_caps rx_none) 3 /\
   Z.land (rx_caps (prov_rx_attr altered)) 12
     = Z.land (rx_caps (prov_rx_attr prov_none)) 12) /\
  (Z.land (tx_caps (prov_tx_attr altered)) 3 = Z.land (tx_caps tx_none) 3 /\
   Z.land (tx_caps (prov_tx_attr altered)) 12
     = Z.land (tx_caps (prov_tx_attr prov_none)) 12) /\
  prov_mode altered = prov_mode prov_none /\
  prov_addr_format altered = prov_addr_format prov_none /\
  prov_fabric_attr altered = prov_fabric_attr prov_none /\
  prov_domain_attr altered = prov_domain_attr prov_none.
Proof.
  apply (X24_alter_splits_caps_by_mask 3 12 prov_none
           {| info_caps := 5; info_mode := 0; info_addr_format := 0;
              info_fabric_attr := None; info_domain_attr := None;
              info_ep_attr := None; info_rx_attr := Some rx_none;
              info_tx_attr := Some tx_none |} rx_none tx_none).
  - reflexivity.
  - reflexivity.
  - reflexivity.
Defined.

(** ** The fabric check in default mode *)

(** X25: in default mode [fi_check_fabric_attr] accepts a request exactly
    when its name, if it gives one, agrees with the provider's once both
    are lowered, and its provider version is not above the provider's. *)
Theorem X25_fabric_check_default_mode (prov_attr user_attr : fi_fabric_attr)
    (pn : list ascii) (m : mem) :
  fab_name prov_attr = Some pn ->
  fst (run (fi_check_fabric_attr prov_attr user_attr FI_CHECK_DEFAULT) m)
    = 0%Z
  <->
  match fab_name user_attr with
  | None => True
  | Some n => map tolower (c_str pn) = map tolower (c_str n)
  end /\
  (fab_prov_version user_attr <= fab_prov_version prov_attr)%Z.
Proof.
  intros Hpn. unfold run, fi_check_fabric_attr, name_mismatch, fi_check_name,
    bind, nonzero.
  rewrite Hpn. cbn [deref_string ret].
  destruct (fab_name user_attr) as [n |].
  - pose proof (strcasecmp_zero pn n) as Hz.
    destruct (Z.eqb_spec (strcasecmp pn n) 0) as [E | E]; cbn [negb fst snd];
      destruct (Z.gtb_spec (fab_prov_version user_attr)
                  (fab_prov_version prov_attr)); cbn;
      (split;
       [ intros H0; first [discriminate | split; [tauto | lia]]
       | intros [H1 H2]; first [reflexivity | lia | tauto] ]).
  - cbn [fst snd].
    destruct (Z.gtb_spec (fab_prov_version user_attr)
                (fab_prov_version prov_attr)); cbn;
      (split;
       [ intros H0; first [discriminate | split; [exact I | lia]]
       | intros [_ H2]; first [reflexivity | lia] ]).
Qed.

Lemma X25_fabric_check_default_mode_witness :
  fst (run (fi_check_fabric_attr
              {| fab_name := Some (bytes "IB-1234");
                 fab_prov_name := Some (bytes "verbs");
                 fab_prov_version := 2 |}
              {| fab_name := Some (bytes "ib-1234"); fab_prov_name := None;
                 fab_prov_version := 1 |} FI_CHECK_DEFAULT) empty_mem)
    = 0%Z
  <->
  match fab_name {| fab_name := Some (bytes "ib-1234"); fab_prov_name := None;
                    fab_prov_version := 1 |} with
  | None => True
  | Some n => map tolower (c_str (bytes "IB-1234")) = map tolower (c_str n)
  end /\
  (fab_prov_version {| fab_name := Some (bytes "ib-1234");
                       fab_prov_name := None; fab_prov_version := 1 |}
   <= fab_prov_version {| fab_name := Some (bytes "IB-1234");
                          fab_prov_name := Some (bytes "verbs");
                          fab_prov_version := 2 |})%Z.
Proof.
  apply (X25_fabric_check_default_mode
           {| fab_name := Some (bytes "IB-1234");
              fab_prov_name := Some (bytes "verbs"); fab_prov_version := 2 |}
           {| fab_name := Some (bytes "ib-1234"); fab_prov_name := None;
              fab_prov_version := 1 |} (bytes "IB-1234") empty_mem).
  reflexivity.
Defined.
